(** * Happiness Reserve: the deposit lifecycle, surfacing and Circle routes

    A shallow embedding of the Express route handlers of [registerRoutes]
    and of the tables of [shared/schema.ts].  Every handler is a function
    from the database state and the request to a reply and the next
    database state.  What the runtime supplies (a fresh row id from
    [gen_random_uuid()], the clock of [new Date()] and [defaultNow()], the
    draw of [Math.random()]) is an explicit argument of the handler. *)

From Stdlib Require Import ZArith Lia Ascii String.
From stdpp Require Import base option list strings gmap sorting.

Set Warnings "-register-all".

Open Scope string_scope.
Open Scope Z_scope.

(** ** Values *)

(** Timestamps are milliseconds since the epoch, as [Date.getTime()]. *)
Definition Timestamp := Z.

(** A JSON value of a request body.  Numbers are the integral ones;
    objects do not nest in the bodies these routes read. *)
Inductive Json : Type :=
  | JNull
  | JBool (b : bool)
  | JNum (n : Z)
  | JStr (s : string)
  | JArr (items : list Json).

(** [req.body]: a JS object read by key; a missing key reads [undefined],
    here [None]. *)
Abbreviation Body := (gmap string Json).

(** What a handler sends: [res.json(x)] is [Sent 200 x],
    [res.status(c).json(x)] is [Sent c x], and
    [res.status(c).json({ error: msg })] is [Failed c msg]. *)
Inductive Reply (A : Type) : Type :=
  | Sent (code : Z) (payload : A)
  | Failed (code : Z) (error : string).
Arguments Sent {A} code payload.
Arguments Failed {A} code error.

(** ** Tables of shared/schema.ts *)

Module Deposit.
Record t : Type := mk {
  id : string;
  content : string;
  emotion : option string;
  mediaUri : option string;
  mediaType : option string;
  tags : option (list string);
  lastSurfacedAt : option Timestamp;
  status : Z;
  createdAt : Timestamp
}.
End Deposit.

Module Connection.
Record t : Type := mk {
  id : string;
  userId : string;
  connectedUserId : string;
  status : string;
  createdAt : Timestamp;
  acceptedAt : option Timestamp
}.
End Connection.

Module CircleInvite.
Record t : Type := mk {
  id : string;
  senderId : string;
  inviteType : string;
  inviteValue : option string;
  inviteCode : string;
  status : string;
  createdAt : Timestamp;
  expiresAt : option Timestamp
}.
End CircleInvite.

Module SharedDeposit.
Record t : Type := mk {
  id : string;
  senderId : string;
  receiverId : string;
  content : string;
  emotion : option string;
  mediaUri : option string;
  mediaType : option string;
  tags : option (list string);
  status : Z;
  lastSurfacedAt : option Timestamp;
  createdAt : Timestamp
}.
End SharedDeposit.

Module SharedDepositUsage.
Record t : Type := mk {
  id : string;
  sharedDepositId : string;
  usedAt : Timestamp;
  helpful : option bool
}.
End SharedDepositUsage.

(** The database: one list of rows per table, in storage order. *)
Record Db : Type := mkDb {
  deposits : list Deposit.t;
  connections : list Connection.t;
  circleInvites : list CircleInvite.t;
  sharedDeposits : list SharedDeposit.t;
  sharedDepositUsage : list SharedDepositUsage.t
}.

Definition empty_db : Db := mkDb [] [] [] [] [].

Definition with_deposits (rows : list Deposit.t) (db : Db) : Db :=
  mkDb rows (connections db) (circleInvites db) (sharedDeposits db)
       (sharedDepositUsage db).

Definition with_connections (rows : list Connection.t) (db : Db) : Db :=
  mkDb (deposits db) rows (circleInvites db) (sharedDeposits db)
       (sharedDepositUsage db).

Definition with_circleInvites (rows : list CircleInvite.t) (db : Db) : Db :=
  mkDb (deposits db) (connections db) rows (sharedDeposits db)
       (sharedDepositUsage db).

Definition with_sharedDeposits (rows : list SharedDeposit.t) (db : Db) : Db :=
  mkDb (deposits db) (connections db) (circleInvites db) rows
       (sharedDepositUsage db).

Definition with_sharedDepositUsage (rows : list SharedDepositUsage.t) (db : Db) : Db :=
  mkDb (deposits db) (connections db) (circleInvites db) (sharedDeposits db)
       rows.

(** ** Query building blocks *)

(** [db.update(t).set(f).where(p)]: every row that matches is rewritten
    in place. *)
Definition update_where {A : Type} (p : A → bool) (f : A → A) (rows : list A)
  : list A :=
  (λ r, if p r then f r else r) <$> rows.

(** The rows [.returning()] hands back: the matching ones, rewritten. *)
Definition returning {A : Type} (p : A → bool) (f : A → A) (rows : list A)
  : list A :=
  f <$> filter (λ r, p r = true) rows.

(** [.orderBy(desc(deposits.createdAt))] *)
Definition newer_first (a b : Deposit.t) : Prop :=
  Deposit.createdAt b ≤ Deposit.createdAt a.

Global Instance newer_first_dec a b : Decision (newer_first a b) :=
  decide (Deposit.createdAt b ≤ Deposit.createdAt a).

Definition orderBy_desc_createdAt (rows : list Deposit.t) : list Deposit.t :=
  merge_sort newer_first rows.

(** ** Deposit routes *)

(** GET /api/deposits *)
Definition get_api_deposits (db : Db) (includeInactiveQuery : option string)
  : Reply (list Deposit.t) * Db :=
  let includeInactive := bool_decide (includeInactiveQuery = Some "true") in
  let allDeposits :=
    if includeInactive
    then orderBy_desc_createdAt (deposits db)
    else orderBy_desc_createdAt
           (filter (λ d, Deposit.status d ≠ -1) (deposits db)) in
  (Sent 200 allDeposits, db).

(** *** Validation: [insertDepositSchema.safeParse(req.body)]

    [createInsertSchema(deposits).omit({ id, createdAt })]: [content] is a
    required string; the nullable columns are optional and accept [null];
    [status] has a column default and is an optional number.  A JSON body
    carries no [Date], so [lastSurfacedAt] parses only when it is missing
    or [null].  A field that is missing is [None] in the parsed value. *)

Definition required_text (v : option Json) : option string :=
  match v with
  | Some (JStr s) => Some s
  | _ => None
  end.

Definition optional_text (v : option Json) : option (option string) :=
  match v with
  | None | Some JNull => Some None
  | Some (JStr s) => Some (Some s)
  | _ => None
  end.

Definition string_items (items : list Json) : option (list string) :=
  mapM (λ j, match j with JStr s => Some s | _ => None end) items.

(** The outer [option] of the result is [undefined]; the inner one [null]. *)
Definition optional_text_array (v : option Json)
  : option (option (option (list string))) :=
  match v with
  | None => Some None
  | Some JNull => Some (Some None)
  | Some (JArr items) => (λ l, Some (Some l)) <$> string_items items
  | _ => None
  end.

Definition optional_integer (v : option Json) : option (option Z) :=
  match v with
  | None => Some None
  | Some (JNum n) => Some (Some n)
  | _ => None
  end.

Definition optional_date (v : option Json) : option (option Timestamp) :=
  match v with
  | None | Some JNull => Some None
  | _ => None
  end.

Module InsertDeposit.
Record t : Type := mk {
  content : string;
  emotion : option string;
  mediaUri : option string;
  mediaType : option string;
  tags : option (option (list string));
  lastSurfacedAt : option Timestamp;
  status : option Z
}.

(** [{ ...data, status: s }] *)
Definition with_status (s : Z) (data : t) : t :=
  mk (content data) (emotion data) (mediaUri data) (mediaType data)
     (tags data) (lastSurfacedAt data) (Some s).
End InsertDeposit.

Definition insertDepositSchema_safeParse (body : Body) : option InsertDeposit.t :=
  content ← required_text (body !! "content");
  emotion ← optional_text (body !! "emotion");
  mediaUri ← optional_text (body !! "mediaUri");
  mediaType ← optional_text (body !! "mediaType");
  tags ← optional_text_array (body !! "tags");
  lastSurfacedAt ← optional_date (body !! "lastSurfacedAt");
  status ← optional_integer (body !! "status");
  Some (InsertDeposit.mk content emotion mediaUri mediaType tags
                         lastSurfacedAt status).

(** [db.insert(deposits).values(v).returning()]: the database fills [id]
    and [createdAt], and the defaults of [tags] and [status] where [v]
    leaves them undefined. *)
Definition insert_deposits_values (v : InsertDeposit.t) (newId : string)
    (now : Timestamp) : Deposit.t :=
  Deposit.mk newId (InsertDeposit.content v) (InsertDeposit.emotion v)
             (InsertDeposit.mediaUri v) (InsertDeposit.mediaType v)
             (default (Some []) (InsertDeposit.tags v))
             (InsertDeposit.lastSurfacedAt v)
             (default 0 (InsertDeposit.status v))
             now.

(** POST /api/deposits *)
Definition post_api_deposits (db : Db) (body : Body) (newId : string)
    (now : Timestamp) : Reply Deposit.t * Db :=
  match insertDepositSchema_safeParse body with
  | None => (Failed 400 "Invalid deposit data", db)
  | Some data =>
      let newDeposit :=
        insert_deposits_values (InsertDeposit.with_status 0 data) newId now in
      (Sent 201 newDeposit, with_deposits (deposits db ++ [newDeposit]) db)
  end.

(** *** Surfacing *)

(** [s.split(",")] *)
Fixpoint split_comma (s : string) : list string :=
  match s with
  | EmptyString => [EmptyString]
  | String c rest =>
      if Ascii.eqb c ","%char
      then EmptyString :: split_comma rest
      else match split_comma rest with
           | [] => [String c EmptyString]
           | piece :: pieces => String c piece :: pieces
           end
  end.

(** [excludeParam ? excludeParam.split(",").filter(Boolean) : []]; the
    empty string is falsy, both as [excludeParam] and as a piece. *)
Definition excludeIds_of (excludeParam : option string) : list string :=
  match excludeParam with
  | None => []
  | Some EmptyString => []
  | Some s => filter (λ piece, piece ≠ EmptyString) (split_comma s)
  end.

(** [newExcludeIds.join(",")]: how the rainy-day screen of the client
    writes the ids it has shown into the [exclude] parameter. *)
Fixpoint join_comma (ids : list string) : string :=
  match ids with
  | [] => EmptyString
  | id :: rest =>
      match rest with
      | [] => id
      | _ :: _ => id +:+ String ","%char (join_comma rest)
      end
  end.

Fixpoint comma_free (s : string) : bool :=
  match s with
  | EmptyString => true
  | String c rest => negb (Ascii.eqb c ","%char) && comma_free rest
  end.

(** An id that the [exclude] parameter can carry: not empty, no comma. *)
Definition plain_id (id : string) : Prop :=
  id ≠ EmptyString ∧ comma_free id = true.

(** A draw of [Math.random()], the fraction [rnd_num / rnd_den]. *)
Record Random : Type := mkRandom { rnd_num : Z; rnd_den : Z }.

(** [Math.random()] lies in the interval from 0 (included) to 1 (excluded). *)
Definition unit_interval (r : Random) : Prop :=
  0 ≤ rnd_num r < rnd_den r.

(** [Math.floor(r * n)], the product taken exactly. *)
Definition floor_scaled (r : Random) (n : nat) : Z :=
  (rnd_num r * Z.of_nat n) `div` rnd_den r.

(** [rows[i]] of a JS array: [undefined], here [None], off the array. *)
Definition js_index {A : Type} (rows : list A) (i : Z) : option A :=
  if decide (0 ≤ i) then rows !! Z.to_nat i else None.

Definition eligible_excluding (excludeIds : list string) (d : Deposit.t) : Prop :=
  Deposit.status d = 0 ∧ Deposit.id d ∉ excludeIds.

Definition eligible_active (d : Deposit.t) : Prop :=
  Deposit.status d = 0.

(** GET /api/deposits/surface *)
Definition get_api_deposits_surface (db : Db) (excludeParam : option string)
    (random : Random) : Reply (option Deposit.t) * Db :=
  let excludeIds := excludeIds_of excludeParam in
  let eligibleDeposits :=
    if decide (0 < length excludeIds)%nat
    then filter (eligible_excluding excludeIds) (deposits db)
    else filter eligible_active (deposits db) in
  if decide (length eligibleDeposits = 0%nat)
  then (Sent 200 None, db)
  else
    let randomDeposit :=
      js_index eligibleDeposits (floor_scaled random (length eligibleDeposits)) in
    (Sent 200 randomDeposit, db).

(** *** Updates of one deposit *)

(** [.where(eq(deposits.id, id))] *)
Definition eq_deposits_id (id : string) (d : Deposit.t) : bool :=
  bool_decide (Deposit.id d = id).

(** The [{ content, emotion, tags }] of the body of PATCH /api/deposits/:id,
    as the client sends it: each field is missing ([None]) or a value of
    its column's type. *)
Module UpdateData.
Record t : Type := mk {
  content : option string;
  emotion : option (option string);
  tags : option (option (list string))
}.
End UpdateData.

(** [.set(updateData)]: only the fields put into [updateData] are
    written. *)
Definition set_updateData (u : UpdateData.t) (d : Deposit.t) : Deposit.t :=
  Deposit.mk (Deposit.id d)
             (default (Deposit.content d) (UpdateData.content u))
             (default (Deposit.emotion d) (UpdateData.emotion u))
             (Deposit.mediaUri d) (Deposit.mediaType d)
             (default (Deposit.tags d) (UpdateData.tags u))
             (Deposit.lastSurfacedAt d) (Deposit.status d)
             (Deposit.createdAt d).

(** [.set({ status })] *)
Definition set_status (status : Z) (d : Deposit.t) : Deposit.t :=
  Deposit.mk (Deposit.id d) (Deposit.content d) (Deposit.emotion d)
             (Deposit.mediaUri d) (Deposit.mediaType d) (Deposit.tags d)
             (Deposit.lastSurfacedAt d) status (Deposit.createdAt d).

(** [.set({ lastSurfacedAt: new Date(), status: 30 })] *)
Definition set_lastSurfacedAt_status (now : Timestamp) (status : Z)
    (d : Deposit.t) : Deposit.t :=
  Deposit.mk (Deposit.id d) (Deposit.content d) (Deposit.emotion d)
             (Deposit.mediaUri d) (Deposit.mediaType d) (Deposit.tags d)
             (Some now) status (Deposit.createdAt d).

(** An [updateData] that was given no field.  Drizzle's [.set({})] throws
    (no values to set) before any statement is sent. *)
Definition no_values (u : UpdateData.t) : bool :=
  match UpdateData.content u, UpdateData.emotion u, UpdateData.tags u with
  | None, None, None => true
  | _, _, _ => false
  end.

(** PATCH /api/deposits/:id; what [.set] throws is caught by the handler
    and answered 500. *)
Definition patch_api_deposits_id (db : Db) (id : string) (body : UpdateData.t)
  : Reply Deposit.t * Db :=
  let updateData := body in
  if no_values updateData then (Failed 500 "Failed to update deposit", db) else
  let updated :=
    returning (eq_deposits_id id) (set_updateData updateData) (deposits db) in
  let db' :=
    with_deposits
      (update_where (eq_deposits_id id) (set_updateData updateData) (deposits db))
      db in
  match head updated with
  | None => (Failed 404 "Deposit not found", db')
  | Some row => (Sent 200 row, db')
  end.

(** [status: integer("status")]: the column holds a 32-bit signed integer;
    a statement that binds a number outside that range is rejected by the
    database, which the handler's [catch] turns into a 500. *)
Definition integer_column (n : Z) : bool :=
  bool_decide (-2147483648 ≤ n ≤ 2147483647).

(** PATCH /api/deposits/:id/status *)
Definition patch_api_deposits_id_status (db : Db) (id : string) (body : Body)
  : Reply Deposit.t * Db :=
  match body !! "status" with
  | Some (JNum status) =>
      if integer_column status then
        let updated :=
          returning (eq_deposits_id id) (set_status status) (deposits db) in
        let db' :=
          with_deposits
            (update_where (eq_deposits_id id) (set_status status) (deposits db))
            db in
        match head updated with
        | None => (Failed 404 "Deposit not found", db')
        | Some row => (Sent 200 row, db')
        end
      else (Failed 500 "Failed to update deposit status", db)
  | _ => (Failed 400 "Status must be a number", db)
  end.

(** DELETE /api/deposits/:id; the payload [true] is [{ success: true }]. *)
Definition delete_api_deposits_id (db : Db) (id : string) : Reply bool * Db :=
  let updated :=
    returning (eq_deposits_id id) (set_status (-1)) (deposits db) in
  let db' :=
    with_deposits
      (update_where (eq_deposits_id id) (set_status (-1)) (deposits db)) db in
  match head updated with
  | None => (Failed 404 "Deposit not found", db')
  | Some _ => (Sent 200 true, db')
  end.

(** PATCH /api/deposits/:id/surface *)
Definition patch_api_deposits_id_surface (db : Db) (id : string)
    (now : Timestamp) : Reply Deposit.t * Db :=
  let updated :=
    returning (eq_deposits_id id) (set_lastSurfacedAt_status now 30)
              (deposits db) in
  let db' :=
    with_deposits
      (update_where (eq_deposits_id id) (set_lastSurfacedAt_status now 30)
                    (deposits db)) db in
  match head updated with
  | None => (Failed 404 "Deposit not found", db')
  | Some row => (Sent 200 row, db')
  end.

(** *** Sequences of requests to the deposit routes *)

Inductive Request : Type :=
  | Create (body : Body) (newId : string) (now : Timestamp)
  | Update (id : string) (body : UpdateData.t)
  | SetStatus (id : string) (body : Body)
  | SoftDelete (id : string)
  | MarkSurfaced (id : string) (now : Timestamp)
  | Surface (excludeParam : option string) (random : Random).

(** The database after one request; the reply goes to the caller. *)
Definition handle (db : Db) (req : Request) : Db :=
  match req with
  | Create body newId now => snd (post_api_deposits db body newId now)
  | Update id body => snd (patch_api_deposits_id db id body)
  | SetStatus id body => snd (patch_api_deposits_id_status db id body)
  | SoftDelete id => snd (delete_api_deposits_id db id)
  | MarkSurfaced id now => snd (patch_api_deposits_id_surface db id now)
  | Surface excludeParam random =>
      snd (get_api_deposits_surface db excludeParam random)
  end.

Definition handle_all (db : Db) (reqs : list Request) : Db :=
  foldl handle db reqs.

(** The status values of the data model: -1, 0 or a positive integer. *)
Definition status_in_model (s : Z) : Prop :=
  s = -1 ∨ s = 0 ∨ 0 < s.

Definition statuses_in_model (db : Db) : Prop :=
  Forall (λ d, status_in_model (Deposit.status d)) (deposits db).

(** The status a set-status request asks for, when its body carries a
    number. *)
Definition requested_status (req : Request) : option Z :=
  match req with
  | SetStatus _ body =>
      match body !! "status" with
      | Some (JNum status) => Some status
      | _ => None
      end
  | _ => None
  end.

(** ** Circle routes *)

(** The rows between two users, in either direction:
    [or(and(eq(userId, a), eq(connectedUserId, b)),
        and(eq(userId, b), eq(connectedUserId, a)))] *)
Definition either_direction (a b : string) (c : Connection.t) : Prop :=
  (Connection.userId c = a ∧ Connection.connectedUserId c = b)
  ∨ (Connection.userId c = b ∧ Connection.connectedUserId c = a).

Definition set_invite_status (status : string) (i : CircleInvite.t)
  : CircleInvite.t :=
  CircleInvite.mk (CircleInvite.id i) (CircleInvite.senderId i)
                  (CircleInvite.inviteType i) (CircleInvite.inviteValue i)
                  (CircleInvite.inviteCode i) status
                  (CircleInvite.createdAt i) (CircleInvite.expiresAt i).

(** POST /api/circle/invites/:code/accept.  [userId] is [req.body.userId];
    [id1], [now1] and [id2], [now2] are the row id and the clock of the first
    and of the second insert.  The payload is the [connection] of
    [{ success: true, connection: connection1 }].  The sender of the invite
    and the user of the request are taken to be rows of [users]: the
    references of [connections] to [users] are not checked here. *)
Definition post_api_circle_invites_code_accept (db : Db) (code : string)
    (userId : option string) (id1 : string) (now1 : Timestamp)
    (id2 : string) (now2 : Timestamp) : Reply Connection.t * Db :=
  match userId with
  | None | Some EmptyString => (Failed 400 "User ID required", db)
  | Some userId =>
      match head (filter (λ i, CircleInvite.inviteCode i = code)
                         (circleInvites db)) with
      | None => (Failed 404 "Invite not found", db)
      | Some invite =>
          if decide (CircleInvite.status invite ≠ "pending") then
            (Failed 400 "Invite already used or expired", db)
          else if decide (CircleInvite.senderId invite = userId) then
            (Failed 400 "Cannot accept your own invite", db)
          else
            let existingConnections :=
              filter (either_direction (CircleInvite.senderId invite) userId)
                     (connections db) in
            if decide (0 < length existingConnections)%nat then
              (Failed 400 "Already connected", db)
            else
              let connection1 :=
                Connection.mk id1 (CircleInvite.senderId invite) userId
                              "accepted" now1 (Some now1) in
              let db1 := with_connections (connections db ++ [connection1]) db in
              let connection2 :=
                Connection.mk id2 userId (CircleInvite.senderId invite)
                              "accepted" now2 (Some now2) in
              let db2 := with_connections (connections db1 ++ [connection2]) db1 in
              let db3 :=
                with_circleInvites
                  (update_where
                     (λ i, bool_decide (CircleInvite.id i = CircleInvite.id invite))
                     (set_invite_status "accepted") (circleInvites db2))
                  db2 in
              (Sent 200 connection1, db3)
      end
  end.

(** DELETE /api/circle/connections/:id; the handler reads [userId] from
    the body and does not use it. *)
Definition delete_api_circle_connections_id (db : Db) (id : string)
    (userId : option string) : Reply bool * Db :=
  match head (filter (λ c, Connection.id c = id) (connections db)) with
  | None => (Failed 404 "Connection not found", db)
  | Some connection =>
      let kept :=
        filter (λ c, ¬ either_direction (Connection.userId connection)
                         (Connection.connectedUserId connection) c)
               (connections db) in
      (Sent 200 true, with_connections kept db)
  end.

(** *** Shared deposits *)

Module InsertSharedDeposit.
Record t : Type := mk {
  senderId : string;
  receiverId : string;
  content : string;
  emotion : option string;
  mediaUri : option string;
  mediaType : option string;
  tags : option (option (list string));
  status : option Z
}.

(** [{ ...data, status: s }] *)
Definition with_status (s : Z) (data : t) : t :=
  mk (senderId data) (receiverId data) (content data) (emotion data)
     (mediaUri data) (mediaType data) (tags data) (Some s).
End InsertSharedDeposit.

(** [createInsertSchema(sharedDeposits).omit({ id, createdAt, lastSurfacedAt })] *)
Definition insertSharedDepositSchema_safeParse (body : Body)
  : option InsertSharedDeposit.t :=
  senderId ← required_text (body !! "senderId");
  receiverId ← required_text (body !! "receiverId");
  content ← required_text (body !! "content");
  emotion ← optional_text (body !! "emotion");
  mediaUri ← optional_text (body !! "mediaUri");
  mediaType ← optional_text (body !! "mediaType");
  tags ← optional_text_array (body !! "tags");
  status ← optional_integer (body !! "status");
  Some (InsertSharedDeposit.mk senderId receiverId content emotion mediaUri
                               mediaType tags status).

Definition insert_sharedDeposits_values (v : InsertSharedDeposit.t)
    (newId : string) (now : Timestamp) : SharedDeposit.t :=
  SharedDeposit.mk newId (InsertSharedDeposit.senderId v)
                   (InsertSharedDeposit.receiverId v)
                   (InsertSharedDeposit.content v)
                   (InsertSharedDeposit.emotion v)
                   (InsertSharedDeposit.mediaUri v)
                   (InsertSharedDeposit.mediaType v)
                   (default (Some []) (InsertSharedDeposit.tags v))
                   (default 0 (InsertSharedDeposit.status v))
                   None now.

(** [and(eq(userId, senderId), eq(connectedUserId, receiverId),
         eq(status, "accepted"))] *)
Definition accepted_from_to (senderId receiverId : string) (c : Connection.t)
  : Prop :=
  Connection.userId c = senderId
  ∧ Connection.connectedUserId c = receiverId
  ∧ Connection.status c = "accepted".

(** POST /api/circle/shared-deposits *)
Definition post_api_circle_shared_deposits (db : Db) (body : Body)
    (newId : string) (now : Timestamp) : Reply SharedDeposit.t * Db :=
  match insertSharedDepositSchema_safeParse body with
  | None => (Failed 400 "Invalid shared deposit data", db)
  | Some data =>
      let senderId := InsertSharedDeposit.senderId data in
      let receiverId := InsertSharedDeposit.receiverId data in
      match head (filter (accepted_from_to senderId receiverId)
                         (connections db)) with
      | None => (Failed 403 "Not connected to this user", db)
      | Some connection =>
          let sharedDeposit :=
            insert_sharedDeposits_values
              (InsertSharedDeposit.with_status 0 data) newId now in
          (Sent 201 sharedDeposit,
           with_sharedDeposits (sharedDeposits db ++ [sharedDeposit]) db)
      end
  end.

Definition set_shared_lastSurfacedAt_status (now : Timestamp) (status : Z)
    (d : SharedDeposit.t) : SharedDeposit.t :=
  SharedDeposit.mk (SharedDeposit.id d) (SharedDeposit.senderId d)
                   (SharedDeposit.receiverId d) (SharedDeposit.content d)
                   (SharedDeposit.emotion d) (SharedDeposit.mediaUri d)
                   (SharedDeposit.mediaType d) (SharedDeposit.tags d)
                   status (Some now) (SharedDeposit.createdAt d).

(** POST /api/circle/shared-deposits/:id/use; [helpful] is
    [req.body.helpful ?? null], [usageId] the id of the ledger row. *)
Definition post_api_circle_shared_deposits_id_use (db : Db) (id : string)
    (helpful : option bool) (now : Timestamp) (usageId : string)
  : Reply SharedDeposit.t * Db :=
  let matches := λ d, bool_decide (SharedDeposit.id d = id) in
  let updated :=
    returning matches (set_shared_lastSurfacedAt_status now 30)
              (sharedDeposits db) in
  let db1 :=
    with_sharedDeposits
      (update_where matches (set_shared_lastSurfacedAt_status now 30)
                    (sharedDeposits db)) db in
  match head updated with
  | None => (Failed 404 "Shared deposit not found", db1)
  | Some row =>
      let usage := SharedDepositUsage.mk usageId id now helpful in
      (Sent 200 row,
       with_sharedDepositUsage (sharedDepositUsage db1 ++ [usage]) db1)
  end.

(** *** Sender summary *)

(** A string is the sequence of the UTF-8 bytes of the JavaScript string.
    The numbers [parseInt] gives are the doubles that hold an integer, the
    infinities and [NaN]. *)
Inductive Number : Type :=
  | JsNaN
  | JsInt (n : Z)
  | JsInfinity (negative : bool).

#[global] Instance Number_eq_dec : EqDecision Number.
Proof. solve_decision. Defined.

(** The white space [parseInt] skips, [WhiteSpace] and [LineTerminator] of
    the language: the number of leading bytes of [s] that encode one such
    character, 0 when [s] starts with none.  One byte: TAB, LF, VT, FF, CR,
    SP.  Two bytes: U+00A0.  Three bytes: U+1680, U+2000 to U+200A, U+2028,
    U+2029, U+202F, U+205F, U+3000, U+FEFF. *)
Definition is_white_space (c : ascii) : bool :=
  let n := nat_of_ascii c in
  bool_decide (n = 32 ∨ 9 ≤ n ≤ 13)%nat.

Definition is_white_space2 (c1 c2 : ascii) : bool :=
  bool_decide (nat_of_ascii c1 = 194 ∧ nat_of_ascii c2 = 160)%nat.

Definition is_white_space3 (c1 c2 c3 : ascii) : bool :=
  let n1 := nat_of_ascii c1 in
  let n2 := nat_of_ascii c2 in
  let n3 := nat_of_ascii c3 in
  bool_decide
    ((n1 = 225 ∧ n2 = 154 ∧ n3 = 128)
     ∨ (n1 = 226 ∧ n2 = 128
        ∧ (128 ≤ n3 ≤ 138 ∨ n3 = 168 ∨ n3 = 169 ∨ n3 = 175))
     ∨ (n1 = 226 ∧ n2 = 129 ∧ n3 = 159)
     ∨ (n1 = 227 ∧ n2 = 128 ∧ n3 = 128)
     ∨ (n1 = 239 ∧ n2 = 187 ∧ n3 = 191))%nat.

Fixpoint skip_white_space (s : string) : string :=
  match s with
  | EmptyString => s
  | String c1 rest1 =>
      if is_white_space c1 then skip_white_space rest1
      else
        match rest1 with
        | EmptyString => s
        | String c2 rest2 =>
            if is_white_space2 c1 c2 then skip_white_space rest2
            else
              match rest2 with
              | EmptyString => s
              | String c3 rest3 =>
                  if is_white_space3 c1 c2 c3 then skip_white_space rest3
                  else s
              end
        end
  end.

Definition digit_of (radix : Z) (c : ascii) : option Z :=
  let n := Z.of_nat (nat_of_ascii c) in
  let v :=
    if decide (48 ≤ n ≤ 57) then Some (n - 48)
    else if decide (97 ≤ n ≤ 122) then Some (n - 87)
    else if decide (65 ≤ n ≤ 90) then Some (n - 55)
    else None in
  v' ← v; if decide (v' < radix) then Some v' else None.

Fixpoint leading_digits (radix : Z) (s : string) (acc : option Z) : option Z :=
  match s with
  | String c rest =>
      match digit_of radix c with
      | Some d => leading_digits radix rest (Some (radix * default 0 acc + d))
      | None => acc
      end
  | EmptyString => acc
  end.

(** The number value of the integer [n ≥ 0] the digits denote: [n] itself
    up to 53 bits, else the nearest double, a tie going to the even one,
    and [Infinity] from 2^1024 on.  All the digits count, as in V8. *)
Definition number_value (n : Z) : Number :=
  let bits := Z.log2 n + 1 in
  if decide (bits ≤ 53) then JsInt n
  else
    let e := bits - 53 in
    let q := n ≫ e in
    let r := n `mod` 2 ^ e in
    let half := 2 ^ (e - 1) in
    let q' :=
      if decide (half < r ∨ (r = half ∧ Z.odd q = true)) then q + 1 else q in
    if decide (q' * 2 ^ e < 2 ^ 1024) then JsInt (q' * 2 ^ e)
    else JsInfinity false.

Definition with_sign (sign : Z) (v : Number) : Number :=
  match v with
  | JsNaN => JsNaN
  | JsInt n => JsInt (sign * n)
  | JsInfinity _ => JsInfinity (bool_decide (sign < 0))
  end.

(** [parseInt(s)] of JavaScript: white space is skipped, a sign is read,
    then the longest run of digits (hexadecimal after [0x]); what follows
    is ignored, and no digit at all gives [NaN]. *)
Definition parseInt_string (s : string) : Number :=
  let s1 := skip_white_space s in
  let '(sign, s2) :=
    match s1 with
    | String "-" rest => (-1, rest)
    | String "+" rest => (1, rest)
    | _ => (1, s1)
    end in
  let '(radix, s3) :=
    match s2 with
    | String "0" (String "x" rest) => (16, rest)
    | String "0" (String "X" rest) => (16, rest)
    | _ => (10, s2)
    end in
  match leading_digits radix s3 None with
  | Some n => with_sign sign (number_value n)
  | None => JsNaN
  end.

(** [parseInt(req.query.weeks as string)]; a missing parameter is
    [undefined], which does not parse. *)
Definition parseInt (v : option string) : Number :=
  match v with
  | Some s => parseInt_string s
  | None => JsNaN
  end.

(** [n || d] on a number: [NaN] and [0] are falsy. *)
Definition number_or (n : Number) (d : Z) : Number :=
  match n with
  | JsNaN => JsInt d
  | JsInt v => if decide (v = 0) then JsInt d else JsInt v
  | JsInfinity negative => JsInfinity negative
  end.

Definition ms_per_day : Z := 86400000.

(** The payload of the summary; [weeks] is the number handed to
    [res.json]. *)
Module Summary.
Record t : Type := mk {
  totalUses : nat;
  helpfulUses : nat;
  weeks : Number
}.
End Summary.

(** GET /api/circle/summary/:userId

    A user without sent deposits is answered by the early return.  For any
    other user the handler goes on to the query of the usages, whose filter
    is [sql`${sharedDepositUsage.sharedDepositId} = ANY(${depositIds})`].
    Drizzle writes an array bound in a [sql] template as a parenthesised
    list of parameters, [= ANY(($1, ..., $n))], and Postgres rejects that
    statement: it wants an array after [ANY], and finds a row, or with one
    id a text (a uuid) that is no array literal.  The statement throws and
    the [catch] of the handler answers 500.  [cutoffDate] is computed for
    that statement only, so it does not show in any reply. *)
Definition get_api_circle_summary_userId (db : Db) (userId : string)
    (weeksQuery : option string) : Reply Summary.t * Db :=
  let weeksBack := number_or (parseInt weeksQuery) 2 in
  let sentDeposits :=
    filter (λ d, SharedDeposit.senderId d = userId) (sharedDeposits db) in
  let depositIds := SharedDeposit.id <$> sentDeposits in
  if decide (length depositIds = 0%nat) then
    (Sent 200 (Summary.mk 0 0 weeksBack), db)
  else (Failed 500 "Failed to get summary", db).

(** The counts of the summary as the specification words them: the ledger
    rows whose shared deposit was sent by the user and whose [usedAt] is not
    before [now - weeksBack * 7 days], and those of them marked helpful. *)
Definition spec_sent_by (db : Db) (userId : string) (sharedDepositId : string)
  : Prop :=
  Exists (λ d, SharedDeposit.senderId d = userId
               ∧ SharedDeposit.id d = sharedDepositId)
         (sharedDeposits db).

Definition spec_counted (db : Db) (userId : string) (weeksBack : Z)
    (now : Timestamp) (u : SharedDepositUsage.t) : Prop :=
  spec_sent_by db userId (SharedDepositUsage.sharedDepositId u)
  ∧ now - weeksBack * 7 * ms_per_day ≤ SharedDepositUsage.usedAt u.

Definition spec_totalUses (db : Db) (userId : string) (weeksBack : Z)
    (now : Timestamp) : nat :=
  length (filter (spec_counted db userId weeksBack now)
                 (sharedDepositUsage db)).

Definition spec_helpfulUses (db : Db) (userId : string) (weeksBack : Z)
    (now : Timestamp) : nat :=
  length (filter (λ u, spec_counted db userId weeksBack now u
                       ∧ SharedDepositUsage.helpful u = Some true)
                 (sharedDepositUsage db)).

(** ** Vocabulary of the properties *)

(** The deposits [surface] may return: active and not excluded. *)
Definition eligible (db : Db) (excludeIds : list string) (d : Deposit.t) : Prop :=
  d ∈ deposits db ∧ Deposit.status d = 0 ∧ Deposit.id d ∉ excludeIds.

(** How an exclusion set reaches the route: the [exclude] parameter is
    missing when the set is empty, or it is a comma-separated list, each
    piece free of commas, whose pieces that are not empty are the ids of
    the set. *)
Definition carries (excludeParam : option string) (excludeIds : list string)
  : Prop :=
  (excludeParam = None ∧ excludeIds = [])
  ∨ ∃ pieces,
      Forall (λ piece, comma_free piece = true) pieces
      ∧ excludeParam = Some (join_comma pieces)
      ∧ excludeIds = filter (λ piece, piece ≠ EmptyString) pieces.

(** What PATCH /api/deposits/:id may change on a row: [content], [emotion]
    and [tags]; every other field keeps its value. *)
Definition same_but_content_emotion_tags (d d' : Deposit.t) : Prop :=
  Deposit.id d' = Deposit.id d
  ∧ Deposit.mediaUri d' = Deposit.mediaUri d
  ∧ Deposit.mediaType d' = Deposit.mediaType d
  ∧ Deposit.lastSurfacedAt d' = Deposit.lastSurfacedAt d
  ∧ Deposit.status d' = Deposit.status d
  ∧ Deposit.createdAt d' = Deposit.createdAt d.

(** A row from [a] to [b]. *)
Definition row_from_to (a b : string) (c : Connection.t) : Prop :=
  Connection.userId c = a ∧ Connection.connectedUserId c = b.

(** Between any two users the rows of the two directions both exist or
    both are missing. *)
Definition paired (db : Db) : Prop :=
  ∀ a b, (∃ c, c ∈ connections db ∧ row_from_to a b c)
         ↔ (∃ c, c ∈ connections db ∧ row_from_to b a c).

(** Requests to the two routes that write connections. *)
Inductive CircleRequest : Type :=
  | Accept (code : string) (userId : option string)
           (id1 : string) (now1 : Timestamp) (id2 : string) (now2 : Timestamp)
  | Remove (id : string) (userId : option string).

Definition handle_circle (db : Db) (req : CircleRequest) : Db :=
  match req with
  | Accept code userId id1 now1 id2 now2 =>
      snd (post_api_circle_invites_code_accept db code userId id1 now1 id2 now2)
  | Remove id userId => snd (delete_api_circle_connections_id db id userId)
  end.


(** ** Request bodies and database states of the examples *)

(** The body of a create request and of a set-status request. *)
Definition body_content (content : string) : Body :=
  {[ "content" := JStr content ]}.

Definition body_status (status : Z) : Body :=
  {[ "status" := JNum status ]}.

(** A create body and a share body in which the caller sets [status]. *)
Definition body_content_status (content : string) (status : Z) : Body :=
  {[ "content" := JStr content; "status" := JNum status ]}.

Definition body_share_status (senderId receiverId content : string)
    (status : Z) : Body :=
  {[ "senderId" := JStr senderId; "receiverId" := JStr receiverId;
     "content" := JStr content; "status" := JNum status ]}.

Definition body_share (senderId receiverId content : string) : Body :=
  {[ "senderId" := JStr senderId; "receiverId" := JStr receiverId;
     "content" := JStr content ]}.

(** The deposits of the scenario of the specification: D1 active, D2 in a
    five-day cooldown, D3 soft-deleted. *)
Definition scenario_db : Db :=
  handle_all empty_db
    [Create (body_content "first") "D1" 1000;
     Create (body_content "second") "D2" 2000;
     Create (body_content "third") "D3" 3000;
     SetStatus "D2" (body_status 5);
     SoftDelete "D3"].

Definition one_half : Random := mkRandom 1 2.

(** Ann's pending invite, before anybody accepts it. *)
Definition invited_db : Db :=
  with_circleInvites
    [CircleInvite.mk "i1" "ann" "link" None "abc123" "pending" 100 (Some 700)]
    empty_db.

(** Bob has accepted Ann's invite. *)
Definition circle_db : Db :=
  snd (post_api_circle_invites_code_accept invited_db
         "abc123" (Some "bob") "c1" 200 "c2" 201).

(** Ann has shared S1 with Bob, and Bob has used it and found it helpful. *)
Definition summary_db : Db :=
  snd (post_api_circle_shared_deposits_id_use
         (snd (post_api_circle_shared_deposits circle_db
                 (body_share "ann" "bob" "hello") "S1" 1000))
         "S1" (Some true) 5000 "u1").

(** ** Rainy-day logs and statistics *)

(** The table [rainyDayLogs] is kept beside [Db]: a list of rows that the
    log routes take and give back. *)
Module RainyDayLog.
Record t : Type := mk {
  id : string;
  emotion : string;
  depositId : option string;
  rating : option Z;
  feedbackNote : option string;
  createdAt : Timestamp
}.
End RainyDayLog.

Module InsertRainyDayLog.
Record t : Type := mk {
  emotion : string;
  depositId : option string;
  rating : option Z;
  feedbackNote : option string
}.
End InsertRainyDayLog.

Definition optional_nullable_integer (v : option Json) : option (option Z) :=
  match v with
  | None | Some JNull => Some None
  | Some (JNum n) => Some (Some n)
  | _ => None
  end.

(** [createInsertSchema(rainyDayLogs).omit({ id, createdAt })] *)
Definition insertRainyDayLogSchema_safeParse (body : Body)
  : option InsertRainyDayLog.t :=
  emotion ← required_text (body !! "emotion");
  depositId ← optional_text (body !! "depositId");
  rating ← optional_nullable_integer (body !! "rating");
  feedbackNote ← optional_text (body !! "feedbackNote");
  Some (InsertRainyDayLog.mk emotion depositId rating feedbackNote).

(** [depositId: varchar("deposit_id").references(() => deposits.id)]: a log
    row names no deposit or one that exists. *)
Definition references_deposits (db : Db) (depositId : option string) : bool :=
  match depositId with
  | None => true
  | Some id => bool_decide (Exists (λ d, Deposit.id d = id) (deposits db))
  end.

(** POST /api/rainy-day-logs; an insert that breaks the reference is
    rejected by the database and answered by the [catch] branch. *)
Definition post_api_rainy_day_logs (db : Db) (logs : list RainyDayLog.t)
    (body : Body) (newId : string) (now : Timestamp)
  : Reply RainyDayLog.t * list RainyDayLog.t :=
  match insertRainyDayLogSchema_safeParse body with
  | None => (Failed 400 "Invalid log data", logs)
  | Some data =>
      if references_deposits db (InsertRainyDayLog.depositId data) then
        let newLog :=
          RainyDayLog.mk newId (InsertRainyDayLog.emotion data)
                         (InsertRainyDayLog.depositId data)
                         (InsertRainyDayLog.rating data)
                         (InsertRainyDayLog.feedbackNote data) now in
        (Sent 201 newLog, (logs ++ [newLog])%list)
      else (Failed 500 "Failed to create rainy day log", logs)
  end.

(** The [{ rating, feedbackNote }] of the body of
    PATCH /api/rainy-day-logs/:id/feedback: [rating] is any JSON value, as
    the handler tests it; [feedbackNote] is missing, [null] or a text. *)
Module FeedbackBody.
Record t : Type := mk {
  rating : option Json;
  feedbackNote : option (option string)
}.
End FeedbackBody.

(** [rating !== undefined && (rating !== 2 && rating !== 1 && rating !== -1)] *)
Definition rating_refused (rating : option Json) : bool :=
  match rating with
  | None => false
  | Some (JNum n) =>
      bool_decide (n ≠ 2) && bool_decide (n ≠ 1) && bool_decide (n ≠ -1)
  | Some _ => true
  end.

(** The number a rating that was let through writes into the column. *)
Definition rating_value (rating : option Json) : option Z :=
  match rating with
  | Some (JNum n) => Some n
  | _ => None
  end.

(** [.set(updateData)] on a log row; a field that is [undefined] is not in
    [updateData]. *)
Definition set_feedback (body : FeedbackBody.t) (l : RainyDayLog.t)
  : RainyDayLog.t :=
  RainyDayLog.mk (RainyDayLog.id l) (RainyDayLog.emotion l)
                 (RainyDayLog.depositId l)
                 (match FeedbackBody.rating body with
                  | None => RainyDayLog.rating l
                  | Some _ => rating_value (FeedbackBody.rating body)
                  end)
                 (default (RainyDayLog.feedbackNote l)
                          (FeedbackBody.feedbackNote body))
                 (RainyDayLog.createdAt l).

Definition eq_rainyDayLogs_id (id : string) (l : RainyDayLog.t) : bool :=
  bool_decide (RainyDayLog.id l = id).

(** A body with neither field leaves [updateData] empty, and [.set({})]
    throws before any statement is sent. *)
Definition no_feedback (body : FeedbackBody.t) : bool :=
  match FeedbackBody.rating body, FeedbackBody.feedbackNote body with
  | None, None => true
  | _, _ => false
  end.

(** PATCH /api/rainy-day-logs/:id/feedback; what [.set] throws is caught by
    the handler and answered 500. *)
Definition patch_api_rainy_day_logs_id_feedback (logs : list RainyDayLog.t)
    (id : string) (body : FeedbackBody.t)
  : Reply RainyDayLog.t * list RainyDayLog.t :=
  if rating_refused (FeedbackBody.rating body) then
    (Failed 400 "Rating must be 2 (loved it), 1 (helpful), or -1 (not helpful)",
     logs)
  else if no_feedback body then (Failed 500 "Failed to update feedback", logs)
  else
    let updated :=
      returning (eq_rainyDayLogs_id id) (set_feedback body) logs in
    let logs' := update_where (eq_rainyDayLogs_id id) (set_feedback body) logs in
    match head updated with
    | None => (Failed 404 "Log not found", logs')
    | Some row => (Sent 200 row, logs')
    end.

Module Stats.
Record t : Type := mk {
  totalDeposits : nat;
  activeDeposits : nat;
  cooldownDeposits : nat;
  totalRainyDays : nat;
  connections : nat
}.
End Stats.

(** GET /api/stats *)
Definition get_api_stats (db : Db) (logs : list RainyDayLog.t) : Reply Stats.t :=
  let allDeposits := filter (λ d, Deposit.status d ≠ -1) (deposits db) in
  let allLogs := logs in
  let activeDeposits := filter (λ d, Deposit.status d = 0) allDeposits in
  let cooldownDeposits := filter (λ d, 0 < Deposit.status d) allDeposits in
  Sent 200 (Stats.mk (length allDeposits) (length activeDeposits)
                     (length cooldownDeposits) (length allLogs) 0).

(** The ratings the feedback route writes. *)
Definition rating_in_scale (rating : option Z) : Prop :=
  rating = None ∨ rating = Some 2 ∨ rating = Some 1 ∨ rating = Some (-1).

(** The fields no deposit route writes after the insert. *)
Definition fixed_fields (d : Deposit.t)
  : string * Timestamp * option string * option string :=
  (Deposit.id d, Deposit.createdAt d, Deposit.mediaUri d, Deposit.mediaType d).

(** The fixed fields of the row a request creates: a create whose body
    passes the validation creates one row, no other request any. *)
Definition created_fields (req : Request)
  : list (string * Timestamp * option string * option string) :=
  match req with
  | Create body newId now =>
      match insertDepositSchema_safeParse body with
      | Some data =>
          [(newId, now, InsertDeposit.mediaUri data,
            InsertDeposit.mediaType data)]
      | None => []
      end
  | _ => []
  end.

(** Two feedback bodies sent one after the other, as one: the later one
    wins field by field. *)
Definition later_feedback (first second : FeedbackBody.t) : FeedbackBody.t :=
  FeedbackBody.mk
    (match FeedbackBody.rating second with
     | Some r => Some r
     | None => FeedbackBody.rating first
     end)
    (match FeedbackBody.feedbackNote second with
     | Some n => Some n
     | None => FeedbackBody.feedbackNote first
     end).

(** What the feedback route leaves alone on a log row. *)
Definition same_log_but_feedback (l l' : RainyDayLog.t) : Prop :=
  RainyDayLog.id l' = RainyDayLog.id l
  ∧ RainyDayLog.emotion l' = RainyDayLog.emotion l
  ∧ RainyDayLog.depositId l' = RainyDayLog.depositId l
  ∧ RainyDayLog.createdAt l' = RainyDayLog.createdAt l.

Definition logs_example : list RainyDayLog.t :=
  [RainyDayLog.mk "L1" "Sad" (Some "D1") None None 4000;
   RainyDayLog.mk "L2" "Tired" None (Some 1) None 5000].

(** ** Users, invites and the Circle listing *)

(** The table [users] is kept beside [Db], like the log table. *)
Module User.
Record t : Type := mk {
  id : string;
  username : string;
  password : string;
  displayName : option string;
  email : option string;
  phone : option string;
  summaryFrequencyWeeks : option Z;
  lastSummarySentAt : option Timestamp
}.
End User.

(** A string of the body as a JavaScript condition: missing and empty are
    falsy. *)
Definition truthy (v : option string) : bool :=
  match v with
  | None | Some EmptyString => false
  | Some _ => true
  end.

(** [v || null] *)
Definition or_null (v : option string) : option string :=
  if truthy v then v else None.

(** [if (v) updateData.field = v] *)
Definition set_if_truthy (v : option string) (old : option string)
  : option string :=
  if truthy v then v else old.

Definition set_user_info (displayName email phone : option string)
    (u : User.t) : User.t :=
  User.mk (User.id u) (User.username u) (User.password u)
          (set_if_truthy displayName (User.displayName u))
          (set_if_truthy email (User.email u))
          (set_if_truthy phone (User.phone u))
          (User.summaryFrequencyWeeks u) (User.lastSummarySentAt u).

(** POST /api/users/current.  [newId] is the id the database draws and
    [password] the hex of [crypto.randomBytes(32)], both used only when a
    user is created. *)
Definition post_api_users_current (users : list User.t)
    (deviceId displayName email phone : option string)
    (newId password : string) : Reply User.t * list User.t :=
  match deviceId with
  | None | Some EmptyString => (Failed 400 "Device ID required", users)
  | Some deviceId =>
      match head (filter (λ u, User.username u = deviceId) users) with
      | Some existingUser =>
          if truthy displayName || truthy email || truthy phone then
            let matches :=
              λ u, bool_decide (User.id u = User.id existingUser) in
            let updated :=
              returning matches (set_user_info displayName email phone) users in
            let users' :=
              update_where matches (set_user_info displayName email phone)
                           users in
            match head updated with
            | Some row => (Sent 200 row, users')
            | None => (Failed 500 "Failed to get/create user", users')
            end
          else (Sent 200 existingUser, users)
      | None =>
          let newUser :=
            User.mk newId deviceId password (or_null displayName)
                    (or_null email) (or_null phone) (Some 2) None in
          (Sent 201 newUser, (users ++ [newUser])%list)
      end
  end.

Definition ms_per_week : Z := 7 * ms_per_day.

(** [inviteCode: varchar("invite_code").notNull().unique()] *)
Definition inviteCode_taken (db : Db) (inviteCode : string) : bool :=
  bool_decide (Exists (λ i, CircleInvite.inviteCode i = inviteCode)
                      (circleInvites db)).

(** [senderId: varchar("sender_id").references(() => users.id)] *)
Definition references_users (users : list User.t) (senderId : string) : bool :=
  bool_decide (senderId ∈ User.id <$> users).

(** POST /api/circle/invites.  [inviteCode] is the hex of
    [crypto.randomBytes(6)]; the invite expires seven days after [now]
    ([expiresAt.setDate(expiresAt.getDate() + 7)], for a clock without
    daylight saving shifts).  An insert for a sender that is no user, or
    of a code that is taken, is rejected by the database, which the
    [catch] of the handler answers 500. *)
Definition post_api_circle_invites (db : Db) (users : list User.t)
    (senderId inviteType inviteValue : option string)
    (inviteCode newId : string) (now : Timestamp)
  : Reply CircleInvite.t * Db :=
  match senderId, inviteType with
  | Some (String c1 s1), Some (String c2 s2) =>
      let expiresAt := now + ms_per_week in
      if negb (references_users users (String c1 s1))
         || inviteCode_taken db inviteCode then
        (Failed 500 "Failed to create invite", db)
      else
        let invite :=
          CircleInvite.mk newId (String c1 s1) (String c2 s2)
                          (or_null inviteValue) inviteCode "pending" now
                          (Some expiresAt) in
        (Sent 201 invite,
         with_circleInvites (circleInvites db ++ [invite]) db)
  | _, _ => (Failed 400 "Sender ID and invite type required", db)
  end.

(** [db.select({ id: users.id, displayName: users.displayName })] of the
    first user with the given id. *)
Definition user_card (users : list User.t) (id : string)
  : option (string * option string) :=
  (λ u, (User.id u, User.displayName u))
    <$> head (filter (λ u, User.id u = id) users).

(** GET /api/circle/invites/:code; the payload is [{ ...invite, sender }]. *)
Definition get_api_circle_invites_code (db : Db) (users : list User.t)
    (code : string) (now : Timestamp)
  : Reply (CircleInvite.t * option (string * option string)) * Db :=
  match head (filter (λ i, CircleInvite.inviteCode i = code)
                     (circleInvites db)) with
  | None => (Failed 404 "Invite not found", db)
  | Some invite =>
      if decide (CircleInvite.status invite ≠ "pending") then
        (Failed 400 "Invite already used or expired", db)
      else
        match CircleInvite.expiresAt invite with
        | Some expiresAt =>
            if decide (expiresAt < now) then
              (Failed 400 "Invite expired",
               with_circleInvites
                 (update_where
                    (λ i, bool_decide (CircleInvite.id i = CircleInvite.id invite))
                    (set_invite_status "expired") (circleInvites db))
                 db)
            else
              (Sent 200 (invite, user_card users (CircleInvite.senderId invite)),
               db)
        | None =>
            (Sent 200 (invite, user_card users (CircleInvite.senderId invite)),
             db)
        end
  end.

(** One entry of the Circle listing: the selected columns of the
    connection and the card of the connected user. *)
Module CircleEntry.
Record t : Type := mk {
  id : string;
  connectedUserId : string;
  status : string;
  createdAt : Timestamp;
  acceptedAt : option Timestamp;
  connectedUser : option (string * option string)
}.
End CircleEntry.

(** GET /api/circle/connections/:userId *)
Definition get_api_circle_connections_userId (db : Db) (users : list User.t)
    (userId : string) : Reply (list CircleEntry.t) :=
  let userConnections :=
    filter (λ c, Connection.userId c = userId
                 ∧ Connection.status c = "accepted")
           (connections db) in
  let connectionsWithUsers :=
    (λ conn,
       CircleEntry.mk (Connection.id conn) (Connection.connectedUserId conn)
                      (Connection.status conn) (Connection.createdAt conn)
                      (Connection.acceptedAt conn)
                      (user_card users (Connection.connectedUserId conn)))
      <$> userConnections in
  Sent 200 connectionsWithUsers.

(** The users a Circle listing names. *)
Definition circle_of (db : Db) (users : list User.t) (userId : string)
  : list string :=
  match get_api_circle_connections_userId db users userId with
  | Sent _ entries => CircleEntry.connectedUserId <$> entries
  | Failed _ _ => []
  end.

(** Every connection row is an accepted one. *)
Definition all_accepted (db : Db) : Prop :=
  Forall (λ c, Connection.status c = "accepted") (connections db).

(** No row connects a user to themselves, and no two rows connect the same
    user to the same user. *)
Definition no_self_connection (db : Db) : Prop :=
  Forall (λ c, Connection.userId c ≠ Connection.connectedUserId c)
         (connections db).

Definition ends (c : Connection.t) : string * string :=
  (Connection.userId c, Connection.connectedUserId c).

Definition one_row_per_direction (db : Db) : Prop :=
  NoDup (ends <$> connections db).

(** ** Shared deposits of a receiver *)

Definition newer_shared_first (a b : SharedDeposit.t) : Prop :=
  SharedDeposit.createdAt b ≤ SharedDeposit.createdAt a.

Global Instance newer_shared_first_dec a b : Decision (newer_shared_first a b) :=
  decide (SharedDeposit.createdAt b ≤ SharedDeposit.createdAt a).

(** [.orderBy(desc(sharedDeposits.createdAt))] *)
Definition orderBy_desc_shared_createdAt (rows : list SharedDeposit.t)
  : list SharedDeposit.t :=
  merge_sort newer_shared_first rows.

(** GET /api/circle/shared-deposits/received/:userId *)
Definition get_api_circle_shared_deposits_received (db : Db) (userId : string)
    (includeInactiveQuery : option string) : Reply (list SharedDeposit.t) :=
  let includeInactive := bool_decide (includeInactiveQuery = Some "true") in
  let received :=
    if includeInactive
    then orderBy_desc_shared_createdAt
           (filter (λ d, SharedDeposit.receiverId d = userId)
                   (sharedDeposits db))
    else orderBy_desc_shared_createdAt
           (filter (λ d, SharedDeposit.receiverId d = userId
                         ∧ SharedDeposit.status d ≠ -1)
                   (sharedDeposits db)) in
  Sent 200 received.

(** GET /api/circle/shared-deposits/sent/:userId *)
Definition get_api_circle_shared_deposits_sent (db : Db) (userId : string)
  : Reply (list SharedDeposit.t) :=
  let sent :=
    orderBy_desc_shared_createdAt
      (filter (λ d, SharedDeposit.senderId d = userId) (sharedDeposits db)) in
  Sent 200 sent.

(** GET /api/circle/shared-deposits/surface/:userId *)
Definition get_api_circle_shared_deposits_surface (db : Db) (userId : string)
    (random : Random) : Reply (option SharedDeposit.t) :=
  let eligibleShared :=
    filter (λ d, SharedDeposit.receiverId d = userId
                 ∧ SharedDeposit.status d = 0)
           (sharedDeposits db) in
  if decide (length eligibleShared = 0%nat)
  then Sent 200 None
  else Sent 200 (js_index eligibleShared
                          (floor_scaled random (length eligibleShared))).

Definition users_example : list User.t :=
  [User.mk "ann" "device-ann" "secret" (Some "Ann") None None (Some 2) None].

(** The invite the routes find for a code: the first row that carries it. *)
Definition invite_of_code (db : Db) (code : string) : option CircleInvite.t :=
  head (filter (λ i, CircleInvite.inviteCode i = code) (circleInvites db)).

(** Requests to the two routes that write shared deposits. *)
Inductive SharedRequest : Type :=
  | Share (body : Body) (newId : string) (now : Timestamp)
  | Use (id : string) (helpful : option bool) (now : Timestamp)
        (usageId : string).

Definition handle_shared (db : Db) (req : SharedRequest) : Db :=
  match req with
  | Share body newId now =>
      snd (post_api_circle_shared_deposits db body newId now)
  | Use id helpful now usageId =>
      snd (post_api_circle_shared_deposits_id_use db id helpful now usageId)
  end.

(** The statuses the routes give a shared deposit: active, or the
    thirty-day cooldown. *)
Definition shared_statuses_0_or_30 (db : Db) : Prop :=
  Forall (λ d, SharedDeposit.status d = 0 ∨ SharedDeposit.status d = 30)
         (sharedDeposits db).

(** Every ledger row names a shared deposit that exists. *)
Definition ledger_refers (db : Db) : Prop :=
  Forall (λ u, Exists (λ d, SharedDeposit.id d
                            = SharedDepositUsage.sharedDepositId u)
                      (sharedDeposits db))
         (sharedDepositUsage db).

(** A shared deposit the receiver may be shown. *)
Definition eligible_shared (db : Db) (userId : string) (d : SharedDeposit.t)
  : Prop :=
  d ∈ sharedDeposits db
  ∧ SharedDeposit.receiverId d = userId
  ∧ SharedDeposit.status d = 0.

(** Ann has shared S1 with Bob; Bob has not used it yet. *)
Definition shared_db : Db :=
  snd (post_api_circle_shared_deposits circle_db
         (body_share "ann" "bob" "hello") "S1" 1000).

(** ** The status dialog of the client (HistoryScreen) *)

(** [parseInt(s, 10)]: white space and sign as for [parseInt], then the
    digits read in base ten whatever the text starts with.  The value is
    kept exact; beyond 2^53 JavaScript rounds it, to a number that is still
    at least 1 and that the integer column refuses just the same. *)
Definition parseInt_10 (s : string) : option Z :=
  let s1 := skip_white_space s in
  let '(sign, s2) :=
    match s1 with
    | String "-" rest => (-1, rest)
    | String "+" rest => (1, rest)
    | _ => (1, s1)
    end in
  (λ n, sign * n) <$> leading_digits 10 s2 None.

(** What the user does in [StatusModal]: types a number of days and sets
    the cooldown, makes the moment active, or makes it inactive and
    confirms or cancels. *)
Inductive StatusAction : Type :=
  | SetCooldown (cooldownDays : string)
  | MakeActive
  | MakeInactive (confirmed : bool).

(** [handleSetCooldown], [handleMakeActive] and [handleMakeInactive]: the
    arguments of [onUpdateStatus], or [None] when it is not called.
    [memory] is the id of the selected moment, if one is selected. *)
Definition statusModal_onUpdateStatus (memory : option string)
    (action : StatusAction) : option (string * Z) :=
  match memory with
  | None => None
  | Some id =>
      match action with
      | SetCooldown cooldownDays =>
          match parseInt_10 cooldownDays with
          | None => None
          | Some days => if decide (days < 1) then None else Some (id, days)
          end
      | MakeActive => Some (id, 0)
      | MakeInactive confirmed => if confirmed then Some (id, -1) else None
      end
  end.

(** [handleUpdateStatus]: the request
    [PATCH /api/deposits/${id}/status { status }]. *)
Definition handleUpdateStatus (id : string) (status : Z) : Request :=
  SetStatus id (body_status status).

(** The requests a run of the dialog sends. *)
Definition statusModal_requests (run : list (option string * StatusAction))
  : list Request :=
  omap (λ '(memory, action),
          (λ '(id, status), handleUpdateStatus id status)
            <$> statusModal_onUpdateStatus memory action)
       run.

(** ** The rainy-day session of the client (RainyDayScreen, PlaybackScreen)

    The server of the session is the database and the log table.  The
    requests go through [apiRequest], which is not among the sources; a
    reply that is not a success is taken to throw, which each handler
    catches. *)
Abbreviation Server := (Db * list RainyDayLog.t)%type.

(** The route parameters of the Playback screen; of [memory], which the
    screen only displays, the id is kept. *)
Module Session.
Record t : Type := mk {
  memory : string;
  emotion : string;
  logId : option string;
  sessionTarget : Z;
  sessionShown : Z;
  sessionThumbsUp : Z;
  excludeIds : list string
}.
End Session.

(** What the runtime supplies to one round: the draw of the surface
    route, the clock of the cooldown, the id and the clock of the log
    row. *)
Record Round : Type := mkRound {
  round_random : Random;
  round_now : Timestamp;
  round_logId : string;
  round_logNow : Timestamp
}.

(** Why a handler leaves the session. *)
Inductive Exit : Type :=
  | NotStarted
  | NoDeposits
  | Completed
  | RanOut
  | Caught
  | Closed.

(** Where the user is: on the Playback screen, with its route parameters
    and its [rating] state, or out of the session. *)
Inductive Screen : Type :=
  | Playback (params : Session.t) (rating : option Z)
  | Left (why : Exit).

(** [{ emotion, depositId }] *)
Definition body_log (emotion : string) (depositId : option string) : Body :=
  {[ "emotion" := JStr emotion;
     "depositId" := match depositId with
                    | Some id => JStr id
                    | None => JNull
                    end ]}.

(** The lines [handleFindJoy] and [advanceOrExit] share once a deposit has
    come back: the cooldown is requested, then the log row. *)
Definition mark_and_log (st : Server) (emotion : string) (deposit : Deposit.t)
    (env : Round) : Server * option RainyDayLog.t :=
  match patch_api_deposits_id_surface (fst st) (Deposit.id deposit)
                                      (round_now env) with
  | (Failed _ _, db1) => ((db1, snd st), None)
  | (Sent _ _, db1) =>
      match post_api_rainy_day_logs db1 (snd st)
                                    (body_log emotion (Some (Deposit.id deposit)))
                                    (round_logId env) (round_logNow env) with
      | (Failed _ _, logs1) => ((db1, logs1), None)
      | (Sent _ log, logs1) => ((db1, logs1), Some log)
      end
  end.

(** [handleFindJoy] of RainyDayScreen.  [emotion] is
    [selectedEmotion || customEmotion.trim()] and [sessionTarget] the
    [rainyDayMomentCount] of the settings. *)
Definition handleFindJoy (st : Server) (emotion : string) (sessionTarget : Z)
    (env : Round) : Server * Screen :=
  if decide (emotion = EmptyString) then (st, Left NotStarted)
  else
    match get_api_deposits_surface (fst st) None (round_random env) with
    | (Failed _ _, db1) => ((db1, snd st), Left Caught)
    | (Sent _ None, db1) =>
        let logs1 :=
          snd (post_api_rainy_day_logs db1 (snd st) (body_log emotion None)
                                       (round_logId env) (round_logNow env)) in
        ((db1, logs1), Left NoDeposits)
    | (Sent _ (Some deposit), db1) =>
        match mark_and_log (db1, snd st) emotion deposit env with
        | (st1, None) => (st1, Left Caught)
        | (st1, Some log) =>
            (st1,
             Playback
               (Session.mk (Deposit.id deposit) emotion
                           (Some (RainyDayLog.id log)) sessionTarget 1 0
                           [Deposit.id deposit])
               None)
        end
    end.

(** [advanceOrExit] of PlaybackScreen *)
Definition advanceOrExit (st : Server) (params : Session.t)
    (updatedThumbsUp : Z) (env : Round) : Server * Screen :=
  let isComplete :=
    bool_decide (Session.sessionTarget params ≤ Session.sessionShown params)
    && bool_decide (0 < updatedThumbsUp) in
  if isComplete then (st, Left Completed)
  else
    let newExcludeIds :=
      (Session.excludeIds params ++ [Session.memory params])%list in
    let excludeParam := join_comma newExcludeIds in
    match get_api_deposits_surface (fst st) (Some excludeParam)
                                   (round_random env) with
    | (Failed _ _, db1) => ((db1, snd st), Left Caught)
    | (Sent _ None, db1) => ((db1, snd st), Left RanOut)
    | (Sent _ (Some deposit), db1) =>
        match mark_and_log (db1, snd st) (Session.emotion params) deposit env
        with
        | (st1, None) => (st1, Left Caught)
        | (st1, Some log) =>
            (st1,
             Playback
               (Session.mk (Deposit.id deposit) (Session.emotion params)
                           (Some (RainyDayLog.id log))
                           (Session.sessionTarget params)
                           (Session.sessionShown params + 1)
                           updatedThumbsUp newExcludeIds)
               None)
        end
    end.

(** The feedback request of the handlers; an error of the request is
    caught and the handler goes on. *)
Definition send_feedback (st : Server) (logId : string) (body : FeedbackBody.t)
  : Server :=
  (fst st, snd (patch_api_rainy_day_logs_id_feedback (snd st) logId body)).

(** [handleRating(value)] *)
Definition handleRating (st : Server) (params : Session.t) (value : Z)
    (env : Round) : Server * Screen :=
  let st1 :=
    if truthy (Session.logId params)
    then send_feedback st (default EmptyString (Session.logId params))
                       (FeedbackBody.mk (Some (JNum value)) None)
    else st in
  if decide (0 < value)
  then advanceOrExit st1 params (Session.sessionThumbsUp params + 1) env
  else (st1, Playback params (Some value)).

(** [handleSubmitFeedback]; [feedbackNote] is the text of the note, trimmed. *)
Definition handleSubmitFeedback (st : Server) (params : Session.t)
    (rating : option Z) (feedbackNote : string) (env : Round)
  : Server * Screen :=
  if negb (truthy (Session.logId params)) || negb (truthy (Some feedbackNote))
  then (st, Playback params rating)
  else
    let st1 :=
      send_feedback st (default EmptyString (Session.logId params))
                    (FeedbackBody.mk None (Some (Some feedbackNote))) in
    advanceOrExit st1 params (Session.sessionThumbsUp params) env.

(** [handleSkipFeedback] *)
Definition handleSkipFeedback (st : Server) (params : Session.t) (env : Round)
  : Server * Screen :=
  advanceOrExit st params (Session.sessionThumbsUp params) env.

(** What the user presses on the Playback screen.  The three rating
    buttons are disabled once a rating is set; the note and its two buttons
    are shown when the rating is -1. *)
Inductive Press : Type :=
  | PressLoved
  | PressHelpful
  | PressNotHelpful
  | PressSubmit (feedbackNote : string)
  | PressSkip
  | PressClose.

Definition press (st : Server) (screen : Screen) (p : Press) (env : Round)
  : Server * Screen :=
  match screen with
  | Left _ => (st, screen)
  | Playback params rating =>
      match p, rating with
      | PressLoved, None => handleRating st params 2 env
      | PressHelpful, None => handleRating st params 1 env
      | PressNotHelpful, None => handleRating st params (-1) env
      | PressSubmit feedbackNote, Some (-1) =>
          handleSubmitFeedback st params rating feedbackNote env
      | PressSkip, Some (-1) => handleSkipFeedback st params env
      | PressClose, _ => (st, Left Closed)
      | _, _ => (st, screen)
      end
  end.

(** A session: [handleFindJoy], then the presses of the user. *)
Definition play_on (start : Server * Screen) (presses : list (Press * Round))
  : Server * Screen :=
  foldl (λ '(st, screen) '(p, env), press st screen p env) start presses.

Definition play (st : Server) (emotion : string) (sessionTarget : Z)
    (env : Round) (presses : list (Press * Round)) : Server * Screen :=
  play_on (handleFindJoy st emotion sessionTarget env) presses.

(** The deposits a session has shown so far, the one on screen last. *)
Definition shown_ids (params : Session.t) : list string :=
  (tail (Session.excludeIds params) ++ [Session.memory params])%list.

(** The deposits that can be surfaced. *)
Definition active_count (db : Db) : nat :=
  length (filter (λ d, Deposit.status d = 0) (deposits db)).

(** The database after the cooldown of the deposits of one id. *)
Definition marked (db : Db) (id : string) (now : Timestamp) : Db :=
  with_deposits
    (update_where (eq_deposits_id id) (set_lastSurfacedAt_status now 30)
                  (deposits db))
    db.

(** The log row a round writes for the deposit it shows. *)
Definition round_log (emotion id : string) (env : Round) : RainyDayLog.t :=
  RainyDayLog.mk (round_logId env) emotion (Some id) None None
                 (round_logNow env).

(** What holds of a session on the Playback screen; [budget] is the number
    of active deposits when the session began. *)
Definition session_ok (budget : nat) (st : Server) (params : Session.t) : Prop :=
  Session.excludeIds params ≠ []
  ∧ NoDup (shown_ids params)
  ∧ Session.sessionShown params = Z.of_nat (length (shown_ids params))
  ∧ (∀ id, id ∈ Session.excludeIds params → id ∈ shown_ids params)
  ∧ (∀ d, d ∈ deposits (fst st) → Deposit.id d ∈ shown_ids params →
          Deposit.status d = 30)
  ∧ (length (shown_ids params) + active_count (fst st) ≤ budget)%nat
  ∧ (0 ≤ Session.sessionThumbsUp params < Session.sessionShown params)
  ∧ (∃ l, l ∈ snd st
          ∧ Session.logId params = Some (RainyDayLog.id l)
          ∧ RainyDayLog.depositId l = Some (Session.memory params)
          ∧ RainyDayLog.emotion l = Session.emotion params).

Definition screen_ok (budget : nat) (st : Server) (screen : Screen) : Prop :=
  match screen with
  | Playback params _ => session_ok budget st params
  | Left Caught => False
  | Left _ => True
  end.

Definition positive_press (p : Press) : Prop :=
  p = PressLoved ∨ p = PressHelpful.

Definition round_example : Round := mkRound one_half 5000 "L1" 5001.

(** Two deposits, both active. *)
Definition two_active_db : Db :=
  handle_all empty_db
    [Create (body_content "first") "D1" 1000;
     Create (body_content "second") "D2" 2000].

(** No positive rating has been given in the session so far. *)
Definition no_thumbs_up (screen : Screen) : Prop :=
  match screen with
  | Playback params _ => Session.sessionThumbsUp params = 0
  | Left Completed => False
  | Left _ => True
  end.

(** Every deposit id is one the [exclude] parameter can carry. *)
Definition plain_ids (db : Db) : Prop :=
  Forall (λ d, plain_id (Deposit.id d)) (deposits db).

(** A session that stopped for lack of deposits left none active. *)
Definition screen_drained (budget : nat) (st : Server) (screen : Screen)
  : Prop :=
  plain_ids (fst st)
  ∧ match screen with
    | Playback params _ =>
        session_ok budget st params ∧ Forall plain_id (shown_ids params)
    | Left NoDeposits | Left RanOut => active_count (fst st) = 0%nat
    | Left _ => True
    end.

(** * The local store

    [client/lib/storage.ts] keeps the memories and the settings of the device
    in two AsyncStorage items, each the JSON text of a value.  An item is
    modelled by the value it holds, [None] while it was never written:
    [JSON.parse] gives back what [JSON.stringify] wrote.  The ISO strings of
    [createdAt] and [lastSurfacedAt] are modelled by the milliseconds they
    denote, which [toISOString] and [new Date] carry over unchanged.  The
    settings item holds what [saveSettings] wrote, a full settings object,
    so that laying it over the defaults returns it. *)

Inductive MemoryType : Type := Photo | Video | Audio.

Module Memory.
Record t : Type := mk {
  id : string;
  content : string;
  emotion : option string;
  mediaUri : option string;
  mediaType : option MemoryType;
  createdAt : Z;
  tags : list string;
  lastSurfacedAt : option Z;
  status : option Z
}.
End Memory.

(** [Omit<Memory, "id" | "createdAt">], the argument of [saveMemory]. *)
Module NewMemory.
Record t : Type := mk {
  content : string;
  emotion : option string;
  mediaUri : option string;
  mediaType : option MemoryType;
  tags : list string;
  lastSurfacedAt : option Z;
  status : option Z
}.
End NewMemory.

(** [Partial<Memory>]: a field is absent, [None], or carries the new value;
    the new value of an optional field may be [undefined]. *)
Module MemoryUpdates.
Record t : Type := mk {
  id : option string;
  content : option string;
  emotion : option (option string);
  mediaUri : option (option string);
  mediaType : option (option MemoryType);
  createdAt : option Z;
  tags : option (list string);
  lastSurfacedAt : option (option Z);
  status : option (option Z)
}.
End MemoryUpdates.

Module UserSettings.
Record t : Type := mk {
  displayName : string;
  avatarUri : option string;
  resurfaceIntervalDays : Z;
  dailyBoostReminder : bool;
  summaryFrequencyWeeks : Z;
  rainyDayMomentCount : Z
}.
End UserSettings.

Module SettingsUpdates.
Record t : Type := mk {
  displayName : option string;
  avatarUri : option (option string);
  resurfaceIntervalDays : option Z;
  dailyBoostReminder : option bool;
  summaryFrequencyWeeks : option Z;
  rainyDayMomentCount : option Z
}.
End SettingsUpdates.

(** The two AsyncStorage items, under [MEMORIES_KEY] and [SETTINGS_KEY]. *)
Record Storage : Type := mkStorage {
  memories_item : option (list Memory.t);
  settings_item : option UserSettings.t
}.

Definition defaultSettings : UserSettings.t :=
  UserSettings.mk "" None 30 false 2 1.

(** One field of an object spread [{ ...old, ...updates }]. *)
Definition spread_field {A : Type} (old : A) (new : option A) : A :=
  match new with
  | Some v => v
  | None => old
  end.

Definition spread_memory (m : Memory.t) (updates : MemoryUpdates.t)
  : Memory.t :=
  Memory.mk
    (spread_field (Memory.id m) (MemoryUpdates.id updates))
    (spread_field (Memory.content m) (MemoryUpdates.content updates))
    (spread_field (Memory.emotion m) (MemoryUpdates.emotion updates))
    (spread_field (Memory.mediaUri m) (MemoryUpdates.mediaUri updates))
    (spread_field (Memory.mediaType m) (MemoryUpdates.mediaType updates))
    (spread_field (Memory.createdAt m) (MemoryUpdates.createdAt updates))
    (spread_field (Memory.tags m) (MemoryUpdates.tags updates))
    (spread_field (Memory.lastSurfacedAt m)
                  (MemoryUpdates.lastSurfacedAt updates))
    (spread_field (Memory.status m) (MemoryUpdates.status updates)).

Definition spread_settings (s : UserSettings.t) (updates : SettingsUpdates.t)
  : UserSettings.t :=
  UserSettings.mk
    (spread_field (UserSettings.displayName s)
                  (SettingsUpdates.displayName updates))
    (spread_field (UserSettings.avatarUri s)
                  (SettingsUpdates.avatarUri updates))
    (spread_field (UserSettings.resurfaceIntervalDays s)
                  (SettingsUpdates.resurfaceIntervalDays updates))
    (spread_field (UserSettings.dailyBoostReminder s)
                  (SettingsUpdates.dailyBoostReminder updates))
    (spread_field (UserSettings.summaryFrequencyWeeks s)
                  (SettingsUpdates.summaryFrequencyWeeks updates))
    (spread_field (UserSettings.rainyDayMomentCount s)
                  (SettingsUpdates.rainyDayMomentCount updates)).

(** [getMemories]: the stored list, the empty list while nothing is
    stored. *)
Definition getMemories (store : Storage) : list Memory.t :=
  match memories_item store with
  | Some data => data
  | None => []
  end.

Definition setMemories (store : Storage) (memories : list Memory.t)
  : Storage :=
  mkStorage (Some memories) (settings_item store).

(** [saveMemory]: the new memory gets its id and creation time and goes to
    the front of the list. *)
Definition saveMemory (store : Storage) (memory : NewMemory.t)
    (newId : string) (now : Z) : Storage * Memory.t :=
  let memories := getMemories store in
  let newMemory :=
    Memory.mk newId (NewMemory.content memory) (NewMemory.emotion memory)
              (NewMemory.mediaUri memory) (NewMemory.mediaType memory) now
              (NewMemory.tags memory) (NewMemory.lastSurfacedAt memory)
              (NewMemory.status memory) in
  (setMemories store (newMemory :: memories), newMemory).

Definition has_id (id : string) (m : Memory.t) : Prop := Memory.id m = id.

#[global] Instance has_id_dec id m : Decision (has_id id m).
Proof. unfold has_id. apply _. Defined.

(** [updateMemory]: the first memory with the id is overlaid with the
    updates; [null], and nothing written, when there is none. *)
Definition updateMemory (store : Storage) (id : string)
    (updates : MemoryUpdates.t) : Storage * option Memory.t :=
  let memories := getMemories store in
  match list_find (has_id id) memories with
  | None => (store, None)
  | Some (index, m) =>
      let updated := spread_memory m updates in
      (setMemories store (<[index := updated]> memories), Some updated)
  end.

(** [deleteMemory]: every memory with the id goes; [false], and nothing
    written, when the filter took nothing out. *)
Definition deleteMemory (store : Storage) (id : string) : Storage * bool :=
  let memories := getMemories store in
  let filtered := filter (λ m, Memory.id m ≠ id) memories in
  if decide (length filtered = length memories) then (store, false)
  else (setMemories store filtered, true).

Definition getSettings (store : Storage) : UserSettings.t :=
  match settings_item store with
  | Some data => data
  | None => defaultSettings
  end.

Definition saveSettings (store : Storage) (settings : SettingsUpdates.t)
  : Storage * UserSettings.t :=
  let current := getSettings store in
  let updated := spread_settings current settings in
  (mkStorage (memories_item store) (Some updated), updated).

Definition intervalMs (store : Storage) : Z :=
  UserSettings.resurfaceIntervalDays (getSettings store) * 24 * 60 * 60 * 1000.

(** The filter of [getEligibleMemoryForSurfacing]: never surfaced, or
    surfaced at least the interval ago. *)
Definition due (interval now : Z) (memory : Memory.t) : Prop :=
  match Memory.lastSurfacedAt memory with
  | None => True
  | Some lastSurfaced => interval ≤ now - lastSurfaced
  end.

#[global] Instance due_dec interval now memory
  : Decision (due interval now memory).
Proof. unfold due. destruct (Memory.lastSurfacedAt memory); apply _. Defined.

(** [getEligibleMemoryForSurfacing], with the clock and the draw of
    [Math.random()] as arguments. *)
Definition getEligibleMemoryForSurfacing (store : Storage) (now : Z)
    (random : Random) : option Memory.t :=
  let memories := getMemories store in
  if decide (length memories = 0%nat) then None
  else
    let eligible := filter (due (intervalMs store) now) memories in
    if decide (length eligible = 0%nat)
    then js_index memories (floor_scaled random (length memories))
    else js_index eligible (floor_scaled random (length eligible)).

Definition markMemoryAsSurfaced (store : Storage) (id : string) (now : Z)
  : Storage :=
  fst (updateMemory store id
         (MemoryUpdates.mk None None None None None None None
                           (Some (Some now)) None)).

(** ** Sections of the history list

    [groupMemoriesByTag] of [HistoryScreen.tsx] collects the memories in a
    plain object keyed by tag and sorts the entries of the object by size.
    The object is modelled by its own entries in insertion order. *)

Definition MemorySection : Type := (string * list Memory.t)%type.

(** [memory.emotion || "Untagged"]. *)
Definition tag_of (memory : Memory.t) : string :=
  match Memory.emotion memory with
  | Some e => if decide (e = EmptyString) then "Untagged" else e
  | None => "Untagged"
  end.

(** The names a plain object inherits from [Object.prototype].  Under
    such a name [groups[tag]] finds the inherited member, never an array
    of memories. *)
Definition object_prototype_members : list string :=
  ["constructor"; "__defineGetter__"; "__defineSetter__"; "hasOwnProperty";
   "__lookupGetter__"; "__lookupSetter__"; "isPrototypeOf";
   "propertyIsEnumerable"; "toString"; "valueOf"; "__proto__";
   "toLocaleString"].

(** [groups[tag] = []] when the object has no entry for the tag, then
    [groups[tag].push(memory)]. *)
Fixpoint push_group (tag : string) (memory : Memory.t)
    (groups : list MemorySection) : list MemorySection :=
  match groups with
  | [] => [(tag, [memory])]
  | (title, data) :: rest =>
      if decide (title = tag) then (title, (data ++ [memory])%list) :: rest
      else (title, data) :: push_group tag memory rest
  end.

(** [if (!groups[tag]) groups[tag] = []; groups[tag].push(memory)].  For a
    tag that names a member of [Object.prototype] the test finds the
    member, which is truthy, and the call of its [push], which it does not
    have, throws a [TypeError]: [None]. *)
Definition push_memory (tag : string) (memory : Memory.t)
    (groups : list MemorySection) : option (list MemorySection) :=
  if decide (tag ∈ object_prototype_members) then None
  else Some (push_group tag memory groups).

(** [memories.forEach(...)]; what the callback throws ends the loop and the
    function. *)
Definition collect_groups (memories : list Memory.t)
  : option (list MemorySection) :=
  foldl (λ groups memory, groups ≫= push_memory (tag_of memory) memory)
        (Some []) memories.

(** The array index a key denotes: a decimal numeral without a leading
    zero, below 2^32 - 1. *)
Fixpoint all_digits (s : string) : bool :=
  match s with
  | EmptyString => true
  | String c rest =>
      bool_decide (48 ≤ nat_of_ascii c ≤ 57)%nat && all_digits rest
  end.

Definition array_index (key : string) : option Z :=
  match key with
  | EmptyString => None
  | String c rest =>
      if all_digits key
         && (negb (Ascii.eqb c "0"%char) || bool_decide (rest = EmptyString))
      then
        n ← leading_digits 10 key None;
        if decide (n < 2 ^ 32 - 1) then Some n else None
      else None
  end.

Definition is_array_index (e : MemorySection) : Prop :=
  is_Some (array_index (fst e)).

Definition index_order (a b : MemorySection) : Prop :=
  default 0 (array_index (fst a)) ≤ default 0 (array_index (fst b)).

#[global] Instance index_order_dec a b : Decision (index_order a b).
Proof. unfold index_order. apply _. Defined.

(** [Object.entries(groups)]: the entries whose key is an array index come
    first, in ascending order of the index, then the other entries in the
    order in which they were created. *)
Definition object_entries (groups : list MemorySection)
  : list MemorySection :=
  (merge_sort index_order (filter is_array_index groups)
   ++ filter (λ e, ¬ is_array_index e) groups)%list.

(** [entries.sort((a, b) => b[1].length - a[1].length)], a stable sort:
    an entry goes before the first one that is not larger. *)
Fixpoint insert_by_size (e : MemorySection) (sorted : list MemorySection)
  : list MemorySection :=
  match sorted with
  | [] => [e]
  | e' :: rest =>
      if decide (length (snd e') ≤ length (snd e))%nat then e :: e' :: rest
      else e' :: insert_by_size e rest
  end.

Definition sort_by_size (entries : list MemorySection) : list MemorySection :=
  foldr insert_by_size [] entries.

(** [groupMemoriesByTag]; [None] when it throws. *)
Definition groupMemoriesByTag (memories : list Memory.t)
  : option (list MemorySection) :=
  groups ← collect_groups memories;
  Some (sort_by_size (object_entries groups)).

(** Larger sections come first. *)
Definition larger_first (a b : MemorySection) : Prop :=
  (length (snd b) ≤ length (snd a))%nat.

(** While the memories are collected, every group holds the memories of its
    tag read so far, in their order, and every tag read has its group. *)
Definition groups_of (memories : list Memory.t)
    (groups : list MemorySection) : Prop :=
  NoDup (fst <$> groups)
  ∧ Forall (λ e, snd e = filter (λ m, tag_of m = fst e) memories
                 ∧ snd e ≠ []) groups
  ∧ ∀ m, m ∈ memories → tag_of m ∈ fst <$> groups.

(** Example store: three memories, the second one never surfaced. *)
Definition memory_example (id : string) (emotion : option string)
    (lastSurfacedAt : option Z) : Memory.t :=
  Memory.mk id "a good day" emotion None None 1000 [] lastSurfacedAt None.

(** Memories tagged with free text: a number, and the name of a member of
    [Object.prototype]. *)
Definition numbered_memories : list Memory.t :=
  [memory_example "m1" (Some "joy") None;
   memory_example "m2" (Some "7") None;
   memory_example "m3" (Some "joy") None].

Definition constructor_memories : list Memory.t :=
  [memory_example "m1" (Some "joy") None;
   memory_example "m2" (Some "constructor") None].

Definition store_example : Storage :=
  mkStorage (Some [memory_example "m1" (Some "joy") (Some 5000);
                   memory_example "m2" None None;
                   memory_example "m3" (Some "joy") (Some 7000)])
            None.

(** * Properties *)

(** ** The definitions on small inputs *)

Example parseInt_digits : parseInt (Some "3") = JsInt 3.
Proof. reflexivity. Qed.

Example parseInt_prefix : parseInt (Some " -12 weeks") = JsInt (-12).
Proof. reflexivity. Qed.

Example parseInt_hex : parseInt (Some "0x1f") = JsInt 31.
Proof. reflexivity. Qed.

Example parseInt_words : parseInt (Some "soon") = JsNaN.
Proof. reflexivity. Qed.

Example parseInt_missing : parseInt None = JsNaN.
Proof. reflexivity. Qed.

(** A no-break space, the bytes C2 A0, is skipped as the space is. *)
Example parseInt_no_break_space :
  parseInt (Some (String (ascii_of_nat 194) (String (ascii_of_nat 160) "7")))
  = JsInt 7.
Proof. reflexivity. Qed.

(** 2^53 + 1 is no double: it is read as 2^53. *)
Example parseInt_rounds :
  parseInt (Some "9007199254740993") = JsInt 9007199254740992.
Proof. vm_compute. reflexivity. Qed.

Example parseInt_rounds_up :
  parseInt (Some "9007199254740995") = JsInt 9007199254740996.
Proof. vm_compute. reflexivity. Qed.

Example number_or_zero : number_or (parseInt (Some "0")) 2 = JsInt 2.
Proof. reflexivity. Qed.

Example excludeIds_of_pieces : excludeIds_of (Some "a,,b,") = ["a"; "b"].
Proof. reflexivity. Qed.

Example excludeIds_of_empty : excludeIds_of (Some "") = [].
Proof. reflexivity. Qed.

Example join_comma_ids : join_comma ["a"; "b"; "c"] = "a,b,c".
Proof. reflexivity. Qed.

Example floor_scaled_half : floor_scaled one_half 3 = 1.
Proof. reflexivity. Qed.

Example scenario_deposits :
  deposits scenario_db
  = [Deposit.mk "D1" "first" None None None (Some []) None 0 1000;
     Deposit.mk "D2" "second" None None None (Some []) None 5 2000;
     Deposit.mk "D3" "third" None None None (Some []) None (-1) 3000].
Proof. vm_compute. reflexivity. Qed.

Example scenario_surface :
  fst (get_api_deposits_surface scenario_db None one_half)
  = Sent 200 (Some (Deposit.mk "D1" "first" None None None (Some []) None
                               0 1000)).
Proof. vm_compute. reflexivity. Qed.

Example scenario_surface_excluded :
  fst (get_api_deposits_surface scenario_db (Some "D1") one_half)
  = Sent 200 None.
Proof. vm_compute. reflexivity. Qed.

Example set_status_not_a_number :
  patch_api_deposits_id_status scenario_db "D1" {[ "status" := JStr "5" ]}
  = (Failed 400 "Status must be a number", scenario_db).
Proof. reflexivity. Qed.

Example set_status_missing_deposit :
  fst (patch_api_deposits_id_status scenario_db "D9" (body_status 5))
  = Failed 404 "Deposit not found".
Proof. vm_compute. reflexivity. Qed.

Example circle_db_connections :
  connections circle_db
  = [Connection.mk "c1" "ann" "bob" "accepted" 200 (Some 200);
     Connection.mk "c2" "bob" "ann" "accepted" 201 (Some 201)].
Proof. vm_compute. reflexivity. Qed.

Example accept_twice :
  fst (post_api_circle_invites_code_accept circle_db "abc123" (Some "carl")
         "c3" 300 "c4" 301)
  = Failed 400 "Invite already used or expired".
Proof. vm_compute. reflexivity. Qed.

Example accept_own_invite :
  fst (post_api_circle_invites_code_accept invited_db "abc123" (Some "ann")
         "c1" 200 "c2" 201)
  = Failed 400 "Cannot accept your own invite".
Proof. vm_compute. reflexivity. Qed.

(** ** The query building blocks *)

Section UpdateWhere.
Context {A : Type} (p : A → bool) (f : A → A).

Lemma length_update_where (rows : list A) :
  length (update_where p f rows) = length rows.
Proof. unfold update_where. by rewrite length_fmap. Qed.

Lemma lookup_update_where (rows : list A) (i : nat) :
  update_where p f rows !! i
  = (λ r, if p r then f r else r) <$> rows !! i.
Proof. unfold update_where. by rewrite list_lookup_fmap. Qed.

Lemma elem_of_update_where (rows : list A) (r' : A) :
  r' ∈ update_where p f rows
  ↔ ∃ r, r ∈ rows ∧ r' = if p r then f r else r.
Proof.
  unfold update_where. rewrite list_elem_of_fmap.
  split; intros (r & H1 & H2); exists r; by split.
Qed.

Lemma Forall_update_where (P : A → Prop) (rows : list A) :
  Forall P rows →
  (∀ r, r ∈ rows → p r = true → P (f r)) →
  Forall P (update_where p f rows).
Proof.
  rewrite !Forall_forall. intros Hrows Hf r' Hr'.
  apply elem_of_update_where in Hr' as (r & Hr & ->).
  destruct (p r) eqn:Hp; auto.
Qed.

Lemma head_returning_None (rows : list A) :
  head (returning p f rows) = None ↔ ∀ r, r ∈ rows → p r = false.
Proof.
  unfold returning. rewrite head_None. split.
  - intros Hnil%fmap_nil_inv r Hr. destruct (p r) eqn:Hp; [|done].
    exfalso. by eapply (filter_nil_not_elem_of _ _ r).
  - intros Hall. induction rows as [|r rows IH]; [done|].
    rewrite filter_cons_False.
    + apply IH. intros r' Hr'. apply Hall. by right.
    + rewrite (Hall r); [done | by left].
Qed.

Lemma head_returning_Some (rows : list A) (row : A) :
  head (returning p f rows) = Some row →
  ∃ r, r ∈ rows ∧ p r = true ∧ row = f r.
Proof.
  unfold returning. intros Hhead.
  apply head_Some_elem_of in Hhead.
  apply list_elem_of_fmap in Hhead as (r & -> & Hr).
  apply list_elem_of_filter in Hr as [Hp Hr]. eauto.
Qed.

Lemma head_returning_is_Some (rows : list A) (r : A) :
  r ∈ rows → p r = true → is_Some (head (returning p f rows)).
Proof.
  intros Hr Hp. destruct (head (returning p f rows)) eqn:Hhead; [eauto|].
  pose proof (proj1 (head_returning_None rows) Hhead r Hr) as Hfalse.
  congruence.
Qed.

Lemma update_where_no_match (rows : list A) :
  (∀ r, r ∈ rows → p r = false) → update_where p f rows = rows.
Proof.
  intros Hall. unfold update_where.
  induction rows as [|r rows IH]; [done|]. simpl.
  rewrite (Hall r) by (by left). f_equal. apply IH.
  intros r' Hr'. apply Hall. by right.
Qed.
End UpdateWhere.

Lemma with_deposits_same (db : Db) : with_deposits (deposits db) db = db.
Proof. by destruct db. Qed.

(** ** The state each deposit route leaves *)

Lemma snd_post_api_deposits (db : Db) (body : Body) (newId : string)
    (now : Timestamp) :
  snd (post_api_deposits db body newId now) = db
  ∨ ∃ data, insertDepositSchema_safeParse body = Some data
            ∧ snd (post_api_deposits db body newId now)
              = with_deposits
                  (deposits db
                   ++ [insert_deposits_values
                         (InsertDeposit.with_status 0 data) newId now]) db.
Proof.
  unfold post_api_deposits.
  destruct (insertDepositSchema_safeParse body) as [data|]; [right|left]; eauto.
Qed.

Lemma snd_patch_api_deposits_id (db : Db) (id : string) (body : UpdateData.t) :
  snd (patch_api_deposits_id db id body)
  = with_deposits
      (update_where (eq_deposits_id id) (set_updateData body) (deposits db)) db.
Proof.
  unfold patch_api_deposits_id.
  destruct (no_values body) eqn:Hno; [|by destruct (head _)].
  destruct body as [[c|] [e|] [t|]]; try discriminate Hno.
  simpl. symmetry.
  replace (update_where (eq_deposits_id id)
             (set_updateData (UpdateData.mk None None None)) (deposits db))
    with (deposits db); [apply with_deposits_same|].
  unfold update_where. symmetry. etrans; [|apply list_fmap_id].
  apply list_fmap_ext. intros i d _. simpl.
  destruct (eq_deposits_id id d); [|done]. by destruct d.
Qed.

Lemma snd_patch_api_deposits_id_status (db : Db) (id : string) (body : Body) :
  snd (patch_api_deposits_id_status db id body) = db
  ∨ ∃ status, body !! "status" = Some (JNum status)
              ∧ integer_column status = true
              ∧ snd (patch_api_deposits_id_status db id body)
                = with_deposits
                    (update_where (eq_deposits_id id) (set_status status)
                                  (deposits db)) db.
Proof.
  unfold patch_api_deposits_id_status.
  destruct (body !! "status") as [[| |status| |]|]; try by left.
  destruct (integer_column status) eqn:Hrange; [|by left].
  right. exists status. by destruct (head _).
Qed.

Lemma snd_delete_api_deposits_id (db : Db) (id : string) :
  snd (delete_api_deposits_id db id)
  = with_deposits
      (update_where (eq_deposits_id id) (set_status (-1)) (deposits db)) db.
Proof. unfold delete_api_deposits_id. by destruct (head _). Qed.

Lemma snd_patch_api_deposits_id_surface (db : Db) (id : string)
    (now : Timestamp) :
  snd (patch_api_deposits_id_surface db id now)
  = with_deposits
      (update_where (eq_deposits_id id) (set_lastSurfacedAt_status now 30)
                    (deposits db)) db.
Proof. unfold patch_api_deposits_id_surface. by destruct (head _). Qed.

Lemma snd_get_api_deposits_surface (db : Db) (excludeParam : option string)
    (random : Random) :
  snd (get_api_deposits_surface db excludeParam random) = db.
Proof. unfold get_api_deposits_surface. by destruct (decide (length _ = _)). Qed.

(** Every route but set-status keeps the statuses inside the model; the
    set-status route does so when the number it is sent is at least -1. *)
Lemma handle_statuses_in_model (db : Db) (req : Request) :
  statuses_in_model db →
  (∀ s, requested_status req = Some s → -1 ≤ s) →
  statuses_in_model (handle db req).
Proof.
  unfold statuses_in_model. intros Hdb Hreq.
  destruct req as [body newId now|id body|id body|id|id now|excl random];
    simpl.
  - destruct (snd_post_api_deposits db body newId now)
      as [->|(data & _ & ->)]; [done|].
    simpl. apply Forall_app; split; [done|].
    apply Forall_singleton. right; by left.
  - rewrite snd_patch_api_deposits_id. simpl.
    apply Forall_update_where; [done|].
    intros r Hr _. rewrite Forall_forall in Hdb. simpl. by apply Hdb.
  - destruct (snd_patch_api_deposits_id_status db id body)
      as [->|(status & Hbody & _ & ->)]; [done|].
    simpl. apply Forall_update_where; [done|].
    intros r _ _. simpl.
    specialize (Hreq status). simpl in Hreq. rewrite Hbody in Hreq.
    specialize (Hreq eq_refl). unfold status_in_model. lia.
  - rewrite snd_delete_api_deposits_id. simpl.
    apply Forall_update_where; [done|].
    intros r _ _. by left.
  - rewrite snd_patch_api_deposits_id_surface. simpl.
    apply Forall_update_where; [done|].
    intros r _ _. right; right. simpl. lia.
  - by rewrite snd_get_api_deposits_surface.
Qed.

(** C1 (as amended).  After any sequence of create, update, set-status,
    soft-delete, mark-surfaced and surface requests in which every
    set-status request carries a number that is at least -1, the status of
    every deposit is -1, 0 or a positive integer, provided it was so before.
    The set-status route itself checks only that the value is a number. *)
Theorem status_stays_in_model (db : Db) (reqs : list Request) :
  statuses_in_model db →
  Forall (λ req, ∀ s, requested_status req = Some s → -1 ≤ s) reqs →
  statuses_in_model (handle_all db reqs).
Proof.
  unfold handle_all. intros Hdb Hreqs. revert db Hdb.
  induction Hreqs as [|req reqs Hreq _ IH]; intros db Hdb; simpl; [done|].
  apply IH. by apply handle_statuses_in_model.
Qed.

(** A run inside the amended claim: a deposit is created, cooled down for
    five days, surfaced and soft-deleted. *)
Lemma status_stays_in_model_witness :
  statuses_in_model
    (handle_all empty_db
       [Create (body_content "sunny walk") "d1" 1000;
        SetStatus "d1" (body_status 5);
        MarkSurfaced "d1" 2000;
        SoftDelete "d1"]).
Proof.
  apply status_stays_in_model.
  - constructor.
  - repeat constructor; intros s; vm_compute; intros [= <-]; discriminate.
Defined.

(** C1 (as stated) fails: after a create and a set-status request with
    -5 the one deposit has status -5, which is neither -1, nor 0, nor
    positive. *)
Lemma status_leaves_model :
  statuses_in_model empty_db
  ∧ Deposit.status
      <$> deposits
            (handle_all empty_db
               [Create (body_content "sunny walk") "d1" 1000;
                SetStatus "d1" (body_status (-5))])
    = [-5]
  ∧ ¬ statuses_in_model
        (handle_all empty_db
           [Create (body_content "sunny walk") "d1" 1000;
            SetStatus "d1" (body_status (-5))]).
Proof.
  split; [constructor|]. split; [vm_compute; reflexivity|].
  unfold statuses_in_model.
  assert (deposits
            (handle_all empty_db
               [Create (body_content "sunny walk") "d1" 1000;
                SetStatus "d1" (body_status (-5))])
          = [Deposit.mk "d1" "sunny walk" None None None (Some []) None
                        (-5) 1000]) as -> by (vm_compute; reflexivity).
  intros Hall. apply Forall_inv in Hall. simpl in Hall.
  unfold status_in_model in Hall. lia.
Qed.

(** ** Surfacing *)

(** Both branches of the handler select the same rows. *)
Lemma surface_candidates (db : Db) (excludeIds : list string) :
  (if decide (0 < length excludeIds)%nat
   then filter (eligible_excluding excludeIds) (deposits db)
   else filter eligible_active (deposits db))
  = filter (eligible_excluding excludeIds) (deposits db).
Proof.
  destruct (decide (0 < length excludeIds)%nat) as [|Hlen]; [done|].
  destruct excludeIds as [|x xs]; [|simpl in Hlen; lia].
  apply list_filter_iff. intros d. unfold eligible_active, eligible_excluding.
  split; [|by intros [? _]]. intros Hd. split; [done|]. apply not_elem_of_nil.
Qed.

Lemma elem_of_surface_candidates (db : Db) (excludeIds : list string)
    (d : Deposit.t) :
  d ∈ filter (eligible_excluding excludeIds) (deposits db)
  ↔ eligible db excludeIds d.
Proof.
  rewrite list_elem_of_filter. unfold eligible, eligible_excluding. tauto.
Qed.

(** [Math.floor(Math.random() * n)] is an index of an array of length [n]. *)
Lemma floor_scaled_in_range (random : Random) (n : nat) :
  unit_interval random → (0 < n)%nat →
  0 ≤ floor_scaled random n < Z.of_nat n.
Proof.
  unfold unit_interval, floor_scaled. intros [Hnum Hden] Hn. split.
  - apply Z.div_pos; lia.
  - apply Z.div_lt_upper_bound; nia.
Qed.

Lemma js_index_in_range {A : Type} (rows : list A) (random : Random) :
  unit_interval random → rows ≠ [] →
  ∃ r, js_index rows (floor_scaled random (length rows)) = Some r ∧ r ∈ rows.
Proof.
  intros Hrandom Hrows.
  assert (0 < length rows)%nat as Hlen by (destruct rows; [done|simpl; lia]).
  pose proof (floor_scaled_in_range random (length rows) Hrandom Hlen) as [Hlo Hhi].
  unfold js_index. rewrite decide_True by done.
  destruct (lookup_lt_is_Some_2 rows (Z.to_nat (floor_scaled random (length rows))))
    as [r Hr]; [lia|].
  exists r. split; [done|]. by eapply list_elem_of_lookup_2.
Qed.

(** Every list of plain ids reaches the handler as it was sent. *)
Lemma split_comma_plain (id : string) :
  comma_free id = true → split_comma id = [id].
Proof.
  induction id as [|c id IH]; simpl; [done|].
  intros [Hc Hid]%andb_prop. apply negb_true_iff in Hc. rewrite Hc.
  by rewrite (IH Hid).
Qed.

Lemma split_comma_append (id rest : string) :
  comma_free id = true →
  split_comma (id +:+ String ","%char rest) = id :: split_comma rest.
Proof.
  induction id as [|c id IH]; simpl; [done|].
  intros [Hc Hid]%andb_prop. apply negb_true_iff in Hc. rewrite Hc.
  by rewrite (IH Hid).
Qed.

Lemma split_comma_join_comma (ids : list string) :
  ids ≠ [] → Forall plain_id ids → split_comma (join_comma ids) = ids.
Proof.
  intros Hne Hids. induction Hids as [|id rest [_ Hid] Hrest IH]; [done|].
  destruct rest as [|id' rest].
  - by apply split_comma_plain.
  - change (join_comma (id :: id' :: rest))
      with (id +:+ String ","%char (join_comma (id' :: rest))).
    rewrite split_comma_append by done. by rewrite IH.
Qed.

Lemma excludeIds_of_join_comma (ids : list string) :
  Forall plain_id ids → excludeIds_of (Some (join_comma ids)) = ids.
Proof.
  intros Hids. destruct ids as [|id rest]; [done|].
  assert (join_comma (id :: rest) ≠ EmptyString) as Hjoin.
  { apply Forall_cons in Hids as [[Hid _] _].
    destruct id; [done|]. simpl. by destruct rest. }
  unfold excludeIds_of.
  destruct (join_comma (id :: rest)) as [|c s] eqn:Heq; [done|].
  rewrite <- Heq, split_comma_join_comma by done.
  clear Heq Hjoin. induction Hids as [|x xs [Hx _] _ IH]; [done|].
  rewrite filter_cons_True by done. by rewrite IH.
Qed.

Lemma split_comma_join_pieces (pieces : list string) :
  pieces ≠ [] → Forall (λ piece, comma_free piece = true) pieces →
  split_comma (join_comma pieces) = pieces.
Proof.
  intros Hne Hpieces. induction Hpieces as [|piece rest Hpiece Hrest IH]; [done|].
  destruct rest as [|piece' rest].
  - by apply split_comma_plain.
  - change (join_comma (piece :: piece' :: rest))
      with (piece +:+ String ","%char (join_comma (piece' :: rest))).
    rewrite split_comma_append by done. by rewrite IH.
Qed.

(** The handler reads a comma-separated list as its pieces that are not
    empty. *)
Lemma excludeIds_of_join_pieces (pieces : list string) :
  Forall (λ piece, comma_free piece = true) pieces →
  excludeIds_of (Some (join_comma pieces))
  = filter (λ piece, piece ≠ EmptyString) pieces.
Proof.
  intros Hpieces. destruct pieces as [|piece rest]; [done|].
  pose proof (split_comma_join_pieces (piece :: rest) ltac:(done) Hpieces)
    as Hsplit.
  unfold excludeIds_of.
  destruct (join_comma (piece :: rest)) as [|c s] eqn:Heq.
  - rewrite <- Hsplit. reflexivity.
  - by rewrite <- Hsplit.
Qed.

Lemma excludeIds_of_carried (excludeParam : option string)
    (excludeIds : list string) :
  carries excludeParam excludeIds → excludeIds_of excludeParam = excludeIds.
Proof.
  intros [[-> ->]|(pieces & Hpieces & -> & ->)]; [done|].
  by apply excludeIds_of_join_pieces.
Qed.

(** The handler on the ids it has read from the parameter. *)
Lemma surface_on_parsed_ids (db : Db) (excludeParam : option string)
    (random : Random) :
  unit_interval random →
  let excludeIds := excludeIds_of excludeParam in
  let reply := fst (get_api_deposits_surface db excludeParam random) in
  (reply = Sent 200 None ↔ ¬ ∃ d, eligible db excludeIds d)
  ∧ ((∃ d, eligible db excludeIds d) →
     ∃ d, reply = Sent 200 (Some d) ∧ eligible db excludeIds d)
  ∧ (∀ d, reply = Sent 200 (Some d) →
       d ∈ deposits db ∧ Deposit.status d = 0 ∧ Deposit.id d ∉ excludeIds)
  ∧ snd (get_api_deposits_surface db excludeParam random) = db.
Proof.
  intros Hrandom excludeIds reply.
  assert (reply
          = let rows := filter (eligible_excluding excludeIds) (deposits db) in
            if decide (length rows = 0%nat) then Sent 200 None
            else Sent 200 (js_index rows (floor_scaled random (length rows))))
    as Hreply.
  { subst reply. unfold get_api_deposits_surface. fold excludeIds.
    rewrite surface_candidates. simpl.
    by destruct (decide (length _ = 0%nat)). }
  simpl in Hreply.
  set (rows := filter (eligible_excluding excludeIds) (deposits db)) in *.
  assert (rows = [] → ¬ ∃ d, eligible db excludeIds d) as Hnone.
  { intros Hrows [d Hd]. apply elem_of_surface_candidates in Hd.
    fold rows in Hd. rewrite Hrows in Hd. by apply not_elem_of_nil in Hd. }
  assert (rows ≠ [] →
          ∃ d, reply = Sent 200 (Some d) ∧ eligible db excludeIds d) as Hsome.
  { intros Hrows.
    destruct (js_index_in_range rows random Hrandom Hrows) as (d & Hd & Hin).
    exists d. split.
    - rewrite Hreply, decide_False; [by rewrite Hd|].
      by intros ?%length_zero_iff_nil.
    - by apply elem_of_surface_candidates. }
  split; [|split; [|split]].
  - split.
    + intros Hnull. destruct (decide (rows = [])) as [|Hrows]; [auto|].
      destruct (Hsome Hrows) as (d & Hd & _). congruence.
    + intros Hno. destruct (decide (rows = [])) as [Hrows|Hrows].
      * rewrite Hreply, decide_True; [done|]. by rewrite Hrows.
      * destruct (Hsome Hrows) as (d & _ & Hd). destruct Hno; eauto.
  - intros Hex. destruct (decide (rows = [])) as [Hrows|Hrows]; [|auto].
    by destruct (Hnone Hrows).
  - intros d Hd. destruct (decide (rows = [])) as [Hrows|Hrows].
    + rewrite Hreply, decide_True in Hd; [done|]. by rewrite Hrows.
    + destruct (Hsome Hrows) as (d' & Hd' & Hel).
      assert (d = d') as -> by congruence. apply Hel.
  - apply snd_get_api_deposits_surface.
Qed.

(** C2.  For every exclusion set, sent in the [exclude] parameter as a
    comma-separated list, [surface] answers [null] exactly when no deposit
    is active and outside the set; otherwise it answers one of those
    deposits, so what it returns has status 0 and an id that is not
    excluded.  The database is left as it was. *)
Theorem surface_returns_eligible (db : Db) (excludeIds : list string)
    (excludeParam : option string) (random : Random) :
  unit_interval random →
  carries excludeParam excludeIds →
  let reply := fst (get_api_deposits_surface db excludeParam random) in
  (reply = Sent 200 None
   ↔ ¬ ∃ d, d ∈ deposits db ∧ Deposit.status d = 0
            ∧ Deposit.id d ∉ excludeIds)
  ∧ ((∃ d, d ∈ deposits db ∧ Deposit.status d = 0
           ∧ Deposit.id d ∉ excludeIds) →
     ∃ d, reply = Sent 200 (Some d)
          ∧ d ∈ deposits db ∧ Deposit.status d = 0
          ∧ Deposit.id d ∉ excludeIds)
  ∧ (∀ d, reply = Sent 200 (Some d) →
       d ∈ deposits db ∧ Deposit.status d = 0 ∧ Deposit.id d ∉ excludeIds)
  ∧ snd (get_api_deposits_surface db excludeParam random) = db.
Proof.
  intros Hrandom Hcarries.
  pose proof (surface_on_parsed_ids db excludeParam random Hrandom) as Hparsed.
  rewrite (excludeIds_of_carried _ _ Hcarries) in Hparsed.
  exact Hparsed.
Qed.

(** With D1 and D2 both active, the parameter [D1,] excludes D1 and the
    route answers D2, whatever the draw; with D1 the only active deposit,
    excluding it leaves nothing to answer. *)
Lemma surface_returns_eligible_witness :
  carries (Some "D1,") ["D1"]
  ∧ (∃ d, fst (get_api_deposits_surface two_active_db (Some "D1,") one_half)
          = Sent 200 (Some d)
          ∧ Deposit.id d = "D2")
  ∧ fst (get_api_deposits_surface scenario_db (Some "D1,") one_half)
    = Sent 200 None.
Proof.
  assert (unit_interval one_half) as Hrandom
    by (unfold unit_interval; simpl; lia).
  assert (carries (Some "D1,") ["D1"]) as Hcarries.
  { right. exists ["D1"; EmptyString]. split; [by repeat constructor|].
    split; reflexivity. }
  split; [exact Hcarries|].
  destruct (surface_returns_eligible two_active_db ["D1"] (Some "D1,")
              one_half Hrandom Hcarries) as (_ & Hsome & _).
  destruct (surface_returns_eligible scenario_db ["D1"] (Some "D1,")
              one_half Hrandom Hcarries) as (Hnone & _).
  assert (deposits two_active_db
          = [Deposit.mk "D1" "first" None None None (Some []) None 0 1000;
             Deposit.mk "D2" "second" None None None (Some []) None 0 2000])
    as Hrows by (vm_compute; reflexivity).
  split.
  - destruct Hsome as (d & Hd & Hin & Hstatus & Hout).
    + exists (Deposit.mk "D2" "second" None None None (Some []) None 0 2000).
      rewrite Hrows. split; [|split; [done|]].
      * apply list_elem_of_further, list_elem_of_here.
      * simpl. intros Hin%list_elem_of_singleton. discriminate Hin.
    + exists d. split; [exact Hd|]. rewrite Hrows in Hin.
      apply elem_of_cons in Hin as [->|Hin];
        [destruct Hout; apply list_elem_of_here|].
      apply list_elem_of_singleton in Hin as ->. reflexivity.
  - apply Hnone. intros (d & Hin & Hstatus & Hout).
    rewrite scenario_deposits in Hin.
    apply elem_of_cons in Hin as [->|Hin];
      [destruct Hout; apply list_elem_of_here|].
    apply elem_of_cons in Hin as [->|Hin]; [discriminate Hstatus|].
    apply list_elem_of_singleton in Hin as ->. discriminate Hstatus.
Defined.

(** Whatever the draw, a deposit that [surface] returns is eligible. *)
Lemma surface_reply_eligible (db : Db) (excludeParam : option string)
    (random : Random) (d : Deposit.t) :
  fst (get_api_deposits_surface db excludeParam random) = Sent 200 (Some d) →
  eligible db (excludeIds_of excludeParam) d.
Proof.
  unfold get_api_deposits_surface. rewrite surface_candidates.
  set (rows := filter _ (deposits db)).
  destruct (decide (length rows = 0%nat)); simpl; [done|].
  intros [= Hd]. unfold js_index in Hd.
  destruct (decide (0 ≤ _)); [|done].
  apply list_elem_of_lookup_2 in Hd. by apply elem_of_surface_candidates.
Qed.

(** C3.  For an id that exists, [markSurfaced(id)] answers the updated
    deposit; the one update writes [lastSurfacedAt = now] and [status = 30]
    to the rows of that id and nothing else; and a [surface] call on the
    state it leaves never returns that id, whatever the exclusion set (the
    empty one included) and whatever the random draw. *)
Theorem markSurfaced_takes_out_of_rotation (db : Db) (id : string)
    (now : Timestamp) :
  (∃ d, d ∈ deposits db ∧ Deposit.id d = id) →
  let reply := fst (patch_api_deposits_id_surface db id now) in
  let db' := snd (patch_api_deposits_id_surface db id now) in
  (∃ d, d ∈ deposits db ∧ Deposit.id d = id
        ∧ reply = Sent 200 (set_lastSurfacedAt_status now 30 d))
  ∧ Forall2 (λ d d', d' = if decide (Deposit.id d = id)
                          then set_lastSurfacedAt_status now 30 d else d)
            (deposits db) (deposits db')
  ∧ (∀ d', d' ∈ deposits db' → Deposit.id d' = id →
       Deposit.lastSurfacedAt d' = Some now ∧ Deposit.status d' = 30)
  ∧ (∀ excludeParam random d,
       fst (get_api_deposits_surface db' excludeParam random)
       = Sent 200 (Some d) →
       Deposit.id d ≠ id).
Proof.
  intros (d0 & Hd0 & Hid0) reply db'.
  assert (deposits db'
          = update_where (eq_deposits_id id) (set_lastSurfacedAt_status now 30)
                         (deposits db)) as Hrows.
  { subst db'. by rewrite snd_patch_api_deposits_id_surface. }
  assert (∀ d', d' ∈ deposits db' → Deposit.id d' = id →
            Deposit.lastSurfacedAt d' = Some now ∧ Deposit.status d' = 30)
    as Hcool.
  { intros d' Hd' Hid'. rewrite Hrows in Hd'.
    apply elem_of_update_where in Hd' as (d & _ & ->).
    unfold eq_deposits_id in *. case_bool_decide as Hd; [done|].
    by destruct Hd. }
  split; [|split; [|split]]; [| |exact Hcool|].
  - subst reply. unfold patch_api_deposits_id_surface.
    destruct (head _) as [row|] eqn:Hhead.
    + apply head_returning_Some in Hhead as (d & Hd & Hp & ->).
      exists d. unfold eq_deposits_id in Hp.
      apply bool_decide_eq_true in Hp. done.
    + pose proof (proj1 (head_returning_None _ _ _) Hhead d0 Hd0) as Hfalse.
      unfold eq_deposits_id in Hfalse.
      apply bool_decide_eq_false in Hfalse. done.
  - rewrite Hrows. unfold update_where. apply Forall2_fmap_r, Forall_Forall2_diag.
    apply Forall_forall. intros d _. unfold compose, eq_deposits_id. cbn beta.
    destruct (decide (Deposit.id d = id)) as [Hd|Hd].
    + by rewrite bool_decide_eq_true_2.
    + by rewrite bool_decide_eq_false_2.
  - intros excludeParam random d Hd Hid.
    apply surface_reply_eligible in Hd as (Hin & Hstatus & _).
    destruct (Hcool d Hin Hid) as [_ Hthirty]. lia.
Qed.

(** On the scenario, D1 is surfaced and marked; no later [surface] call
    returns it. *)
Lemma markSurfaced_takes_out_of_rotation_witness :
  (∃ d, d ∈ deposits scenario_db ∧ Deposit.id d = "D1")
  ∧ ∀ excludeParam random d,
      fst (get_api_deposits_surface
             (snd (patch_api_deposits_id_surface scenario_db "D1" 5000))
             excludeParam random)
      = Sent 200 (Some d) →
      Deposit.id d ≠ "D1".
Proof.
  assert (∃ d, d ∈ deposits scenario_db ∧ Deposit.id d = "D1") as Hexists.
  { exists (Deposit.mk "D1" "first" None None None (Some []) None 0 1000).
    split; [|reflexivity]. rewrite scenario_deposits. by left. }
  split; [exact Hexists|].
  exact (proj2 (proj2 (proj2
           (markSurfaced_takes_out_of_rotation scenario_db "D1" 5000 Hexists)))).
Defined.

(** ** Creating deposits and shared deposits *)

Lemma post_api_deposits_valid (db : Db) (body : Body) (newId : string)
    (now : Timestamp) (data : InsertDeposit.t) :
  insertDepositSchema_safeParse body = Some data →
  ∃ d, post_api_deposits db body newId now
       = (Sent 201 d, with_deposits (deposits db ++ [d]) db)
       ∧ Deposit.id d = newId
       ∧ Deposit.content d = InsertDeposit.content data
       ∧ Deposit.status d = 0.
Proof.
  intros Hparse. unfold post_api_deposits. rewrite Hparse. eauto.
Qed.

Lemma post_api_deposits_sent (db db' : Db) (body : Body) (newId : string)
    (now : Timestamp) (code : Z) (d : Deposit.t) :
  post_api_deposits db body newId now = (Sent code d, db') →
  Deposit.status d = 0 ∧ d ∈ deposits db'.
Proof.
  unfold post_api_deposits.
  destruct (insertDepositSchema_safeParse body) as [data|]; [|done].
  intros [= _ <- <-]. split; [done|]. simpl.
  apply elem_of_app. right. by left.
Qed.

Lemma post_api_circle_shared_deposits_valid (db : Db) (body : Body)
    (newId : string) (now : Timestamp) (data : InsertSharedDeposit.t) :
  insertSharedDepositSchema_safeParse body = Some data →
  (∃ c, c ∈ connections db
        ∧ accepted_from_to (InsertSharedDeposit.senderId data)
                           (InsertSharedDeposit.receiverId data) c) →
  ∃ sd, post_api_circle_shared_deposits db body newId now
        = (Sent 201 sd, with_sharedDeposits (sharedDeposits db ++ [sd]) db)
        ∧ SharedDeposit.senderId sd = InsertSharedDeposit.senderId data
        ∧ SharedDeposit.receiverId sd = InsertSharedDeposit.receiverId data
        ∧ SharedDeposit.status sd = 0.
Proof.
  intros Hparse (c & Hc & Hacc).
  unfold post_api_circle_shared_deposits. rewrite Hparse.
  destruct (head (filter _ (connections db))) as [connection|] eqn:Hhead.
  - eauto.
  - apply head_None in Hhead.
    exfalso. by eapply (filter_nil_not_elem_of _ _ c).
Qed.

Lemma post_api_circle_shared_deposits_sent (db db' : Db) (body : Body)
    (newId : string) (now : Timestamp) (code : Z) (sd : SharedDeposit.t) :
  post_api_circle_shared_deposits db body newId now = (Sent code sd, db') →
  SharedDeposit.status sd = 0 ∧ sd ∈ sharedDeposits db'.
Proof.
  unfold post_api_circle_shared_deposits.
  destruct (insertSharedDepositSchema_safeParse body) as [data|]; [|done].
  destruct (head _); [|done].
  intros [= _ <- <-]. split; [done|]. simpl.
  apply elem_of_app. right. by left.
Qed.

(** C4.  A body that passes validation yields a created deposit, and with
    an accepted connection a created shared deposit; whatever either body
    says about [status], the row that is produced has status 0. *)
Theorem created_rows_start_active (db : Db) (newId : string) (now : Timestamp) :
  (∀ body data,
     insertDepositSchema_safeParse body = Some data →
     ∃ d, post_api_deposits db body newId now
          = (Sent 201 d, with_deposits (deposits db ++ [d]) db)
          ∧ Deposit.status d = 0)
  ∧ (∀ body code d db',
       post_api_deposits db body newId now = (Sent code d, db') →
       Deposit.status d = 0)
  ∧ (∀ body data,
       insertSharedDepositSchema_safeParse body = Some data →
       (∃ c, c ∈ connections db
             ∧ accepted_from_to (InsertSharedDeposit.senderId data)
                                (InsertSharedDeposit.receiverId data) c) →
       ∃ sd, post_api_circle_shared_deposits db body newId now
             = (Sent 201 sd,
                with_sharedDeposits (sharedDeposits db ++ [sd]) db)
             ∧ SharedDeposit.status sd = 0)
  ∧ (∀ body code sd db',
       post_api_circle_shared_deposits db body newId now
       = (Sent code sd, db') →
       SharedDeposit.status sd = 0).
Proof.
  split; [|split; [|split]].
  - intros body data Hparse.
    destruct (post_api_deposits_valid db body newId now data Hparse)
      as (d & Hd & _ & _ & Hstatus). eauto.
  - intros body code d db' Hsent.
    by destruct (post_api_deposits_sent _ _ _ _ _ _ _ Hsent).
  - intros body data Hparse Hconn.
    destruct (post_api_circle_shared_deposits_valid db body newId now data
                Hparse Hconn) as (sd & Hsd & _ & _ & Hstatus). eauto.
  - intros body code sd db' Hsent.
    by destruct (post_api_circle_shared_deposits_sent _ _ _ _ _ _ _ Hsent).
Qed.

Lemma created_rows_start_active_witness :
  (∃ d, post_api_deposits circle_db (body_content_status "first" 7) "D1" 1000
        = (Sent 201 d, with_deposits (deposits circle_db ++ [d]) circle_db)
        ∧ Deposit.status d = 0)
  ∧ (∃ sd, post_api_circle_shared_deposits circle_db
             (body_share_status "ann" "bob" "thinking of you" 7) "S1" 1000
           = (Sent 201 sd,
              with_sharedDeposits (sharedDeposits circle_db ++ [sd]) circle_db)
           ∧ SharedDeposit.status sd = 0).
Proof.
  destruct (created_rows_start_active circle_db "D1" 1000)
    as (Hcreate & _ & _ & _).
  destruct (created_rows_start_active circle_db "S1" 1000)
    as (_ & _ & Hshare & _).
  split.
  - apply (Hcreate (body_content_status "first" 7)
                   (InsertDeposit.mk "first" None None None None None (Some 7))).
    vm_compute. reflexivity.
  - apply (Hshare (body_share_status "ann" "bob" "thinking of you" 7)
                  (InsertSharedDeposit.mk "ann" "bob" "thinking of you"
                                          None None None None (Some 7))).
    + vm_compute. reflexivity.
    + exists (Connection.mk "c1" "ann" "bob" "accepted" 200 (Some 200)).
      split; [rewrite circle_db_connections; by left|].
      by repeat split.
Defined.

(** ** Listing *)

Global Instance newer_first_total : Total newer_first.
Proof. intros a b. unfold newer_first. lia. Qed.

Global Instance newer_first_transitive : Transitive newer_first.
Proof. intros a b c. unfold newer_first. lia. Qed.

Lemma orderBy_desc_createdAt_Permutation (rows : list Deposit.t) :
  orderBy_desc_createdAt rows ≡ₚ rows.
Proof. apply merge_sort_Permutation. Qed.

Lemma orderBy_desc_createdAt_sorted (rows : list Deposit.t) :
  StronglySorted (λ a b, Deposit.createdAt b ≤ Deposit.createdAt a)
                 (orderBy_desc_createdAt rows).
Proof. apply (StronglySorted_merge_sort newer_first). Qed.

(** C5.  Without [includeInactive=true] the listing holds exactly the
    deposits whose status is not -1, those in cooldown included; with it,
    all deposits; either way each row comes before the rows created no
    later than it. *)
Theorem list_hides_only_inactive (db : Db) (includeInactiveQuery : option string) :
  ∃ rows,
    get_api_deposits db includeInactiveQuery = (Sent 200 rows, db)
    ∧ StronglySorted (λ a b, Deposit.createdAt b ≤ Deposit.createdAt a) rows
    ∧ (includeInactiveQuery = Some "true" → rows ≡ₚ deposits db)
    ∧ (includeInactiveQuery ≠ Some "true" →
       rows ≡ₚ filter (λ d, Deposit.status d ≠ -1) (deposits db)
       ∧ (∀ d, d ∈ rows ↔ d ∈ deposits db ∧ Deposit.status d ≠ -1)
       ∧ (∀ d, d ∈ deposits db → 0 < Deposit.status d → d ∈ rows)).
Proof.
  unfold get_api_deposits. case_bool_decide as Hquery.
  - exists (orderBy_desc_createdAt (deposits db)).
    split; [done|]. split; [apply orderBy_desc_createdAt_sorted|].
    split; [intros _; apply orderBy_desc_createdAt_Permutation|done].
  - exists (orderBy_desc_createdAt
              (filter (λ d, Deposit.status d ≠ -1) (deposits db))).
    split; [done|]. split; [apply orderBy_desc_createdAt_sorted|].
    split; [done|]. intros _.
    assert (∀ d, d ∈ orderBy_desc_createdAt
                       (filter (λ d, Deposit.status d ≠ -1) (deposits db))
                 ↔ d ∈ deposits db ∧ Deposit.status d ≠ -1) as Hiff.
    { intros d. rewrite orderBy_desc_createdAt_Permutation.
      rewrite list_elem_of_filter. tauto. }
    split; [apply orderBy_desc_createdAt_Permutation|]. split; [done|].
    intros d Hd Hcool. apply Hiff. split; [done|lia].
Qed.

(** On the scenario: the default listing is D2, D1 (D3 is hidden) and the
    full listing is D3, D2, D1. *)
Lemma list_hides_only_inactive_witness :
  (∃ rows, get_api_deposits scenario_db None = (Sent 200 rows, scenario_db)
           ∧ Deposit.id <$> rows = ["D2"; "D1"]
           ∧ rows ≡ₚ filter (λ d, Deposit.status d ≠ -1) (deposits scenario_db))
  ∧ (∃ rows, get_api_deposits scenario_db (Some "true")
             = (Sent 200 rows, scenario_db)
             ∧ Deposit.id <$> rows = ["D3"; "D2"; "D1"]
             ∧ rows ≡ₚ deposits scenario_db).
Proof.
  split.
  - destruct (list_hides_only_inactive scenario_db None)
      as (rows & Hreply & _ & _ & Hactive).
    exists rows. split; [done|]. split.
    + vm_compute in Hreply. by injection Hreply as <-.
    + by apply Hactive.
  - destruct (list_hides_only_inactive scenario_db (Some "true"))
      as (rows & Hreply & _ & Hall & _).
    exists rows. split; [done|]. split.
    + vm_compute in Hreply. by injection Hreply as <-.
    + by apply Hall.
Defined.

(** ** Updating a deposit *)

(** C9.  The update route rewrites the rows of the given id in their
    [content], [emotion] and [tags] only and leaves every other row and
    every other table as it was.  An update that carries at least one of
    the three fields answers the updated deposit when the id exists, and
    404 with nothing changed when it does not.  An update that carries
    none of them is answered 500 with nothing changed, whether the id
    exists or not. *)
Theorem update_touches_three_fields (db : Db) (id : string) (body : UpdateData.t) :
  let reply := fst (patch_api_deposits_id db id body) in
  let db' := snd (patch_api_deposits_id db id body) in
  Forall2 (λ d d', same_but_content_emotion_tags d d'
                   ∧ (Deposit.id d ≠ id → d' = d))
          (deposits db) (deposits db')
  ∧ connections db' = connections db
  ∧ circleInvites db' = circleInvites db
  ∧ sharedDeposits db' = sharedDeposits db
  ∧ sharedDepositUsage db' = sharedDepositUsage db
  ∧ (no_values body = true →
     reply = Failed 500 "Failed to update deposit" ∧ db' = db)
  ∧ (no_values body = false →
     ((∃ d, d ∈ deposits db ∧ Deposit.id d = id) →
      ∃ d, d ∈ deposits db ∧ Deposit.id d = id
           ∧ reply = Sent 200 (set_updateData body d))
     ∧ ((¬ ∃ d, d ∈ deposits db ∧ Deposit.id d = id) →
        reply = Failed 404 "Deposit not found" ∧ db' = db)).
Proof.
  intros reply db'.
  assert (db' = with_deposits
                  (update_where (eq_deposits_id id) (set_updateData body)
                                (deposits db)) db) as Hdb'
    by apply snd_patch_api_deposits_id.
  split; [|split; [|split; [|split; [|split; [|split]]]]];
    try (rewrite Hdb'; reflexivity).
  - rewrite Hdb'. simpl. unfold update_where.
    apply Forall2_fmap_r, Forall_Forall2_diag, Forall_forall.
    intros d _. unfold compose, eq_deposits_id. cbn beta.
    case_bool_decide as Hid; [|done].
    split; [done|]. by intros [].
  - intros Hno. subst reply db'. unfold patch_api_deposits_id.
    by rewrite Hno.
  - intros Hsome. split.
    + intros (d0 & Hd0 & Hid0). subst reply. unfold patch_api_deposits_id.
      rewrite Hsome.
      destruct (head _) as [row|] eqn:Hhead.
      * apply head_returning_Some in Hhead as (d & Hd & Hp & ->).
        exists d. unfold eq_deposits_id in Hp.
        by apply bool_decide_eq_true in Hp.
      * pose proof (proj1 (head_returning_None _ _ _) Hhead d0 Hd0) as Hfalse.
        unfold eq_deposits_id in Hfalse.
        by apply bool_decide_eq_false in Hfalse.
    + intros Habsent.
      assert (∀ d, d ∈ deposits db → eq_deposits_id id d = false) as Hnone.
      { intros d Hd. unfold eq_deposits_id. apply bool_decide_eq_false.
        intros Hid. apply Habsent. eauto. }
      split.
      * subst reply. unfold patch_api_deposits_id. rewrite Hsome.
        by rewrite (proj2 (head_returning_None _ _ _) Hnone).
      * rewrite Hdb', update_where_no_match by done. apply with_deposits_same.
Qed.

(** D2 is edited; D9, which does not exist, is answered 404 for an update
    of its content and 500 for the update without fields, as D2 is. *)
Lemma update_touches_three_fields_witness :
  (∃ d, d ∈ deposits scenario_db ∧ Deposit.id d = "D2"
        ∧ fst (patch_api_deposits_id scenario_db "D2"
                 (UpdateData.mk (Some "second, edited") None (Some (Some ["joy"]))))
          = Sent 200 (set_updateData
                        (UpdateData.mk (Some "second, edited") None
                                       (Some (Some ["joy"]))) d))
  ∧ fst (patch_api_deposits_id scenario_db "D9"
           (UpdateData.mk (Some "ninth") None None))
    = Failed 404 "Deposit not found"
  ∧ patch_api_deposits_id scenario_db "D9" (UpdateData.mk None None None)
    = (Failed 500 "Failed to update deposit", scenario_db)
  ∧ patch_api_deposits_id scenario_db "D2" (UpdateData.mk None None None)
    = (Failed 500 "Failed to update deposit", scenario_db).
Proof.
  pose proof scenario_deposits as Hrows.
  split; [|split; [|split]].
  - apply (update_touches_three_fields scenario_db "D2"); [done|].
    exists (Deposit.mk "D2" "second" None None None (Some []) None 5 2000).
    split; [|done]. rewrite Hrows. right. by left.
  - apply (update_touches_three_fields scenario_db "D9"); [done|].
    intros (d & Hd & Hid). rewrite Hrows in Hd.
    repeat (apply elem_of_cons in Hd as [->|Hd]; [discriminate Hid|]).
    by apply not_elem_of_nil in Hd.
  - destruct (update_touches_three_fields scenario_db "D9"
                (UpdateData.mk None None None))
      as (_ & _ & _ & _ & _ & Hfails & _).
    destruct (Hfails eq_refl) as [Hreply Hdb].
    apply injective_projections; [exact Hreply|exact Hdb].
  - destruct (update_touches_three_fields scenario_db "D2"
                (UpdateData.mk None None None))
      as (_ & _ & _ & _ & _ & Hfails & _).
    destruct (Hfails eq_refl) as [Hreply Hdb].
    apply injective_projections; [exact Hreply|exact Hdb].
Defined.

(** ** Connections *)

Lemma paired_intro (db : Db) :
  (∀ a b c, c ∈ connections db → row_from_to a b c →
            ∃ c', c' ∈ connections db ∧ row_from_to b a c') →
  paired db.
Proof.
  intros Hrev a b. split; intros (c & Hc & Hab); by eapply Hrev.
Qed.

(** The accept route either fails and leaves the database alone, or
    appends the two rows and marks the invite. *)
Lemma accept_outcome (db : Db) (code : string) (userId : option string)
    (id1 : string) (now1 : Timestamp) (id2 : string) (now2 : Timestamp) :
  let result :=
    post_api_circle_invites_code_accept db code userId id1 now1 id2 now2 in
  (snd result = db ∧ ∃ status error, fst result = Failed status error)
  ∨ (∃ invite user,
       userId = Some user
       ∧ invite ∈ circleInvites db
       ∧ CircleInvite.inviteCode invite = code
       ∧ CircleInvite.status invite = "pending"
       ∧ CircleInvite.senderId invite ≠ user
       ∧ (∀ c, c ∈ connections db →
               ¬ either_direction (CircleInvite.senderId invite) user c)
       ∧ fst result
         = Sent 200 (Connection.mk id1 (CircleInvite.senderId invite) user
                                   "accepted" now1 (Some now1))
       ∧ connections (snd result)
         = (connections db
            ++ [Connection.mk id1 (CircleInvite.senderId invite) user
                              "accepted" now1 (Some now1);
                Connection.mk id2 user (CircleInvite.senderId invite)
                              "accepted" now2 (Some now2)])%list).
Proof.
  unfold post_api_circle_invites_code_accept.
  destruct userId as [[|ch user]|]; [left; eauto| |left; eauto].
  set (u := String ch user).
  destruct (head (filter _ (circleInvites db))) as [invite|] eqn:Hhead;
    [|left; eauto].
  apply head_Some_elem_of, list_elem_of_filter in Hhead as [Hcode Hinvite].
  destruct (decide (CircleInvite.status invite ≠ "pending")) as [|Hpending];
    [left; eauto|].
  destruct (decide (CircleInvite.senderId invite = u)) as [|Hself];
    [left; eauto|].
  destruct (decide (0 < length _)%nat) as [|Hnone]; [left; eauto|].
  right. exists invite, u. simpl.
  split; [done|]. split; [done|]. split; [done|].
  split; [by apply dec_stable|]. split; [done|].
  split; [|split; [done|by rewrite <- app_assoc]].
  intros c Hc Hdir. apply Hnone.
  assert (c ∈ filter (either_direction (CircleInvite.senderId invite) u)
                     (connections db)) as Hin
    by (by apply list_elem_of_filter).
  destruct (filter _ (connections db)); [by apply not_elem_of_nil in Hin|].
  simpl. lia.
Qed.

(** The remove route either answers 404 and leaves the database alone, or
    deletes every row between the two users of the row it was given. *)
Lemma remove_outcome (db : Db) (id : string) (userId : option string) :
  let result := delete_api_circle_connections_id db id userId in
  (result = (Failed 404 "Connection not found", db)
   ∧ ¬ ∃ c, c ∈ connections db ∧ Connection.id c = id)
  ∨ (∃ connection,
       connection ∈ connections db
       ∧ Connection.id connection = id
       ∧ fst result = Sent 200 true
       ∧ connections (snd result)
         = filter (λ c, ¬ either_direction (Connection.userId connection)
                            (Connection.connectedUserId connection) c)
                  (connections db)).
Proof.
  unfold delete_api_circle_connections_id.
  destruct (head (filter _ (connections db))) as [connection|] eqn:Hhead.
  - right. exists connection.
    apply head_Some_elem_of, list_elem_of_filter in Hhead as [Hid Hin]. done.
  - left. split; [done|]. intros (c & Hc & Hid).
    apply head_None in Hhead.
    by eapply (filter_nil_not_elem_of _ _ c).
Qed.

Lemma accept_keeps_paired (db : Db) (code : string) (userId : option string)
    (id1 : string) (now1 : Timestamp) (id2 : string) (now2 : Timestamp) :
  paired db →
  paired (snd (post_api_circle_invites_code_accept db code userId
                 id1 now1 id2 now2)).
Proof.
  intros Hpaired.
  destruct (accept_outcome db code userId id1 now1 id2 now2)
    as [[-> _]|(invite & user & _ & _ & _ & _ & _ & _ & _ & Hrows)]; [done|].
  apply paired_intro. intros a b c. rewrite Hrows.
  setoid_rewrite elem_of_app. intros [Hc|Hc] Hab.
  - destruct (proj1 (Hpaired a b)) as (c' & Hc' & Hba); eauto.
  - apply elem_of_cons in Hc as [->|Hc].
    { destruct Hab as [<- <-]. eexists. split; [right; right; left|]. done. }
    apply list_elem_of_singleton in Hc as ->.
    destruct Hab as [<- <-]. eexists. split; [right; left|]. done.
Qed.

Lemma remove_keeps_paired (db : Db) (id : string) (userId : option string) :
  paired db →
  paired (snd (delete_api_circle_connections_id db id userId)).
Proof.
  intros Hpaired.
  destruct (remove_outcome db id userId)
    as [[-> _]|(connection & _ & _ & _ & Hrows)]; [done|].
  apply paired_intro. intros a b c. rewrite Hrows.
  setoid_rewrite list_elem_of_filter. intros [Hkeep Hc] Hab.
  destruct (proj1 (Hpaired a b)) as (c' & Hc' & Hba); [eauto|].
  exists c'. split; [|done]. split; [|done].
  intros Hdir. apply Hkeep.
  unfold either_direction, row_from_to in *. destruct Hab, Hba.
  destruct Hdir as [[]|[]]; [right|left]; split; congruence.
Qed.

(** C6.  A successful accept appends exactly two rows, sender to accepter
    and accepter to sender, both [accepted]; a successful remove deletes
    every row between the two users, in both directions, and no other row;
    and after any sequence of accept and remove requests the rows of the
    two directions between any two users both exist or both are missing,
    provided that held before. *)
Theorem connections_come_in_pairs (db : Db) :
  paired db →
  (∀ code userId id1 now1 id2 now2 status connection db',
     post_api_circle_invites_code_accept db code userId id1 now1 id2 now2
     = (Sent status connection, db') →
     ∃ invite user,
       userId = Some user
       ∧ invite ∈ circleInvites db
       ∧ CircleInvite.inviteCode invite = code
       ∧ connections db'
         = (connections db
            ++ [Connection.mk id1 (CircleInvite.senderId invite) user
                              "accepted" now1 (Some now1);
                Connection.mk id2 user (CircleInvite.senderId invite)
                              "accepted" now2 (Some now2)])%list)
  ∧ (∀ id userId status payload db',
       delete_api_circle_connections_id db id userId
       = (Sent status payload, db') →
       ∃ connection,
         connection ∈ connections db
         ∧ Connection.id connection = id
         ∧ (∀ c, c ∈ connections db' →
                 ¬ row_from_to (Connection.userId connection)
                               (Connection.connectedUserId connection) c
                 ∧ ¬ row_from_to (Connection.connectedUserId connection)
                                 (Connection.userId connection) c)
         ∧ (∀ c, c ∈ connections db' ↔
                 c ∈ connections db
                 ∧ ¬ either_direction (Connection.userId connection)
                                      (Connection.connectedUserId connection) c))
  ∧ (∀ reqs, paired (foldl handle_circle db reqs)).
Proof.
  intros Hpaired. split; [|split].
  - intros code userId id1 now1 id2 now2 status connection db' Hres.
    destruct (accept_outcome db code userId id1 now1 id2 now2)
      as [[_ (st & err & Hfail)]
         |(invite & user & Hu & Hin & Hcode & _ & _ & _ & _ & Hrows)].
    + rewrite Hres in Hfail. done.
    + rewrite Hres in Hrows. eauto 10.
  - intros id userId status payload db' Hres.
    destruct (remove_outcome db id userId)
      as [[Hfail _]|(connection & Hin & Hid & _ & Hrows)].
    + rewrite Hres in Hfail. done.
    + rewrite Hres in Hrows. simpl in Hrows.
      exists connection. split; [done|]. split; [done|].
      assert (∀ c, c ∈ connections db' ↔
                   c ∈ connections db
                   ∧ ¬ either_direction (Connection.userId connection)
                         (Connection.connectedUserId connection) c) as Hiff.
      { intros c. rewrite Hrows, list_elem_of_filter. tauto. }
      split; [|done].
      intros c [_ Hkeep]%Hiff. unfold either_direction, row_from_to in *.
      tauto.
  - intros reqs. revert db Hpaired.
    induction reqs as [|req reqs IH]; intros db Hpaired; simpl; [done|].
    apply IH. destruct req; simpl.
    + by apply accept_keeps_paired.
    + by apply remove_keeps_paired.
Qed.

Lemma connections_come_in_pairs_witness :
  connections (foldl handle_circle invited_db
                 [Accept "abc123" (Some "bob") "c1" 200 "c2" 201])
  = [Connection.mk "c1" "ann" "bob" "accepted" 200 (Some 200);
     Connection.mk "c2" "bob" "ann" "accepted" 201 (Some 201)]
  ∧ connections (foldl handle_circle invited_db
                   [Accept "abc123" (Some "bob") "c1" 200 "c2" 201;
                    Remove "c2" (Some "bob")])
    = []
  ∧ paired (foldl handle_circle invited_db
              [Accept "abc123" (Some "bob") "c1" 200 "c2" 201;
               Remove "c2" (Some "bob")]).
Proof.
  split; [vm_compute; reflexivity|]. split; [vm_compute; reflexivity|].
  apply (connections_come_in_pairs invited_db).
  apply paired_intro. intros a b c Hc. by apply not_elem_of_nil in Hc.
Defined.

(** ** Sharing *)



(** ** Sender summary *)

Lemma filter_none {A : Type} (P : A → Prop) `{!∀ x, Decision (P x)}
    (rows : list A) :
  (∀ x, x ∈ rows → ¬ P x) → filter P rows = [].
Proof.
  intros HP. induction rows as [|x rows IH]; [done|].
  rewrite filter_cons_False by (apply HP; by left).
  apply IH. intros y Hy. apply HP. by right.
Qed.

Lemma number_value_small (n : Z) :
  0 ≤ n < 2 ^ 53 → number_value n = JsInt n.
Proof.
  intros [Hlo Hhi]. unfold number_value.
  destruct (decide (Z.log2 n + 1 ≤ 53)) as [|Hbits]; [done|].
  destruct Hbits. destruct (decide (n = 0)) as [->|Hn]; [done|].
  assert (Z.log2 n < 53); [|lia]. apply Z.log2_lt_pow2; lia.
Qed.

Lemma summary_of_sender (db : Db) (userId : string)
    (weeksQuery : option string) :
  (∃ d, d ∈ sharedDeposits db ∧ SharedDeposit.senderId d = userId) →
  get_api_circle_summary_userId db userId weeksQuery
  = (Failed 500 "Failed to get summary", db).
Proof.
  intros (d & Hd & Hsender). unfold get_api_circle_summary_userId.
  rewrite decide_False; [done|].
  rewrite length_fmap. intros Hnone%length_zero_iff_nil.
  by eapply (filter_nil_not_elem_of _ _ d).
Qed.

Lemma summary_of_other (db : Db) (userId : string)
    (weeksQuery : option string) :
  (∀ d, d ∈ sharedDeposits db → SharedDeposit.senderId d ≠ userId) →
  get_api_circle_summary_userId db userId weeksQuery
  = (Sent 200 (Summary.mk 0 0 (number_or (parseInt weeksQuery) 2)), db).
Proof.
  intros Hnone. unfold get_api_circle_summary_userId.
  rewrite decide_True; [done|].
  rewrite length_fmap. apply length_zero_iff_nil, filter_none. done.
Qed.

(** C8.  The summary answers a user who has sent no shared deposit zero
    counts and the weeks asked for, two without the parameter.  A user who
    has sent a shared deposit gets no counts: the query of the usages fails
    and the route answers 500, whatever the ledger holds and whatever the
    weeks; the ledger rows are not counted. *)
Theorem summary_fails_for_senders (db : Db) (userId : string)
    (weeksQuery : option string) :
  ((∃ d, d ∈ sharedDeposits db ∧ SharedDeposit.senderId d = userId) →
   get_api_circle_summary_userId db userId weeksQuery
   = (Failed 500 "Failed to get summary", db))
  ∧ ((∀ d, d ∈ sharedDeposits db → SharedDeposit.senderId d ≠ userId) →
     (∀ n, 0 < n < 2 ^ 53 → parseInt weeksQuery = JsInt n →
           get_api_circle_summary_userId db userId weeksQuery
           = (Sent 200 (Summary.mk 0 0 (JsInt n)), db))
     ∧ (weeksQuery = None →
        get_api_circle_summary_userId db userId weeksQuery
        = (Sent 200 (Summary.mk 0 0 (JsInt 2)), db))).
Proof.
  split; [apply summary_of_sender|].
  intros Hnone. rewrite (summary_of_other db userId weeksQuery Hnone).
  split.
  - intros n Hn ->. simpl. rewrite decide_False by lia. done.
  - by intros ->.
Qed.

(** Ann has shared S1 and the ledger has a use of it in the last two
    weeks, the one row the specification counts; the route answers 500. *)
Lemma summary_fails_for_senders_witness :
  spec_totalUses summary_db "ann" 2 6000 = 1%nat
  ∧ spec_helpfulUses summary_db "ann" 2 6000 = 1%nat
  ∧ get_api_circle_summary_userId summary_db "ann" (Some "2")
    = (Failed 500 "Failed to get summary", summary_db)
  ∧ get_api_circle_summary_userId summary_db "bob" (Some "2")
    = (Sent 200 (Summary.mk 0 0 (JsInt 2)), summary_db).
Proof.
  assert (sharedDeposits summary_db
          = [SharedDeposit.mk "S1" "ann" "bob" "hello" None None None
                              (Some []) 30 (Some 5000) 1000])
    as Hrows by (vm_compute; reflexivity).
  split; [vm_compute; reflexivity|]. split; [vm_compute; reflexivity|].
  destruct (summary_fails_for_senders summary_db "ann" (Some "2"))
    as [Hann _].
  destruct (summary_fails_for_senders summary_db "bob" (Some "2"))
    as [_ Hbob].
  split.
  - apply Hann. eexists. rewrite Hrows. split; [by left|done].
  - assert (∀ d, d ∈ sharedDeposits summary_db
                 → SharedDeposit.senderId d ≠ "bob") as Hnone.
    { rewrite Hrows. intros d ->%list_elem_of_singleton. done. }
    destruct (Hbob Hnone) as [Hweeks _].
    apply (Hweeks 2); [|reflexivity]. split; [done|reflexivity].
Defined.

(** C10.  The weeks of the summary are 2 when the parameter is missing,
    does not parse, or parses to 0; a negative number is not refused and
    is used as it is.  The answer to a user without sent deposits carries
    those weeks, with zero counts.  A user who has sent a shared deposit is
    answered 500 whatever the parameter: a negative number of weeks does
    not give that user zero counts. *)
Theorem summary_weeks_fallback (db : Db) (userId : string)
    (weeksQuery : option string) :
  let weeksBack := number_or (parseInt weeksQuery) 2 in
  (weeksQuery = None ∨ parseInt weeksQuery = JsNaN
   ∨ parseInt weeksQuery = JsInt 0 → weeksBack = JsInt 2)
  ∧ (∀ n, parseInt weeksQuery = JsInt n → n < 0 → weeksBack = JsInt n)
  ∧ ((∀ d, d ∈ sharedDeposits db → SharedDeposit.senderId d ≠ userId) →
     get_api_circle_summary_userId db userId weeksQuery
     = (Sent 200 (Summary.mk 0 0 weeksBack), db))
  ∧ ((∃ d, d ∈ sharedDeposits db ∧ SharedDeposit.senderId d = userId) →
     get_api_circle_summary_userId db userId weeksQuery
     = (Failed 500 "Failed to get summary", db)).
Proof.
  intros weeksBack. subst weeksBack.
  split; [|split; [|split]].
  - intros [->|[->| ->]]; done.
  - intros n -> Hn. simpl. by rewrite decide_False by lia.
  - apply summary_of_other.
  - apply summary_of_sender.
Qed.

(** Ann, who has shared S1, asks for the summary of minus three weeks and
    is answered 500; Bob, who has shared nothing, is answered zero counts
    for minus three weeks, and for two weeks when the parameter does not
    parse or is 0. *)
Lemma summary_weeks_fallback_witness :
  get_api_circle_summary_userId summary_db "ann" (Some "-3")
  = (Failed 500 "Failed to get summary", summary_db)
  ∧ get_api_circle_summary_userId summary_db "bob" (Some "-3")
    = (Sent 200 (Summary.mk 0 0 (JsInt (-3))), summary_db)
  ∧ number_or (parseInt (Some "soon")) 2 = JsInt 2
  ∧ number_or (parseInt (Some "0")) 2 = JsInt 2
  ∧ number_or (parseInt None) 2 = JsInt 2.
Proof.
  assert (sharedDeposits summary_db
          = [SharedDeposit.mk "S1" "ann" "bob" "hello" None None None
                              (Some []) 30 (Some 5000) 1000])
    as Hrows by (vm_compute; reflexivity).
  destruct (summary_weeks_fallback summary_db "ann" (Some "-3"))
    as (_ & _ & _ & Hann).
  destruct (summary_weeks_fallback summary_db "bob" (Some "-3"))
    as (_ & Hneg & Hbob & _).
  split; [|split; [|split; [|split]]].
  - apply Hann. eexists. rewrite Hrows. split; [by left|done].
  - rewrite Hbob.
    + by rewrite (Hneg (-3)).
    + rewrite Hrows. intros d ->%list_elem_of_singleton. done.
  - apply (proj1 (summary_weeks_fallback summary_db "bob" (Some "soon"))).
    right. left. reflexivity.
  - apply (proj1 (summary_weeks_fallback summary_db "bob" (Some "0"))).
    right. right. reflexivity.
  - apply (proj1 (summary_weeks_fallback summary_db "bob" None)).
    left. reflexivity.
Defined.

(** * Further properties of the routes *)

(** ** Statistics *)

(** X1.  The statistics leave soft-deleted deposits out of every count.  The
    total is the active ones plus those in cooldown plus those with a status
    below -1; with every status in the data model it is the active ones plus
    those in cooldown. *)
Theorem stats_counts_add_up (db : Db) (logs : list RainyDayLog.t) :
  ∃ s, get_api_stats db logs = Sent 200 s
       ∧ (Stats.totalDeposits s
          + length (filter (λ d, Deposit.status d = -1)%Z (deposits db)))%nat
         = length (deposits db)
       ∧ Stats.totalDeposits s
         = (Stats.activeDeposits s + Stats.cooldownDeposits s
            + length (filter (λ d, Deposit.status d < -1)%Z (deposits db)))%nat
       ∧ (statuses_in_model db →
          Stats.totalDeposits s
          = (Stats.activeDeposits s + Stats.cooldownDeposits s)%nat)
       ∧ Stats.totalRainyDays s = length logs.
Proof.
  unfold get_api_stats. eexists. split; [reflexivity|]. simpl.
  rewrite !list_filter_filter.
  assert (∀ rows : list Deposit.t,
            (length (filter (λ d, Deposit.status d ≠ -1)%Z rows)
             + length (filter (λ d, Deposit.status d = -1)%Z rows))%nat
            = length rows
            ∧ length (filter (λ d, Deposit.status d ≠ -1)%Z rows)
              = (length (filter (λ d, Deposit.status d = 0
                                      ∧ Deposit.status d ≠ -1)%Z rows)
                 + length (filter (λ d, 0 < Deposit.status d
                                        ∧ Deposit.status d ≠ -1)%Z rows)
                 + length (filter (λ d, Deposit.status d < -1)%Z rows))%nat)
    as Hcount.
  { induction rows as [|d rows [IH1 IH2]]; [done|].
    rewrite !filter_cons. repeat case_decide; simpl; lia. }
  destruct (Hcount (deposits db)) as [Hall Hsplit].
  split; [done|]. split; [done|]. split; [|done].
  intros Hmodel. rewrite Hsplit.
  rewrite (filter_none (λ d, Deposit.status d < -1)%Z); [simpl; lia|].
  intros d Hd Hlow. unfold statuses_in_model in Hmodel.
  rewrite Forall_forall in Hmodel. specialize (Hmodel d Hd).
  unfold status_in_model in Hmodel. lia.
Qed.

Lemma stats_counts_add_up_witness :
  statuses_in_model scenario_db
  ∧ ∃ s, get_api_stats scenario_db [] = Sent 200 s
         ∧ Stats.totalDeposits s
           = (Stats.activeDeposits s + Stats.cooldownDeposits s)%nat.
Proof.
  assert (statuses_in_model scenario_db) as Hmodel.
  { unfold statuses_in_model. rewrite scenario_deposits.
    repeat constructor; unfold status_in_model; simpl; lia. }
  split; [exact Hmodel|].
  destruct (stats_counts_add_up scenario_db [])
    as (s & Hreply & _ & _ & Hsum & _).
  exists s. split; [exact Hreply|exact (Hsum Hmodel)].
Defined.

(** ** What the deposit routes never do *)

Lemma fixed_fields_update_where (p : Deposit.t → bool) (f : Deposit.t → Deposit.t)
    (rows : list Deposit.t) :
  (∀ d, fixed_fields (f d) = fixed_fields d) →
  fixed_fields <$> update_where p f rows = fixed_fields <$> rows.
Proof.
  intros Hf. unfold update_where. rewrite <- list_fmap_compose.
  apply list_fmap_ext. intros _ d _. simpl. destruct (p d); [apply Hf|done].
Qed.

Lemma fixed_fields_handle (db : Db) (req : Request) :
  fixed_fields <$> deposits (handle db req)
  = ((fixed_fields <$> deposits db) ++ created_fields req)%list.
Proof.
  destruct req as [body newId now|id body|id body|id|id now|excl random];
    simpl; rewrite ?app_nil_r.
  - unfold post_api_deposits.
    destruct (insertDepositSchema_safeParse body) as [data|]; simpl;
      [|by rewrite app_nil_r].
    by rewrite fmap_app.
  - rewrite snd_patch_api_deposits_id. simpl.
    by rewrite fixed_fields_update_where.
  - destruct (snd_patch_api_deposits_id_status db id body)
      as [->|(status & _ & _ & ->)]; [done|].
    simpl. by rewrite fixed_fields_update_where.
  - rewrite snd_delete_api_deposits_id. simpl.
    by rewrite fixed_fields_update_where.
  - rewrite snd_patch_api_deposits_id_surface. simpl.
    by rewrite fixed_fields_update_where.
  - by rewrite snd_get_api_deposits_surface.
Qed.

(** X2.  No sequence of requests to the deposit routes removes a row or
    changes the id, the creation time or the media of a row, and only a
    create with a valid body adds a row: taken without their order, the
    ids, creation times and media of the rows afterwards are those of the
    rows before together with those of the deposits created. *)
Theorem deposit_rows_stay (db : Db) (reqs : list Request) :
  fixed_fields <$> deposits (handle_all db reqs)
  ≡ₚ ((fixed_fields <$> deposits db) ++ (reqs ≫= created_fields))%list.
Proof.
  unfold handle_all. revert db.
  induction reqs as [|req reqs IH]; intros db; simpl.
  - by rewrite app_nil_r.
  - rewrite IH, fixed_fields_handle. by rewrite <- (assoc_L (++)).
Qed.

(** ** Soft delete and reactivation *)

Lemma elem_of_get_api_deposits (db : Db) (includeInactiveQuery : option string)
    (d : Deposit.t) :
  ∃ rows, get_api_deposits db includeInactiveQuery = (Sent 200 rows, db)
          ∧ (d ∈ rows ↔
             d ∈ deposits db
             ∧ (includeInactiveQuery = Some "true" ∨ Deposit.status d ≠ -1)).
Proof.
  unfold get_api_deposits. case_bool_decide as Hquery; eexists;
    (split; [reflexivity|]); rewrite orderBy_desc_createdAt_Permutation.
  - tauto.
  - rewrite list_elem_of_filter. tauto.
Qed.

(** X3.  Soft-deleting an id that exists answers success; afterwards the
    default listing shows no deposit of that id, the full listing still
    shows every one of them, with status -1, and no [surface] call
    returns one. *)
Theorem soft_delete_hides_and_keeps (db : Db) (id : string) :
  (∃ d, d ∈ deposits db ∧ Deposit.id d = id) →
  let db' := snd (delete_api_deposits_id db id) in
  fst (delete_api_deposits_id db id) = Sent 200 true
  ∧ length (deposits db') = length (deposits db)
  ∧ (∀ rows d, fst (get_api_deposits db' None) = Sent 200 rows →
               d ∈ rows → Deposit.id d ≠ id)
  ∧ (∃ rows d, fst (get_api_deposits db' (Some "true")) = Sent 200 rows
               ∧ d ∈ rows ∧ Deposit.id d = id ∧ Deposit.status d = -1)
  ∧ (∀ excludeParam random d,
       fst (get_api_deposits_surface db' excludeParam random)
       = Sent 200 (Some d) →
       Deposit.id d ≠ id).
Proof.
  intros (d0 & Hd0 & Hid0) db'.
  assert (deposits db'
          = update_where (eq_deposits_id id) (set_status (-1)) (deposits db))
    as Hrows by (subst db'; by rewrite snd_delete_api_deposits_id).
  assert (∀ d, d ∈ deposits db' → Deposit.id d = id → Deposit.status d = -1)
    as Hgone.
  { intros d Hd Hid. rewrite Hrows in Hd.
    apply elem_of_update_where in Hd as (r & _ & ->).
    unfold eq_deposits_id in *. case_bool_decide as Hr; [done|].
    by destruct Hr. }
  split; [|split; [|split; [|split]]].
  - unfold delete_api_deposits_id.
    destruct (head _) as [row|] eqn:Hhead; [done|].
    pose proof (proj1 (head_returning_None _ _ _) Hhead d0 Hd0) as Hfalse.
    unfold eq_deposits_id in Hfalse.
    by apply bool_decide_eq_false in Hfalse.
  - by rewrite Hrows, length_update_where.
  - intros rows d Hreply Hd Hid.
    destruct (elem_of_get_api_deposits db' None d) as (rows' & Hrows' & Hiff).
    rewrite Hrows' in Hreply. injection Hreply as <-.
    apply Hiff in Hd as [Hin [|Hstatus]]; [done|].
    by apply Hstatus, Hgone.
  - destruct (elem_of_get_api_deposits db' (Some "true") (set_status (-1) d0))
      as (rows & Hreply & Hiff).
    exists rows, (set_status (-1) d0). rewrite Hreply.
    split; [done|]. split; [|done].
    apply Hiff. split; [|by left].
    rewrite Hrows. apply elem_of_update_where. exists d0.
    split; [done|]. unfold eq_deposits_id. by rewrite bool_decide_eq_true_2.
  - intros excludeParam random d Hd Hid.
    apply surface_reply_eligible in Hd as (Hin & Hstatus & _).
    specialize (Hgone d Hin Hid). lia.
Qed.

Lemma soft_delete_hides_and_keeps_witness :
  (∃ d, d ∈ deposits scenario_db ∧ Deposit.id d = "D1")
  ∧ fst (delete_api_deposits_id scenario_db "D1") = Sent 200 true
  ∧ ∀ rows d,
      fst (get_api_deposits (snd (delete_api_deposits_id scenario_db "D1")) None)
      = Sent 200 rows →
      d ∈ rows → Deposit.id d ≠ "D1".
Proof.
  assert (∃ d, d ∈ deposits scenario_db ∧ Deposit.id d = "D1") as Hexists.
  { exists (Deposit.mk "D1" "first" None None None (Some []) None 0 1000).
    split; [|reflexivity]. rewrite scenario_deposits. by left. }
  split; [exact Hexists|].
  destruct (soft_delete_hides_and_keeps scenario_db "D1" Hexists)
    as (Hreply & _ & Hhidden & _).
  split; [exact Hreply|exact Hhidden].
Defined.

(** X4.  A deposit made active again by the set-status route, with status
    0, can be surfaced again: when it is the only deposit that is active
    and not excluded, every draw returns it. *)
Theorem reactivated_deposit_is_surfaced (db : Db) (id : string)
    (excludeParam : option string) (random : Random) :
  unit_interval random →
  (∃ d, d ∈ deposits db ∧ Deposit.id d = id) →
  id ∉ excludeIds_of excludeParam →
  (∀ d, d ∈ deposits db → Deposit.id d ≠ id →
        Deposit.status d ≠ 0 ∨ Deposit.id d ∈ excludeIds_of excludeParam) →
  let db' := snd (patch_api_deposits_id_status db id (body_status 0)) in
  ∃ d, fst (get_api_deposits_surface db' excludeParam random)
       = Sent 200 (Some d)
       ∧ Deposit.id d = id ∧ Deposit.status d = 0.
Proof.
  intros Hrandom (d0 & Hd0 & Hid0) Hnotex Hothers db'.
  assert (deposits db'
          = update_where (eq_deposits_id id) (set_status 0) (deposits db))
    as Hrows.
  { subst db'. unfold patch_api_deposits_id_status, body_status.
    rewrite lookup_singleton_eq. simpl. by destruct (head _). }
  assert (eligible db' (excludeIds_of excludeParam) (set_status 0 d0)) as Hel.
  { split; [|split; [done|by rewrite <- Hid0 in Hnotex]].
    rewrite Hrows. apply elem_of_update_where. exists d0.
    split; [done|]. unfold eq_deposits_id. by rewrite bool_decide_eq_true_2. }
  unfold get_api_deposits_surface. rewrite surface_candidates.
  set (rows := filter _ (deposits db')).
  assert (rows ≠ []) as Hne.
  { intros Hnil. apply elem_of_surface_candidates in Hel. fold rows in Hel.
    rewrite Hnil in Hel. by apply not_elem_of_nil in Hel. }
  rewrite decide_False by (by intros ?%length_zero_iff_nil). simpl.
  destruct (js_index_in_range rows random Hrandom Hne) as (d & -> & Hd).
  exists d. split; [done|].
  apply elem_of_surface_candidates in Hd as (Hin & Hstatus & Hex).
  split; [|done].
  rewrite Hrows in Hin. apply elem_of_update_where in Hin as (r & Hr & ->).
  unfold eq_deposits_id in *. case_bool_decide as Hrid; [done|].
  destruct (Hothers r Hr Hrid); done.
Qed.

(** D1 was surfaced and is in cooldown; set back to 0 it is surfaced
    again. *)
Lemma reactivated_deposit_is_surfaced_witness :
  unit_interval one_half
  ∧ ∃ d, fst (get_api_deposits_surface
                (snd (patch_api_deposits_id_status
                        (snd (patch_api_deposits_id_surface scenario_db "D1" 5000))
                        "D1" (body_status 0)))
                None one_half)
         = Sent 200 (Some d)
         ∧ Deposit.id d = "D1" ∧ Deposit.status d = 0.
Proof.
  assert (unit_interval one_half) as Hrandom
    by (unfold unit_interval; simpl; lia).
  split; [exact Hrandom|].
  assert (deposits (snd (patch_api_deposits_id_surface scenario_db "D1" 5000))
          = [Deposit.mk "D1" "first" None None None (Some []) (Some 5000) 30 1000;
             Deposit.mk "D2" "second" None None None (Some []) None 5 2000;
             Deposit.mk "D3" "third" None None None (Some []) None (-1) 3000])
    as Hrows by (vm_compute; reflexivity).
  apply (reactivated_deposit_is_surfaced _ "D1" None one_half Hrandom).
  - eexists. rewrite Hrows. split; [by left|done].
  - apply not_elem_of_nil.
  - intros d Hd Hid. rewrite Hrows in Hd. left.
    repeat (apply elem_of_cons in Hd as [->|Hd]; [done|]).
    by apply not_elem_of_nil in Hd.
Defined.

(** X5.  Every deposit that is active and not excluded can be the one
    [surface] returns: some draw of [Math.random()] selects it. *)
Theorem surface_reaches_every_eligible (db : Db) (excludeParam : option string)
    (d : Deposit.t) :
  eligible db (excludeIds_of excludeParam) d →
  ∃ random, unit_interval random
            ∧ fst (get_api_deposits_surface db excludeParam random)
              = Sent 200 (Some d).
Proof.
  intros Hel. apply elem_of_surface_candidates in Hel.
  apply list_elem_of_lookup in Hel as [i Hi].
  set (rows := filter _ (deposits db)) in *.
  pose proof (lookup_lt_Some _ _ _ Hi) as Hlt.
  exists (mkRandom (Z.of_nat i) (Z.of_nat (length rows))).
  split; [unfold unit_interval; simpl; lia|].
  unfold get_api_deposits_surface. rewrite surface_candidates. fold rows.
  rewrite decide_False by lia. simpl.
  unfold js_index, floor_scaled. simpl.
  rewrite Z.div_mul by lia.
  rewrite decide_True by lia. by rewrite Nat2Z.id, Hi.
Qed.

Lemma surface_reaches_every_eligible_witness :
  ∃ random, unit_interval random
            ∧ fst (get_api_deposits_surface scenario_db None random)
              = Sent 200 (Some (Deposit.mk "D1" "first" None None None
                                           (Some []) None 0 1000)).
Proof.
  apply (surface_reaches_every_eligible scenario_db None).
  split; [rewrite scenario_deposits; by left|].
  split; [done|apply not_elem_of_nil].
Defined.

(** ** Feedback on a rainy-day log *)

Lemma rating_let_through (rating : option Json) :
  rating_refused rating = false →
  rating = None ∨ rating_in_scale (rating_value rating) ∧ is_Some (rating_value rating).
Proof.
  destruct rating as [[| |n| |]|]; simpl; try done; [|by left].
  intros Hn. right.
  apply andb_false_iff in Hn as [Hn|Hn];
    [apply andb_false_iff in Hn as [Hn|Hn]|];
    apply bool_decide_eq_false in Hn; apply dec_stable in Hn; subst;
    unfold rating_in_scale; eauto.
Qed.

Lemma snd_patch_api_rainy_day_logs_id_feedback (logs : list RainyDayLog.t)
    (id : string) (body : FeedbackBody.t) :
  snd (patch_api_rainy_day_logs_id_feedback logs id body)
  = if rating_refused (FeedbackBody.rating body) then logs
    else update_where (eq_rainyDayLogs_id id) (set_feedback body) logs.
Proof.
  unfold patch_api_rainy_day_logs_id_feedback.
  destruct (rating_refused _); [done|].
  destruct (no_feedback body) eqn:Hno; [|by destruct (head _)].
  destruct body as [[r|] [n|]]; try discriminate Hno.
  simpl. unfold update_where. symmetry. etrans; [|apply list_fmap_id].
  apply list_fmap_ext. intros i l _. simpl.
  destruct (eq_rainyDayLogs_id id l); [|done]. by destruct l.
Qed.

(** X6.  The feedback route refuses, with 400 and no write, a rating that
    is not the number 2, 1 or -1; so it never brings a rating outside that
    scale into the table.  What it does write goes to the rows of the given
    id, into their rating and note only.  A body with a rating or a note
    for an id that is missing is answered 404 with the table unchanged; a
    body with neither is answered 500 with the table unchanged, whether the
    id exists or not. *)
Theorem feedback_keeps_rating_scale (logs : list RainyDayLog.t) (id : string)
    (body : FeedbackBody.t) :
  let reply := fst (patch_api_rainy_day_logs_id_feedback logs id body) in
  let logs' := snd (patch_api_rainy_day_logs_id_feedback logs id body) in
  (rating_refused (FeedbackBody.rating body) = true →
   reply = Failed 400 "Rating must be 2 (loved it), 1 (helpful), or -1 (not helpful)"
   ∧ logs' = logs)
  ∧ (Forall (λ l, rating_in_scale (RainyDayLog.rating l)) logs →
     Forall (λ l, rating_in_scale (RainyDayLog.rating l)) logs')
  ∧ Forall2 (λ l l', same_log_but_feedback l l'
                     ∧ (RainyDayLog.id l ≠ id → l' = l))
            logs logs'
  ∧ (∀ code row, reply = Sent code row →
       ∃ l, l ∈ logs ∧ RainyDayLog.id l = id ∧ row = set_feedback body l
            ∧ row ∈ logs')
  ∧ ((¬ ∃ l, l ∈ logs ∧ RainyDayLog.id l = id) →
     rating_refused (FeedbackBody.rating body) = false →
     no_feedback body = false →
     reply = Failed 404 "Log not found" ∧ logs' = logs)
  ∧ (no_feedback body = true →
     reply = Failed 500 "Failed to update feedback" ∧ logs' = logs).
Proof.
  intros reply logs'.
  pose proof (snd_patch_api_rainy_day_logs_id_feedback logs id body) as Hlogs'.
  fold logs' in Hlogs'.
  split; [|split; [|split; [|split; [|split]]]].
  - intros Hrefused. subst reply logs'.
    unfold patch_api_rainy_day_logs_id_feedback. by rewrite Hrefused.
  - intros Hscale. rewrite Hlogs'.
    destruct (rating_refused _) eqn:Hok; [done|].
    apply Forall_update_where; [done|].
    intros l Hl _. simpl.
    destruct (rating_let_through _ Hok) as [->|[Hin Hsome]].
    + rewrite Forall_forall in Hscale. by apply Hscale.
    + destruct (FeedbackBody.rating body); [done|].
      by destruct Hsome.
  - rewrite Hlogs'. destruct (rating_refused _).
    + apply Forall_Forall2_diag, Forall_forall. intros l _.
      by repeat split.
    + unfold update_where.
      apply Forall2_fmap_r, Forall_Forall2_diag, Forall_forall.
      intros l _. unfold compose, eq_rainyDayLogs_id. cbn beta.
      case_bool_decide as Hid; [|by repeat split].
      split; [by repeat split|]. by intros [].
  - intros code row. subst reply.
    unfold patch_api_rainy_day_logs_id_feedback in *.
    destruct (rating_refused _); [done|].
    destruct (no_feedback body); [done|].
    destruct (head _) as [row'|] eqn:Hhead; [|done].
    intros [= _ <-].
    apply head_returning_Some in Hhead as (l & Hl & Hp & ->).
    exists l. unfold eq_rainyDayLogs_id in Hp.
    apply bool_decide_eq_true in Hp.
    split; [done|]. split; [done|]. split; [done|].
    simpl in Hlogs'. rewrite Hlogs'. apply elem_of_update_where.
    exists l. split; [done|]. unfold eq_rainyDayLogs_id.
    by rewrite bool_decide_eq_true_2.
  - intros Habsent Hok Hsome.
    assert (∀ l, l ∈ logs → eq_rainyDayLogs_id id l = false) as Hnone.
    { intros l Hl. unfold eq_rainyDayLogs_id. apply bool_decide_eq_false.
      intros Hid. apply Habsent. eauto. }
    split.
    + subst reply. unfold patch_api_rainy_day_logs_id_feedback.
      rewrite Hok, Hsome. by rewrite (proj2 (head_returning_None _ _ _) Hnone).
    + rewrite Hlogs', Hok. by apply update_where_no_match.
  - intros Hno. subst reply logs'.
    unfold patch_api_rainy_day_logs_id_feedback.
    assert (rating_refused (FeedbackBody.rating body) = false) as ->.
    { unfold no_feedback in Hno. by destruct (FeedbackBody.rating body). }
    by rewrite Hno.
Qed.

(** A rating of 3 is refused; a rating of 2 on L1 keeps the scale; the same
    on L9, which does not exist, is answered 404; the empty body is
    answered 500 on L1 and on L9. *)
Lemma feedback_keeps_rating_scale_witness :
  fst (patch_api_rainy_day_logs_id_feedback logs_example "L1"
         (FeedbackBody.mk (Some (JNum 3)) None))
  = Failed 400 "Rating must be 2 (loved it), 1 (helpful), or -1 (not helpful)"
  ∧ Forall (λ l, rating_in_scale (RainyDayLog.rating l))
           (snd (patch_api_rainy_day_logs_id_feedback logs_example "L1"
                   (FeedbackBody.mk (Some (JNum 2)) None)))
  ∧ fst (patch_api_rainy_day_logs_id_feedback logs_example "L9"
           (FeedbackBody.mk (Some (JNum 2)) None))
    = Failed 404 "Log not found"
  ∧ fst (patch_api_rainy_day_logs_id_feedback logs_example "L1"
           (FeedbackBody.mk None None))
    = Failed 500 "Failed to update feedback"
  ∧ fst (patch_api_rainy_day_logs_id_feedback logs_example "L9"
           (FeedbackBody.mk None None))
    = Failed 500 "Failed to update feedback".
Proof.
  split; [|split; [|split; [|split]]].
  - apply (feedback_keeps_rating_scale logs_example "L1"
             (FeedbackBody.mk (Some (JNum 3)) None)). reflexivity.
  - apply (feedback_keeps_rating_scale logs_example "L1"
             (FeedbackBody.mk (Some (JNum 2)) None)).
    unfold logs_example, rating_in_scale.
    apply Forall_cons; split; [by left|].
    apply Forall_singleton. right; right; by left.
  - apply (feedback_keeps_rating_scale logs_example "L9"
             (FeedbackBody.mk (Some (JNum 2)) None));
      [|reflexivity|reflexivity].
    intros (l & Hl & Hid). unfold logs_example in Hl.
    repeat (apply elem_of_cons in Hl as [->|Hl]; [discriminate Hid|]).
    by apply not_elem_of_nil in Hl.
  - apply (feedback_keeps_rating_scale logs_example "L1"
             (FeedbackBody.mk None None)). reflexivity.
  - apply (feedback_keeps_rating_scale logs_example "L9"
             (FeedbackBody.mk None None)). reflexivity.
Defined.

(** X7.  Feedback is last write wins, field by field: two accepted
    feedback requests on one log leave the table as the single request that
    carries, for the rating and for the note, the later value sent. *)
Theorem feedback_last_write_wins (logs : list RainyDayLog.t) (id : string)
    (first second : FeedbackBody.t) :
  rating_refused (FeedbackBody.rating first) = false →
  rating_refused (FeedbackBody.rating second) = false →
  snd (patch_api_rainy_day_logs_id_feedback
         (snd (patch_api_rainy_day_logs_id_feedback logs id first)) id second)
  = snd (patch_api_rainy_day_logs_id_feedback logs id
           (later_feedback first second))
  ∧ rating_refused (FeedbackBody.rating (later_feedback first second)) = false.
Proof.
  intros Hfirst Hsecond.
  assert (rating_refused (FeedbackBody.rating (later_feedback first second))
          = false) as Hlater.
  { unfold later_feedback. simpl. by destruct (FeedbackBody.rating second). }
  split; [|done].
  rewrite !snd_patch_api_rainy_day_logs_id_feedback, Hfirst, Hsecond, Hlater.
  unfold update_where. rewrite <- list_fmap_compose.
  apply list_fmap_ext. intros _ l _. simpl.
  unfold eq_rainyDayLogs_id.
  destruct (decide (RainyDayLog.id l = id)) as [Hid|Hid].
  - rewrite (bool_decide_eq_true_2 (RainyDayLog.id l = id)) by done.
    rewrite (bool_decide_eq_true_2 (RainyDayLog.id (set_feedback first l) = id))
      by done.
    unfold set_feedback, later_feedback. simpl.
    destruct (FeedbackBody.rating second), (FeedbackBody.feedbackNote second);
      reflexivity.
  - rewrite (bool_decide_eq_false_2 (RainyDayLog.id l = id)) by done.
    by rewrite (bool_decide_eq_false_2 (RainyDayLog.id l = id)).
Qed.

Lemma feedback_last_write_wins_witness :
  RainyDayLog.rating
    <$> snd (patch_api_rainy_day_logs_id_feedback
               (snd (patch_api_rainy_day_logs_id_feedback logs_example "L1"
                       (FeedbackBody.mk (Some (JNum (-1))) None)))
               "L1" (FeedbackBody.mk (Some (JNum 2)) (Some (Some "better now"))))
  = [Some 2; Some 1].
Proof.
  destruct (feedback_last_write_wins logs_example "L1"
              (FeedbackBody.mk (Some (JNum (-1))) None)
              (FeedbackBody.mk (Some (JNum 2)) (Some (Some "better now"))))
    as [-> _]; reflexivity.
Defined.

(** ** The current user *)

Lemma head_filter_None {A : Type} (P : A → Prop) `{!∀ x, Decision (P x)}
    (rows : list A) :
  head (filter P rows) = None ↔ ∀ x, x ∈ rows → ¬ P x.
Proof.
  rewrite head_None. split.
  - intros Hnil x Hx HP. by eapply (filter_nil_not_elem_of P rows x).
  - apply filter_none.
Qed.

Lemma head_filter_Some {A : Type} (P : A → Prop) `{!∀ x, Decision (P x)}
    (rows : list A) (x : A) :
  head (filter P rows) = Some x → x ∈ rows ∧ P x.
Proof.
  intros Hhead%head_Some_elem_of%list_elem_of_filter. tauto.
Qed.

Lemma head_filter_app_new {A : Type} (P : A → Prop) `{!∀ x, Decision (P x)}
    (rows : list A) (x : A) :
  (∀ y, y ∈ rows → ¬ P y) → P x → head (filter P (rows ++ [x])%list) = Some x.
Proof.
  intros Hnone Hx. rewrite filter_app, (filter_none P rows) by done.
  simpl. by rewrite (filter_cons_True P x []).
Qed.

(** X8.  Without a device id, a missing one or the empty string, the
    route answers 400 and writes nothing, whatever else the body carries.
    Asked with a device id alone, as the client asks, it gets the user of
    that name or, when there is none, creates one; asked again it answers
    the same user and writes nothing. *)
Theorem current_user_is_get_or_create (users : list User.t)
    (deviceId : option string) (newId password newId' password' : string) :
  (truthy deviceId = false →
   ∀ displayName email phone,
     post_api_users_current users deviceId displayName email phone
                            newId password
     = (Failed 400 "Device ID required", users))
  ∧ (truthy deviceId = true →
     let first :=
       post_api_users_current users deviceId None None None newId password in
     ∃ u, deviceId = Some (User.username u)
          ∧ ((fst first = Sent 200 u ∧ snd first = users ∧ u ∈ users)
             ∨ (fst first = Sent 201 u ∧ snd first = (users ++ [u])%list
                ∧ User.id u = newId
                ∧ ∀ u', u' ∈ users → User.username u' ≠ User.username u))
          ∧ post_api_users_current (snd first) deviceId None None None
                                   newId' password'
            = (Sent 200 u, snd first)).
Proof.
  split.
  - intros Hfalsy displayName email phone. unfold post_api_users_current.
    by destruct deviceId as [[|c s]|].
  - intros Htruthy first. subst first.
    destruct deviceId as [[|c s]|]; try discriminate Htruthy.
    unfold post_api_users_current at 1 2 3 4 5. simpl.
    destruct (head (filter _ users)) as [existingUser|] eqn:Hhead.
    + exists existingUser.
      pose proof (head_filter_Some _ _ _ Hhead) as [Hin Hname].
      split; [by rewrite Hname|]. split; [left; done|].
      unfold post_api_users_current. simpl. by rewrite Hhead.
    + pose proof (proj1 (head_filter_None _ _) Hhead) as Hnone.
      exists (User.mk newId (String c s) password None None None (Some 2) None).
      split; [done|]. split; [right; done|].
      unfold post_api_users_current. simpl.
      by rewrite head_filter_app_new.
Qed.

(** A body without a device id, and one with an empty device id and a
    display name, are answered 400; device-bob is created by the first call
    and answered by the second. *)
Lemma current_user_is_get_or_create_witness :
  post_api_users_current users_example None None None None "bob" "hex"
  = (Failed 400 "Device ID required", users_example)
  ∧ post_api_users_current users_example (Some EmptyString) (Some "Bob")
                           None None "bob" "hex"
    = (Failed 400 "Device ID required", users_example)
  ∧ ∃ u, User.username u = "device-bob"
         ∧ fst (post_api_users_current users_example (Some "device-bob")
                  None None None "bob" "hex")
           = Sent 201 u
         ∧ post_api_users_current
             (snd (post_api_users_current users_example (Some "device-bob")
                     None None None "bob" "hex"))
             (Some "device-bob") None None None "other" "hex2"
           = (Sent 200 u,
              snd (post_api_users_current users_example (Some "device-bob")
                     None None None "bob" "hex")).
Proof.
  split; [|split].
  - by apply (current_user_is_get_or_create users_example None
                "bob" "hex" "other" "hex2").
  - by apply (current_user_is_get_or_create users_example (Some EmptyString)
                "bob" "hex" "other" "hex2").
  - destruct (current_user_is_get_or_create users_example (Some "device-bob")
                "bob" "hex" "other" "hex2") as [_ Hcall].
    destruct (Hcall eq_refl) as (u & Hname & Hfirst & Hsecond).
    exists u. split; [by injection Hname as <-|]. split; [|done].
    destruct Hfirst as [(Hreply & _)|(Hreply & _)]; [|done].
    vm_compute in Hreply. discriminate Hreply.
Defined.

(** X9.  No call of the route, with or without details, makes two users
    share a name; a call with details changes the name and the password of
    no user. *)
Theorem current_user_keeps_names_apart (users : list User.t)
    (deviceId displayName email phone : option string)
    (newId password : string) :
  let users' :=
    snd (post_api_users_current users deviceId displayName email phone
                                newId password) in
  (NoDup (User.username <$> users) → NoDup (User.username <$> users'))
  ∧ (λ u, (User.username u, User.password u)) <$> users
    `prefix_of` (λ u, (User.username u, User.password u)) <$> users'.
Proof.
  intros users'. subst users'. unfold post_api_users_current.
  destruct deviceId as [[|c s]|]; [done| |done].
  destruct (head (filter _ users)) as [existingUser|] eqn:Hhead.
  - destruct (truthy displayName || truthy email || truthy phone); [|done].
    assert (∀ (g : User.t → string * string)
              (Hg : ∀ u, g (set_user_info displayName email phone u) = g u),
              g <$> update_where
                      (λ u, bool_decide (User.id u = User.id existingUser))
                      (set_user_info displayName email phone) users
              = g <$> users) as Hsame.
    { intros g Hg. unfold update_where. rewrite <- list_fmap_compose.
      apply list_fmap_ext. intros _ u _. simpl.
      by destruct (bool_decide _). }
    assert (User.username
              <$> update_where
                    (λ u, bool_decide (User.id u = User.id existingUser))
                    (set_user_info displayName email phone) users
            = User.username <$> users) as Hnames.
    { unfold update_where. rewrite <- list_fmap_compose.
      apply list_fmap_ext. intros _ u _. simpl.
      by destruct (bool_decide _). }
    destruct (head (returning _ _ users)); simpl;
      by rewrite Hnames, (Hsame (λ u, (User.username u, User.password u))).
  - pose proof (proj1 (head_filter_None _ _) Hhead) as Hnone. simpl.
    split; [|rewrite fmap_app; by apply prefix_app_r].
    intros Hnodup. rewrite fmap_app. apply NoDup_app.
    split; [done|]. split; [|apply NoDup_singleton].
    intros name Hname ->%list_elem_of_singleton.
    apply list_elem_of_fmap in Hname as (u & Hu & Hin).
    by apply (Hnone u Hin).
Qed.

Lemma current_user_keeps_names_apart_witness :
  NoDup (User.username
           <$> snd (post_api_users_current users_example (Some "device-ann")
                      (Some "Annie") None None "x" "hex")).
Proof.
  apply (current_user_keeps_names_apart users_example (Some "device-ann")
           (Some "Annie") None None "x" "hex").
  apply NoDup_singleton.
Defined.

(** ** Invites *)

Lemma filter_fmap_preserved {A : Type} (P : A → Prop) `{!∀ x, Decision (P x)}
    (g : A → A) (rows : list A) :
  (∀ x, P (g x) ↔ P x) → filter P (g <$> rows) = g <$> filter P rows.
Proof.
  intros Hg. induction rows as [|x rows IH]; [done|].
  rewrite fmap_cons, (filter_cons P (g x)), (filter_cons P x).
  destruct (decide (P (g x))) as [H1|H1], (decide (P x)) as [H2|H2].
  - by rewrite fmap_cons, IH.
  - destruct H2. by apply Hg.
  - destruct H1. by apply Hg.
  - done.
Qed.

(** Marking the invite that was found leaves it the one found, marked. *)
Lemma invite_of_code_marked (db : Db) (code status : string)
    (invite : CircleInvite.t) :
  invite_of_code db code = Some invite →
  head (filter (λ i, CircleInvite.inviteCode i = code)
               (update_where
                  (λ i, bool_decide (CircleInvite.id i = CircleInvite.id invite))
                  (set_invite_status status) (circleInvites db)))
  = Some (set_invite_status status invite).
Proof.
  unfold invite_of_code, update_where. intros Hhead.
  rewrite filter_fmap_preserved.
  - destruct (filter _ (circleInvites db)) as [|i rows]; [done|].
    simpl in *. injection Hhead as ->.
    by rewrite bool_decide_eq_true_2.
  - intros i. by destruct (bool_decide _).
Qed.

Lemma accept_full_outcome (db : Db) (code : string) (userId : option string)
    (id1 : string) (now1 : Timestamp) (id2 : string) (now2 : Timestamp)
    (status : Z) (connection : Connection.t) (db' : Db) :
  post_api_circle_invites_code_accept db code userId id1 now1 id2 now2
  = (Sent status connection, db') →
  ∃ invite,
    invite_of_code db code = Some invite
    ∧ CircleInvite.status invite = "pending"
    ∧ circleInvites db'
      = update_where
          (λ i, bool_decide (CircleInvite.id i = CircleInvite.id invite))
          (set_invite_status "accepted") (circleInvites db)
    ∧ deposits db' = deposits db
    ∧ sharedDeposits db' = sharedDeposits db
    ∧ sharedDepositUsage db' = sharedDepositUsage db.
Proof.
  unfold post_api_circle_invites_code_accept, invite_of_code.
  destruct userId as [[|ch user]|]; [done| |done].
  destruct (head (filter _ (circleInvites db))) as [invite|]; [|done].
  destruct (decide (CircleInvite.status invite ≠ "pending")) as [|Hpending];
    [done|].
  destruct (decide (CircleInvite.senderId invite = _)); [done|].
  destruct (decide (0 < length _)%nat); [done|].
  intros [= _ _ <-]. exists invite. simpl.
  split; [done|]. split; [by apply dec_stable|]. done.
Qed.

(** X10.  An invite is created for a sender that is a user and under a
    code that is free; it is then found under its code, pending, with the
    card of its sender, at any time up to seven days later, and the lookup
    writes nothing.  For a sender that is no user, and for a code that is
    taken, nothing is created and the answer is 500. *)
Theorem created_invite_is_found (db : Db) (users : list User.t)
    (senderId inviteType : string) (inviteValue : option string)
    (inviteCode newId : string) (now now' : Timestamp) :
  senderId ≠ EmptyString → inviteType ≠ EmptyString →
  let created :=
    post_api_circle_invites db users (Some senderId) (Some inviteType)
                            inviteValue inviteCode newId now in
  ((senderId ∉ User.id <$> users) →
   created = (Failed 500 "Failed to create invite", db))
  ∧ (inviteCode_taken db inviteCode = true →
     created = (Failed 500 "Failed to create invite", db))
  ∧ (senderId ∈ User.id <$> users →
     inviteCode_taken db inviteCode = false →
     now' ≤ now + 7 * ms_per_day →
     ∃ invite,
       fst created = Sent 201 invite
       ∧ CircleInvite.senderId invite = senderId
       ∧ CircleInvite.status invite = "pending"
       ∧ CircleInvite.expiresAt invite = Some (now + 7 * ms_per_day)
       ∧ is_Some (user_card users senderId)
       ∧ get_api_circle_invites_code (snd created) users inviteCode now'
         = (Sent 200 (invite, user_card users senderId), snd created)).
Proof.
  intros Hsender Htype created. subst created.
  unfold post_api_circle_invites, references_users.
  destruct senderId as [|c1 s1]; [done|].
  destruct inviteType as [|c2 s2]; [done|].
  split; [|split].
  - intros Hno. by rewrite bool_decide_eq_false_2.
  - intros ->. by rewrite orb_true_r.
  - intros Huser Hfree Hnow. rewrite bool_decide_eq_true_2 by done.
    rewrite Hfree. simpl.
    eexists. split; [reflexivity|]. simpl.
    split; [done|]. split; [done|]. split; [done|]. split.
    { unfold user_card.
      apply list_elem_of_fmap in Huser as (u & Hid & Hu).
      destruct (head (filter (λ u, User.id u = String c1 s1) users))
        as [u'|] eqn:Hhead; [by eexists|].
      pose proof (proj1 (head_filter_None _ _) Hhead u Hu) as Hnot.
      by destruct Hnot. }
    unfold get_api_circle_invites_code. simpl.
    rewrite head_filter_app_new; [| |done].
    + simpl. rewrite decide_False; [done|]. unfold ms_per_week. lia.
    + intros i Hi Hcode. unfold inviteCode_taken in Hfree.
      apply bool_decide_eq_false in Hfree. apply Hfree.
      apply Exists_exists. eauto.
Qed.

(** Ann, a user, creates a second invite and it is found; Bob, who is no
    user of the example, gets no invite. *)
Lemma created_invite_is_found_witness :
  (∃ invite,
     fst (post_api_circle_invites circle_db users_example (Some "ann")
            (Some "link") None "ffee00112233" "i2" 1000)
     = Sent 201 invite
     ∧ CircleInvite.senderId invite = "ann"
     ∧ CircleInvite.status invite = "pending"
     ∧ CircleInvite.expiresAt invite = Some (1000 + 7 * ms_per_day)
     ∧ is_Some (user_card users_example "ann")
     ∧ get_api_circle_invites_code
         (snd (post_api_circle_invites circle_db users_example (Some "ann")
                 (Some "link") None "ffee00112233" "i2" 1000))
         users_example "ffee00112233" 2000
       = (Sent 200 (invite, user_card users_example "ann"),
          snd (post_api_circle_invites circle_db users_example (Some "ann")
                 (Some "link") None "ffee00112233" "i2" 1000)))
  ∧ post_api_circle_invites circle_db users_example (Some "bob")
      (Some "link") None "ffee00112233" "i2" 1000
    = (Failed 500 "Failed to create invite", circle_db).
Proof.
  split.
  - apply (created_invite_is_found circle_db users_example "ann" "link" None
             "ffee00112233" "i2" 1000 2000); [done|done| | |].
    + apply list_elem_of_here.
    + vm_compute. reflexivity.
    + unfold ms_per_day. lia.
  - refine (proj1 (created_invite_is_found circle_db users_example "bob"
                     "link" None "ffee00112233" "i2" 1000 2000 _ _) _);
      [done|done|].
    intros Hin%list_elem_of_singleton. discriminate Hin.
Defined.

(** X11.  Looked up after its expiry, a pending invite is answered 400
    and marked expired, with the connections untouched; from then on
    every accept of its code is refused with 400 and writes nothing, and
    every lookup is refused too. *)
Theorem expired_invite_is_closed (db : Db) (users : list User.t)
    (code : string) (now : Timestamp) (invite : CircleInvite.t)
    (expiresAt : Timestamp) :
  invite_of_code db code = Some invite →
  CircleInvite.status invite = "pending" →
  CircleInvite.expiresAt invite = Some expiresAt →
  expiresAt < now →
  let db' := snd (get_api_circle_invites_code db users code now) in
  fst (get_api_circle_invites_code db users code now)
  = Failed 400 "Invite expired"
  ∧ invite_of_code db' code = Some (set_invite_status "expired" invite)
  ∧ connections db' = connections db
  ∧ (∀ userId id1 now1 id2 now2,
       ∃ error,
         post_api_circle_invites_code_accept db' code userId id1 now1 id2 now2
         = (Failed 400 error, db'))
  ∧ (∀ users' now',
       get_api_circle_invites_code db' users' code now'
       = (Failed 400 "Invite already used or expired", db')).
Proof.
  intros Hfound Hpending Hexp Hlate db'.
  assert (get_api_circle_invites_code db users code now
          = (Failed 400 "Invite expired",
             with_circleInvites
               (update_where
                  (λ i, bool_decide (CircleInvite.id i = CircleInvite.id invite))
                  (set_invite_status "expired") (circleInvites db))
               db)) as Hlook.
  { unfold get_api_circle_invites_code. unfold invite_of_code in Hfound.
    rewrite Hfound, Hexp, decide_False by (by rewrite Hpending; intros []).
    by rewrite decide_True. }
  subst db'. rewrite Hlook. simpl.
  assert (invite_of_code
            (with_circleInvites
               (update_where
                  (λ i, bool_decide (CircleInvite.id i = CircleInvite.id invite))
                  (set_invite_status "expired") (circleInvites db))
               db) code
          = Some (set_invite_status "expired" invite)) as Hfound'.
  { unfold invite_of_code at 1. simpl.
    by apply (invite_of_code_marked db code "expired" invite). }
  split; [done|]. split; [done|]. split; [done|]. split.
  - intros userId id1 now1 id2 now2.
    unfold post_api_circle_invites_code_accept.
    destruct userId as [[|ch user]|]; [eauto| |eauto].
    unfold invite_of_code in Hfound'. rewrite Hfound'. simpl. eauto.
  - intros users' now'. unfold get_api_circle_invites_code.
    unfold invite_of_code in Hfound'. by rewrite Hfound'.
Qed.

Lemma expired_invite_is_closed_witness :
  fst (get_api_circle_invites_code invited_db users_example "abc123" 701)
  = Failed 400 "Invite expired"
  ∧ ∃ error,
      post_api_circle_invites_code_accept
        (snd (get_api_circle_invites_code invited_db users_example "abc123" 701))
        "abc123" (Some "bob") "c1" 800 "c2" 801
      = (Failed 400 error,
         snd (get_api_circle_invites_code invited_db users_example "abc123" 701)).
Proof.
  destruct (expired_invite_is_closed invited_db users_example "abc123" 701
              (CircleInvite.mk "i1" "ann" "link" None "abc123" "pending" 100
                               (Some 700)) 700)
    as (Hreply & _ & _ & Haccept & _); [done|done|done|lia|].
  split; [exact Hreply|apply Haccept].
Defined.

(** X12.  An invite is good for one accept: once an accept of a code has
    succeeded, every later accept of that code is refused with 400 and
    writes nothing, and so is every lookup. *)
Theorem accepted_invite_is_used_up (db db' : Db) (code : string)
    (userId : option string) (id1 : string) (now1 : Timestamp) (id2 : string)
    (now2 : Timestamp) (status : Z) (connection : Connection.t) :
  post_api_circle_invites_code_accept db code userId id1 now1 id2 now2
  = (Sent status connection, db') →
  (∀ userId' id1' now1' id2' now2',
     ∃ error,
       post_api_circle_invites_code_accept db' code userId' id1' now1' id2' now2'
       = (Failed 400 error, db'))
  ∧ (∀ users now,
       get_api_circle_invites_code db' users code now
       = (Failed 400 "Invite already used or expired", db')).
Proof.
  intros Haccept.
  destruct (accept_full_outcome _ _ _ _ _ _ _ _ _ _ Haccept)
    as (invite & Hfound & _ & Hinvites & _).
  pose proof (invite_of_code_marked db code "accepted" invite Hfound)
    as Hfound'.
  rewrite <- Hinvites in Hfound'.
  split.
  - intros userId' id1' now1' id2' now2'.
    unfold post_api_circle_invites_code_accept.
    destruct userId' as [[|ch user]|]; [eauto| |eauto].
    rewrite Hfound'. simpl. eauto.
  - intros users now. unfold get_api_circle_invites_code.
    by rewrite Hfound'.
Qed.

Lemma accepted_invite_is_used_up_witness :
  ∃ error,
    post_api_circle_invites_code_accept circle_db "abc123" (Some "carl")
                                        "c3" 300 "c4" 301
    = (Failed 400 error, circle_db).
Proof.
  apply (accepted_invite_is_used_up invited_db circle_db "abc123" (Some "bob")
           "c1" 200 "c2" 201 200
           (Connection.mk "c1" "ann" "bob" "accepted" 200 (Some 200))).
  vm_compute. reflexivity.
Defined.

(** ** The Circle *)

Lemma elem_of_circle_of (db : Db) (users : list User.t) (a b : string) :
  b ∈ circle_of db users a
  ↔ ∃ c, c ∈ connections db ∧ row_from_to a b c
         ∧ Connection.status c = "accepted".
Proof.
  unfold circle_of, get_api_circle_connections_userId, row_from_to.
  rewrite <- list_fmap_compose, list_elem_of_fmap.
  setoid_rewrite list_elem_of_filter. simpl. split.
  - intros (c & -> & [Hfrom Hacc] & Hc). eauto.
  - intros (c & Hc & [Hfrom Hto] & Hacc). exists c. eauto.
Qed.

Lemma Forall_filter_keeps {A : Type} (P Q : A → Prop)
    `{!∀ x, Decision (Q x)} (rows : list A) :
  Forall P rows → Forall P (filter Q rows).
Proof.
  rewrite !Forall_forall. intros HP x [_ Hx]%list_elem_of_filter. by apply HP.
Qed.

Lemma handle_circle_all_accepted (db : Db) (req : CircleRequest) :
  all_accepted db → all_accepted (handle_circle db req).
Proof.
  unfold all_accepted. intros Hdb. destruct req; simpl.
  - destruct (accept_outcome db code userId id1 now1 id2 now2)
      as [[-> _]|(invite & user & _ & _ & _ & _ & _ & _ & _ & ->)]; [done|].
    apply Forall_app; split; [done|]. by repeat constructor.
  - destruct (remove_outcome db id userId)
      as [[-> _]|(connection & _ & _ & _ & ->)]; [done|].
    by apply Forall_filter_keeps.
Qed.

Lemma handle_circle_paired (db : Db) (req : CircleRequest) :
  paired db → paired (handle_circle db req).
Proof.
  destruct req; simpl; [apply accept_keeps_paired|apply remove_keeps_paired].
Qed.

(** X13.  The Circle is mutual: after any sequence of accept and remove
    requests, one user is in the listing of another exactly when the other
    is in the listing of the one, provided it was so before and every row
    was an accepted one. *)
Theorem circle_is_mutual (db : Db) (users : list User.t)
    (reqs : list CircleRequest) (a b : string) :
  paired db → all_accepted db →
  b ∈ circle_of (foldl handle_circle db reqs) users a
  ↔ a ∈ circle_of (foldl handle_circle db reqs) users b.
Proof.
  intros Hpaired Haccepted.
  assert (paired (foldl handle_circle db reqs)
          ∧ all_accepted (foldl handle_circle db reqs)) as [Hp Ha].
  { revert db Hpaired Haccepted.
    induction reqs as [|req reqs IH]; intros db Hpaired Haccepted; [done|].
    simpl. apply IH;
      [by apply handle_circle_paired|by apply handle_circle_all_accepted]. }
  set (db' := foldl handle_circle db reqs) in *.
  assert (∀ x y, y ∈ circle_of db' users x
                 ↔ ∃ c, c ∈ connections db' ∧ row_from_to x y c) as Hiff.
  { intros x y. rewrite elem_of_circle_of. split.
    - intros (c & Hc & Hrow & _). eauto.
    - intros (c & Hc & Hrow). exists c. split; [done|]. split; [done|].
      unfold all_accepted in Ha. rewrite Forall_forall in Ha. by apply Ha. }
  rewrite !Hiff. apply Hp.
Qed.

Lemma circle_is_mutual_witness :
  "bob" ∈ circle_of
            (foldl handle_circle invited_db
               [Accept "abc123" (Some "bob") "c1" 200 "c2" 201])
            users_example "ann"
  ↔ "ann" ∈ circle_of
              (foldl handle_circle invited_db
                 [Accept "abc123" (Some "bob") "c1" 200 "c2" 201])
              users_example "bob".
Proof.
  apply (circle_is_mutual invited_db users_example).
  - apply paired_intro. intros a b c Hc. by apply not_elem_of_nil in Hc.
  - constructor.
Defined.

(** X14.  A successful accept puts the accepter into the listing of the
    sender of the invite and the sender into the listing of the accepter.
    A successful remove of a connection row takes each of its two users out
    of the listing of the other. *)
Theorem accept_joins_and_remove_parts (db : Db) (users : list User.t) :
  (∀ code userId id1 now1 id2 now2 status connection db',
     post_api_circle_invites_code_accept db code userId id1 now1 id2 now2
     = (Sent status connection, db') →
     Connection.connectedUserId connection
       ∈ circle_of db' users (Connection.userId connection)
     ∧ Connection.userId connection
         ∈ circle_of db' users (Connection.connectedUserId connection)
     ∧ userId = Some (Connection.connectedUserId connection))
  ∧ (∀ id userId status payload db',
       delete_api_circle_connections_id db id userId
       = (Sent status payload, db') →
       ∃ connection,
         connection ∈ connections db ∧ Connection.id connection = id
         ∧ (Connection.connectedUserId connection
              ∉ circle_of db' users (Connection.userId connection))
         ∧ (Connection.userId connection
              ∉ circle_of db' users (Connection.connectedUserId connection))).
Proof.
  split.
  - intros code userId id1 now1 id2 now2 status connection db' Hres.
    destruct (accept_outcome db code userId id1 now1 id2 now2)
      as [[_ (st & err & Hfail)]
         |(invite & user & -> & _ & _ & _ & _ & _ & Hreply & Hrows)];
      rewrite Hres in *; [done|].
    simpl in *. injection Hreply as _ ->. simpl.
    rewrite !elem_of_circle_of, Hrows.
    split; [|split; [|done]].
    + exists (Connection.mk id1 (CircleInvite.senderId invite) user
                            "accepted" now1 (Some now1)).
      split; [apply elem_of_app; right; by left|done].
    + exists (Connection.mk id2 user (CircleInvite.senderId invite)
                            "accepted" now2 (Some now2)).
      split; [apply elem_of_app; right; right; by left|done].
  - intros id userId status payload db' Hres.
    destruct (remove_outcome db id userId)
      as [[Hfail _]|(connection & Hin & Hid & _ & Hrows)];
      rewrite Hres in *; [done|].
    simpl in Hrows. exists connection. split; [done|]. split; [done|].
    rewrite !elem_of_circle_of, Hrows.
    split; intros (c & [Hkeep _]%list_elem_of_filter & [Hfrom Hto] & _);
      apply Hkeep; [left|right]; done.
Qed.

Lemma accept_joins_and_remove_parts_witness :
  circle_of circle_db users_example "ann" = ["bob"]
  ∧ "bob" ∈ circle_of circle_db users_example "ann"
  ∧ "ann" ∈ circle_of circle_db users_example "bob".
Proof.
  split; [reflexivity|].
  destruct (proj1 (accept_joins_and_remove_parts invited_db users_example)
              "abc123" (Some "bob") "c1" 200 "c2" 201 200
              (Connection.mk "c1" "ann" "bob" "accepted" 200 (Some 200))
              circle_db) as (Hbob & Hann & _); [vm_compute; reflexivity|].
  split; [exact Hbob|exact Hann].
Defined.

Lemma handle_circle_no_self_one_row (db : Db) (req : CircleRequest) :
  no_self_connection db ∧ one_row_per_direction db →
  no_self_connection (handle_circle db req)
  ∧ one_row_per_direction (handle_circle db req).
Proof.
  unfold no_self_connection, one_row_per_direction. intros [Hself Hone].
  destruct req; simpl.
  - destruct (accept_outcome db code userId id1 now1 id2 now2)
      as [[-> _]|(invite & user & _ & _ & _ & _ & Hne & Hnew & _ & ->)];
      [done|].
    split.
    + apply Forall_app; split; [done|].
      repeat constructor; simpl; [done|]. by intros ->.
    + rewrite fmap_app. apply NoDup_app. split; [done|]. split.
      * intros e He Hin. apply list_elem_of_fmap in He as (c & -> & Hc).
        apply (Hnew c Hc). unfold either_direction, ends in *. simpl in Hin.
        apply elem_of_cons in Hin as [[= -> ->]|Hin]; [by left|].
        apply list_elem_of_singleton in Hin as [= -> ->]. by right.
      * simpl. apply NoDup_cons. split; [|apply NoDup_singleton].
        unfold ends. simpl. intros [= Heq _]%list_elem_of_singleton. done.
  - destruct (remove_outcome db id userId)
      as [[-> _]|(connection & _ & _ & _ & ->)]; [done|].
    split; [by apply Forall_filter_keeps|].
    eapply sublist_NoDup; [exact Hone|].
    apply fmap_sublist, sublist_filter.
Qed.

(** X15.  After any sequence of accept and remove requests no row connects
    a user to themselves and no two rows connect the same user to the same
    user, provided that held before. *)
Theorem connections_stay_plain (db : Db) (reqs : list CircleRequest) :
  no_self_connection db → one_row_per_direction db →
  no_self_connection (foldl handle_circle db reqs)
  ∧ one_row_per_direction (foldl handle_circle db reqs).
Proof.
  intros Hself Hone. revert db Hself Hone.
  induction reqs as [|req reqs IH]; intros db Hself Hone; [done|].
  simpl. destruct (handle_circle_no_self_one_row db req) as [H1 H2]; [done|].
  by apply IH.
Qed.

Lemma connections_stay_plain_witness :
  no_self_connection
    (foldl handle_circle invited_db
       [Accept "abc123" (Some "bob") "c1" 200 "c2" 201;
        Accept "abc123" (Some "bob") "c3" 300 "c4" 301])
  ∧ one_row_per_direction
      (foldl handle_circle invited_db
         [Accept "abc123" (Some "bob") "c1" 200 "c2" 201;
          Accept "abc123" (Some "bob") "c3" 300 "c4" 301]).
Proof.
  apply (connections_stay_plain invited_db); constructor.
Defined.

(** ** Shared deposits *)

Global Instance newer_shared_first_total : Total newer_shared_first.
Proof. intros a b. unfold newer_shared_first. lia. Qed.

Global Instance newer_shared_first_transitive : Transitive newer_shared_first.
Proof. intros a b c. unfold newer_shared_first. lia. Qed.

Lemma orderBy_desc_shared_createdAt_Permutation (rows : list SharedDeposit.t) :
  orderBy_desc_shared_createdAt rows ≡ₚ rows.
Proof. apply merge_sort_Permutation. Qed.

Lemma orderBy_desc_shared_createdAt_sorted (rows : list SharedDeposit.t) :
  StronglySorted (λ a b, SharedDeposit.createdAt b ≤ SharedDeposit.createdAt a)
                 (orderBy_desc_shared_createdAt rows).
Proof. apply (StronglySorted_merge_sort newer_shared_first). Qed.

(** X16.  The received listing of a user holds exactly the shared deposits
    sent to that user, without those of status -1 unless
    [includeInactive=true]; the sent listing holds exactly the shared
    deposits the user sent, whatever their status; both are newest
    first. *)
Theorem shared_listings (db : Db) (userId : string)
    (includeInactiveQuery : option string) :
  (∃ rows,
     get_api_circle_shared_deposits_received db userId includeInactiveQuery
     = Sent 200 rows
     ∧ StronglySorted
         (λ a b, SharedDeposit.createdAt b ≤ SharedDeposit.createdAt a) rows
     ∧ ∀ d, d ∈ rows ↔
            d ∈ sharedDeposits db
            ∧ SharedDeposit.receiverId d = userId
            ∧ (includeInactiveQuery = Some "true"
               ∨ SharedDeposit.status d ≠ -1))
  ∧ (∃ rows,
       get_api_circle_shared_deposits_sent db userId = Sent 200 rows
       ∧ StronglySorted
           (λ a b, SharedDeposit.createdAt b ≤ SharedDeposit.createdAt a) rows
       ∧ ∀ d, d ∈ rows ↔
              d ∈ sharedDeposits db ∧ SharedDeposit.senderId d = userId).
Proof.
  split.
  - unfold get_api_circle_shared_deposits_received.
    case_bool_decide as Hquery; eexists; (split; [reflexivity|]);
      (split; [apply orderBy_desc_shared_createdAt_sorted|]); intros d;
      rewrite orderBy_desc_shared_createdAt_Permutation, list_elem_of_filter;
      tauto.
  - unfold get_api_circle_shared_deposits_sent. eexists.
    split; [reflexivity|].
    split; [apply orderBy_desc_shared_createdAt_sorted|]. intros d.
    rewrite orderBy_desc_shared_createdAt_Permutation, list_elem_of_filter.
    tauto.
Qed.

(** X17.  The shared surface route answers [null] exactly when the user
    has received no shared deposit that is active; otherwise it answers one
    of those, so what it returns was sent to that user and has status 0. *)
Theorem shared_surface_returns_eligible (db : Db) (userId : string)
    (random : Random) :
  unit_interval random →
  let reply := get_api_circle_shared_deposits_surface db userId random in
  (reply = Sent 200 None ↔ ¬ ∃ d, eligible_shared db userId d)
  ∧ ((∃ d, eligible_shared db userId d) →
     ∃ d, reply = Sent 200 (Some d) ∧ eligible_shared db userId d)
  ∧ (∀ d, reply = Sent 200 (Some d) → eligible_shared db userId d).
Proof.
  intros Hrandom reply. subst reply.
  unfold get_api_circle_shared_deposits_surface.
  set (rows := filter _ (sharedDeposits db)).
  assert (∀ d, d ∈ rows ↔ eligible_shared db userId d) as Hrows.
  { intros d. subst rows. rewrite list_elem_of_filter.
    unfold eligible_shared. tauto. }
  destruct (decide (length rows = 0%nat)) as [Hlen|Hlen].
  - apply length_zero_iff_nil in Hlen.
    assert (¬ ∃ d, eligible_shared db userId d) as Hnone.
    { intros [d Hd]. apply Hrows in Hd. rewrite Hlen in Hd.
      by apply not_elem_of_nil in Hd. }
    split; [done|]. split; [intros Hex; by destruct Hnone|done].
  - assert (rows ≠ []) as Hne by (by intros ->).
    destruct (js_index_in_range rows random Hrandom Hne) as (d & -> & Hd).
    apply Hrows in Hd.
    split; [|split].
    + split; [done|]. intros Hnone. destruct Hnone. eauto.
    + eauto.
    + by intros d' [= <-].
Qed.

Lemma shared_surface_returns_eligible_witness :
  unit_interval one_half
  ∧ ∃ d, get_api_circle_shared_deposits_surface shared_db "bob" one_half
         = Sent 200 (Some d)
         ∧ eligible_shared shared_db "bob" d.
Proof.
  assert (unit_interval one_half) as Hrandom
    by (unfold unit_interval; simpl; lia).
  split; [exact Hrandom|].
  apply (shared_surface_returns_eligible shared_db "bob" one_half Hrandom).
  exists (SharedDeposit.mk "S1" "ann" "bob" "hello" None None None (Some [])
                           0 None 1000).
  split; [|done].
  assert (sharedDeposits shared_db
          = [SharedDeposit.mk "S1" "ann" "bob" "hello" None None None (Some [])
                              0 None 1000]) as -> by (vm_compute; reflexivity).
  by left.
Defined.

(** ** Using a shared deposit *)

Lemma use_outcome (db : Db) (id : string) (helpful : option bool)
    (now : Timestamp) (usageId : string) :
  let result :=
    post_api_circle_shared_deposits_id_use db id helpful now usageId in
  (result = (Failed 404 "Shared deposit not found", db)
   ∧ ∀ d, d ∈ sharedDeposits db → SharedDeposit.id d ≠ id)
  ∨ (∃ d, d ∈ sharedDeposits db ∧ SharedDeposit.id d = id
          ∧ result
            = (Sent 200 (set_shared_lastSurfacedAt_status now 30 d),
               mkDb (deposits db) (connections db) (circleInvites db)
                    (update_where (λ d, bool_decide (SharedDeposit.id d = id))
                                  (set_shared_lastSurfacedAt_status now 30)
                                  (sharedDeposits db))
                    (sharedDepositUsage db
                     ++ [SharedDepositUsage.mk usageId id now helpful]))).
Proof.
  unfold post_api_circle_shared_deposits_id_use.
  destruct (head (returning _ _ (sharedDeposits db))) as [row|] eqn:Hhead.
  - right. apply head_returning_Some in Hhead as (d & Hd & Hp & ->).
    apply bool_decide_eq_true in Hp. exists d. done.
  - left. pose proof (proj1 (head_returning_None _ _ _) Hhead) as Hnone.
    split.
    + rewrite update_where_no_match by done. by destruct db.
    + intros d Hd Hid. specialize (Hnone d Hd). simpl in Hnone.
      by apply bool_decide_eq_false in Hnone.
Qed.

(** X18.  Using a shared deposit that exists answers it with the
    thirty-day cooldown and the time of use, appends exactly one ledger row,
    for that deposit, that time and that answer, and leaves it out of every
    later surfacing for its receiver.  Using an id that does not exist
    answers 404 and writes nothing, no ledger row either. *)
Theorem use_cools_down_and_logs (db : Db) (id : string) (helpful : option bool)
    (now : Timestamp) (usageId : string) :
  let reply :=
    fst (post_api_circle_shared_deposits_id_use db id helpful now usageId) in
  let db' :=
    snd (post_api_circle_shared_deposits_id_use db id helpful now usageId) in
  ((∃ d, d ∈ sharedDeposits db ∧ SharedDeposit.id d = id) →
   (∃ d, d ∈ sharedDeposits db ∧ SharedDeposit.id d = id
         ∧ reply = Sent 200 (set_shared_lastSurfacedAt_status now 30 d))
   ∧ sharedDepositUsage db'
     = (sharedDepositUsage db
        ++ [SharedDepositUsage.mk usageId id now helpful])%list
   ∧ (∀ d', d' ∈ sharedDeposits db' → SharedDeposit.id d' = id →
        SharedDeposit.status d' = 30
        ∧ SharedDeposit.lastSurfacedAt d' = Some now)
   ∧ (∀ userId random d',
        get_api_circle_shared_deposits_surface db' userId random
        = Sent 200 (Some d') →
        SharedDeposit.id d' ≠ id))
  ∧ ((¬ ∃ d, d ∈ sharedDeposits db ∧ SharedDeposit.id d = id) →
     reply = Failed 404 "Shared deposit not found" ∧ db' = db).
Proof.
  intros reply db'. subst reply db'.
  destruct (use_outcome db id helpful now usageId)
    as [[-> Hnone]|(d & Hd & Hid & ->)]; simpl.
  - split; [|done]. intros (d & Hd & Hid). by destruct (Hnone d Hd).
  - split; [|intros Hno; destruct Hno; eauto]. intros _.
    assert (∀ d', d' ∈ update_where
                         (λ d, bool_decide (SharedDeposit.id d = id))
                         (set_shared_lastSurfacedAt_status now 30)
                         (sharedDeposits db) →
                  SharedDeposit.id d' = id →
                  SharedDeposit.status d' = 30
                  ∧ SharedDeposit.lastSurfacedAt d' = Some now) as Hcool.
    { intros d' Hd' Hid'.
      apply elem_of_update_where in Hd' as (r & _ & ->).
      case_bool_decide as Hr; [done|]. by destruct Hr. }
    split; [eauto|]. split; [done|]. split; [done|].
    intros userId random d'. unfold get_api_circle_shared_deposits_surface.
    simpl. destruct (decide (length _ = 0%nat)); [done|].
    intros [= Hpick] Hid'. unfold js_index in Hpick.
    destruct (decide (0 ≤ _)); [|done].
    apply list_elem_of_lookup_2, list_elem_of_filter in Hpick
      as [[_ Hstatus] Hin].
    destruct (Hcool d' Hin Hid') as [Hthirty _]. lia.
Qed.

Lemma use_cools_down_and_logs_witness :
  sharedDepositUsage
    (snd (post_api_circle_shared_deposits_id_use shared_db "S1" (Some true)
            5000 "u1"))
  = [SharedDepositUsage.mk "u1" "S1" 5000 (Some true)]
  ∧ post_api_circle_shared_deposits_id_use shared_db "S9" (Some true) 5000 "u1"
    = (Failed 404 "Shared deposit not found", shared_db).
Proof.
  assert (sharedDeposits shared_db
          = [SharedDeposit.mk "S1" "ann" "bob" "hello" None None None (Some [])
                              0 None 1000]) as Hrows by (vm_compute; reflexivity).
  split.
  - destruct (proj1 (use_cools_down_and_logs shared_db "S1" (Some true) 5000
                       "u1")) as (_ & -> & _).
    + eexists. rewrite Hrows. split; [by left|done].
    + reflexivity.
  - destruct (proj2 (use_cools_down_and_logs shared_db "S9" (Some true) 5000
                       "u1")) as [Hreply Hdb].
    + intros (d & Hd & Hid). rewrite Hrows in Hd.
      apply list_elem_of_singleton in Hd as ->. discriminate Hid.
    + apply injective_projections; [exact Hreply|exact Hdb].
Defined.

Lemma length_filter_update_where {A : Type} (P : A → Prop)
    `{!∀ x, Decision (P x)} (p : A → bool) (f : A → A) (rows : list A) :
  (∀ r, P (f r) ↔ P r) →
  length (filter P (update_where p f rows)) = length (filter P rows).
Proof.
  intros Hf. unfold update_where.
  induction rows as [|r rows IH]; [done|].
  rewrite fmap_cons, !filter_cons.
  assert (P (if p r then f r else r) ↔ P r) as Hr
    by (destruct (p r); [apply Hf|done]).
  destruct (decide (P (if p r then f r else r))) as [Hyes|Hno];
    destruct (decide (P r)) as [Hyes'|Hno']; simpl; try (by rewrite IH).
  - destruct Hno'. by apply Hr.
  - destruct Hno. by apply Hr.
Qed.

(** X19.  A use never reaches the summary: whatever shared deposit is
    used, and whether the use is marked helpful or not, the summary route
    answers every user after the use what it answered before, the error
    for a user who has sent a shared deposit and the zero counts for any
    other. *)
Theorem use_never_reaches_summary (db : Db) (id : string)
    (helpful : option bool) (now : Timestamp) (usageId userId : string)
    (weeksQuery : option string) :
  let db' :=
    snd (post_api_circle_shared_deposits_id_use db id helpful now usageId) in
  fst (get_api_circle_summary_userId db' userId weeksQuery)
  = fst (get_api_circle_summary_userId db userId weeksQuery)
  ∧ (fst (get_api_circle_summary_userId db userId weeksQuery)
     = Failed 500 "Failed to get summary"
     ∨ fst (get_api_circle_summary_userId db userId weeksQuery)
       = Sent 200 (Summary.mk 0 0 (number_or (parseInt weeksQuery) 2))).
Proof.
  intros db'. split.
  - assert (length (filter (λ d, SharedDeposit.senderId d = userId)
                           (sharedDeposits db'))
            = length (filter (λ d, SharedDeposit.senderId d = userId)
                             (sharedDeposits db))) as Hsame.
    { subst db'.
      destruct (use_outcome db id helpful now usageId)
        as [[-> _]|(d & _ & _ & ->)]; [done|].
      simpl. by apply length_filter_update_where. }
    unfold get_api_circle_summary_userId. rewrite !length_fmap, Hsame.
    by destruct (decide (length _ = 0%nat)).
  - unfold get_api_circle_summary_userId.
    destruct (decide (length _ = 0%nat)); [by right|by left].
Qed.

Lemma handle_shared_keeps (db : Db) (req : SharedRequest) :
  shared_statuses_0_or_30 db ∧ ledger_refers db →
  shared_statuses_0_or_30 (handle_shared db req)
  ∧ ledger_refers (handle_shared db req).
Proof.
  unfold shared_statuses_0_or_30, ledger_refers. intros [Hstatus Hledger].
  destruct req as [body newId now|id helpful now usageId]; simpl.
  - unfold post_api_circle_shared_deposits.
    destruct (insertSharedDepositSchema_safeParse body) as [data|]; [|done].
    destruct (head _); [|done]. simpl. split.
    + apply Forall_app; split; [done|]. apply Forall_singleton. by left.
    + eapply Forall_impl; [exact Hledger|]. intros u Hu. simpl in Hu.
      apply Exists_app. by left.
  - destruct (use_outcome db id helpful now usageId)
      as [[-> _]|(d & Hd & Hid & ->)]; [done|]. simpl.
    assert (∀ i, Exists (λ d, SharedDeposit.id d = i) (sharedDeposits db) →
                 Exists (λ d, SharedDeposit.id d = i)
                        (update_where
                           (λ d, bool_decide (SharedDeposit.id d = id))
                           (set_shared_lastSurfacedAt_status now 30)
                           (sharedDeposits db))) as Hkeep.
    { intros i. rewrite !Exists_exists. intros (r & Hr & Hi).
      exists (if bool_decide (SharedDeposit.id r = id)
              then set_shared_lastSurfacedAt_status now 30 r else r).
      split; [apply elem_of_update_where; eauto|].
      by destruct (bool_decide _). }
    split.
    + apply Forall_update_where; [done|]. intros r _ _. by right.
    + apply Forall_app; split.
      * eapply Forall_impl; [exact Hledger|]. intros u Hu. by apply Hkeep.
      * apply Forall_singleton. simpl. apply Hkeep, Exists_exists. eauto.
Qed.

(** X20.  After any sequence of share and use requests every shared
    deposit has status 0 or 30, so none is ever inactive, and every row of
    the usage ledger names a shared deposit that is in the table, provided
    both held before. *)
Theorem shared_deposits_never_inactive (db : Db) (reqs : list SharedRequest) :
  shared_statuses_0_or_30 db → ledger_refers db →
  shared_statuses_0_or_30 (foldl handle_shared db reqs)
  ∧ ledger_refers (foldl handle_shared db reqs).
Proof.
  intros Hstatus Hledger. revert db Hstatus Hledger.
  induction reqs as [|req reqs IH]; intros db Hstatus Hledger; [done|].
  simpl. destruct (handle_shared_keeps db req) as [H1 H2]; [done|].
  by apply IH.
Qed.

Lemma shared_deposits_never_inactive_witness :
  shared_statuses_0_or_30
    (foldl handle_shared circle_db
       [Share (body_share_status "ann" "bob" "hello" (-1)) "S1" 1000;
        Use "S1" None 5000 "u1"])
  ∧ ledger_refers
      (foldl handle_shared circle_db
         [Share (body_share_status "ann" "bob" "hello" (-1)) "S1" 1000;
          Use "S1" None 5000 "u1"]).
Proof.
  apply (shared_deposits_never_inactive circle_db); constructor.
Defined.

(** * The client *)

(** ** The status dialog *)

Example parseInt_10_days : parseInt_10 "14 days" = Some 14.
Proof. reflexivity. Qed.

Example parseInt_10_hex : parseInt_10 "0x1f" = Some 0.
Proof. reflexivity. Qed.

Lemma statusModal_status_in_model (memory : option string)
    (action : StatusAction) (id : string) (status : Z) :
  statusModal_onUpdateStatus memory action = Some (id, status) →
  memory = Some id ∧ status_in_model status.
Proof.
  unfold statusModal_onUpdateStatus, status_in_model.
  destruct memory as [id'|]; [|done].
  destruct action as [cooldownDays| |[|]]; try done.
  - destruct (parseInt_10 cooldownDays) as [days|]; [|done].
    destruct (decide (days < 1)); [done|]. intros [= <- <-]. split; [done|lia].
  - intros [= <- <-]. eauto.
  - intros [= <- <-]. eauto.
Qed.

(** X21.  The status dialog asks the server only for -1, 0 or a number of
    days that is at least 1, and only for the moment that is selected; so
    a server that gets its set-status requests from the dialog, whatever
    the user types, keeps every status in the data model. *)
Theorem statusModal_keeps_status_model (db : Db)
    (run : list (option string * StatusAction)) :
  (∀ memory action id status,
     statusModal_onUpdateStatus memory action = Some (id, status) →
     memory = Some id ∧ (status = -1 ∨ status = 0 ∨ 1 ≤ status))
  ∧ (statuses_in_model db →
     statuses_in_model (handle_all db (statusModal_requests run))).
Proof.
  split.
  - intros memory action id status Hcall.
    destruct (statusModal_status_in_model _ _ _ _ Hcall) as [Hm Hs].
    split; [done|]. unfold status_in_model in Hs. lia.
  - unfold handle_all. revert db.
    induction run as [|[memory action] run IH]; intros db Hdb; [done|].
    unfold statusModal_requests. simpl.
    destruct (statusModal_onUpdateStatus memory action) as [[id status]|]
      eqn:Hcall; simpl; [|by apply IH].
    apply IH.
    apply (handle_statuses_in_model db (handleUpdateStatus id status));
      [done|].
    intros s. simpl. unfold body_status. rewrite lookup_singleton_eq.
    intros [= <-].
    destruct (statusModal_status_in_model _ _ _ _ Hcall) as [_ Hs].
    unfold status_in_model in Hs. lia.
Qed.

Lemma statusModal_keeps_status_model_witness :
  statuses_in_model scenario_db
  ∧ statuses_in_model
      (handle_all scenario_db
         (statusModal_requests
            [(Some "D1", SetCooldown "-5");
             (Some "D1", SetCooldown "7");
             (Some "D2", MakeActive);
             (None, MakeInactive true);
             (Some "D3", MakeInactive false)])).
Proof.
  assert (statuses_in_model scenario_db) as Hmodel.
  { unfold statuses_in_model. rewrite scenario_deposits.
    repeat constructor; unfold status_in_model; simpl; lia. }
  split; [exact Hmodel|].
  by apply (statusModal_keeps_status_model scenario_db).
Defined.

(** ** The rainy-day session *)

Lemma get_api_deposits_surface_pair (db : Db) (excludeParam : option string)
    (random : Random) :
  get_api_deposits_surface db excludeParam random
  = (fst (get_api_deposits_surface db excludeParam random), db).
Proof.
  rewrite <- (snd_get_api_deposits_surface db excludeParam random) at 3.
  apply surjective_pairing.
Qed.

Lemma surface_reply_cases (db : Db) (excludeParam : option string)
    (random : Random) :
  fst (get_api_deposits_surface db excludeParam random) = Sent 200 None
  ∨ ∃ d, fst (get_api_deposits_surface db excludeParam random)
         = Sent 200 (Some d)
         ∧ eligible db (excludeIds_of excludeParam) d.
Proof.
  destruct (fst (get_api_deposits_surface db excludeParam random))
    as [code [d|]|code error] eqn:Hreply.
  - assert (code = 200) as ->.
    { unfold get_api_deposits_surface in Hreply.
      destruct (decide (length _ = 0%nat)); simpl in Hreply; congruence. }
    right. exists d. split; [done|]. by eapply surface_reply_eligible.
  - left. unfold get_api_deposits_surface in Hreply.
    destruct (decide (length _ = 0%nat)); simpl in Hreply; congruence.
  - unfold get_api_deposits_surface in Hreply.
    destruct (decide (length _ = 0%nat)); simpl in Hreply; congruence.
Qed.

Lemma body_log_parses (emotion : string) (depositId : option string) :
  insertRainyDayLogSchema_safeParse (body_log emotion depositId)
  = Some (InsertRainyDayLog.mk emotion depositId None None).
Proof.
  unfold insertRainyDayLogSchema_safeParse, body_log.
  simplify_map_eq. by destruct depositId.
Qed.

(** The cooldown and the log of a deposit that is in the table succeed. *)
Lemma mark_and_log_succeeds (st : Server) (emotion : string)
    (deposit : Deposit.t) (env : Round) :
  deposit ∈ deposits (fst st) →
  mark_and_log st emotion deposit env
  = ((marked (fst st) (Deposit.id deposit) (round_now env),
      (snd st ++ [round_log emotion (Deposit.id deposit) env])%list),
     Some (round_log emotion (Deposit.id deposit) env)).
Proof.
  intros Hin. unfold mark_and_log, patch_api_deposits_id_surface.
  destruct (head (returning _ _ (deposits (fst st)))) as [row|] eqn:Hhead.
  - unfold post_api_rainy_day_logs. rewrite body_log_parses. simpl.
    rewrite bool_decide_eq_true_2; [done|].
    apply Exists_exists.
    exists (set_lastSurfacedAt_status (round_now env) 30 deposit).
    split; [|done]. apply elem_of_update_where. exists deposit.
    split; [done|]. unfold eq_deposits_id. by rewrite bool_decide_eq_true_2.
  - pose proof (proj1 (head_returning_None _ _ _) Hhead deposit Hin) as Hfalse.
    unfold eq_deposits_id in Hfalse.
    by apply bool_decide_eq_false in Hfalse.
Qed.

Lemma active_count_marked (db : Db) (id : string) (now : Timestamp) :
  (active_count (marked db id now) ≤ active_count db)%nat
  ∧ ((∃ d, d ∈ deposits db ∧ Deposit.id d = id ∧ Deposit.status d = 0) →
     (active_count (marked db id now) < active_count db)%nat).
Proof.
  unfold active_count, marked. simpl. unfold update_where, eq_deposits_id.
  induction (deposits db) as [|r rows [IHle IHlt]].
  - split; [done|]. intros (d & Hd & _). by apply not_elem_of_nil in Hd.
  - rewrite fmap_cons, !filter_cons.
    destruct (decide (Deposit.id r = id)) as [Hr|Hr].
    + rewrite bool_decide_eq_true_2 by done. simpl.
      destruct (decide (Deposit.status r = 0)); simpl; [lia|].
      split; [lia|]. intros (d & Hd & Hid & Hstatus).
      apply elem_of_cons in Hd as [->|Hd]; [done|]. apply IHlt. eauto.
    + rewrite bool_decide_eq_false_2 by done.
      destruct (decide (Deposit.status r = 0)); simpl.
      * split; [lia|]. intros (d & Hd & Hid & Hstatus).
        apply elem_of_cons in Hd as [->|Hd]; [done|].
        assert (∃ d, d ∈ rows ∧ Deposit.id d = id ∧ Deposit.status d = 0)
          as Hex by eauto.
        specialize (IHlt Hex). lia.
      * split; [lia|]. intros (d & Hd & Hid & Hstatus).
        apply elem_of_cons in Hd as [->|Hd]; [done|]. apply IHlt. eauto.
Qed.

Lemma elem_of_marked (db : Db) (id : string) (now : Timestamp) (d' : Deposit.t) :
  d' ∈ deposits (marked db id now) →
  ∃ d, d ∈ deposits db ∧ Deposit.id d' = Deposit.id d
       ∧ (Deposit.id d = id → Deposit.status d' = 30)
       ∧ (Deposit.id d ≠ id → d' = d).
Proof.
  unfold marked. simpl. intros (d & Hd & ->)%elem_of_update_where.
  exists d. unfold eq_deposits_id. by case_bool_decide.
Qed.

(** What [advanceOrExit] does: the session is complete, or nothing is left
    to surface, or an active deposit is surfaced, cooled down and logged.
    It never lands in a [catch]. *)
Lemma advanceOrExit_outcome (st : Server) (params : Session.t)
    (updatedThumbsUp : Z) (env : Round) :
  let result := advanceOrExit st params updatedThumbsUp env in
  (result = (st, Left Completed)
   ∧ Session.sessionTarget params ≤ Session.sessionShown params
   ∧ 0 < updatedThumbsUp)
  ∨ (result = (st, Left RanOut)
     ∧ ¬ (Session.sessionTarget params ≤ Session.sessionShown params
          ∧ 0 < updatedThumbsUp)
     ∧ fst (get_api_deposits_surface (fst st)
              (Some (join_comma (Session.excludeIds params
                                 ++ [Session.memory params])))
              (round_random env))
       = Sent 200 None)
  ∨ (∃ deposit,
       deposit ∈ deposits (fst st) ∧ Deposit.status deposit = 0
       ∧ ¬ (Session.sessionTarget params ≤ Session.sessionShown params
            ∧ 0 < updatedThumbsUp)
       ∧ result
         = ((marked (fst st) (Deposit.id deposit) (round_now env),
             (snd st ++ [round_log (Session.emotion params)
                                   (Deposit.id deposit) env])%list),
            Playback
              (Session.mk (Deposit.id deposit) (Session.emotion params)
                          (Some (round_logId env))
                          (Session.sessionTarget params)
                          (Session.sessionShown params + 1)
                          updatedThumbsUp
                          (Session.excludeIds params
                           ++ [Session.memory params])%list)
              None)).
Proof.
  unfold advanceOrExit.
  destruct (bool_decide (_ ≤ _) && bool_decide (0 < _)) eqn:Hcomplete.
  - left. apply andb_prop in Hcomplete as [H1 H2].
    apply bool_decide_eq_true in H1, H2. done.
  - assert (¬ (Session.sessionTarget params ≤ Session.sessionShown params
               ∧ 0 < updatedThumbsUp)) as Hnot.
    { intros [H1 H2]. apply andb_false_iff in Hcomplete as [H|H];
        apply bool_decide_eq_false in H; done. }
    right. rewrite get_api_deposits_surface_pair.
    destruct (surface_reply_cases (fst st)
                (Some (join_comma (Session.excludeIds params
                                   ++ [Session.memory params])))
                (round_random env)) as [Hnone|(d & -> & Hin & Hstatus & _)].
    + left. rewrite Hnone. by destruct st.
    + right. exists d. rewrite mark_and_log_succeeds by done.
      done.
Qed.

Lemma shown_ids_next (params : Session.t) (id : string) (target shown up : Z)
    (emotion : string) (logId : option string) :
  Session.excludeIds params ≠ [] →
  shown_ids (Session.mk id emotion logId target shown up
                        (Session.excludeIds params ++ [Session.memory params]))
  = (shown_ids params ++ [id])%list.
Proof.
  unfold shown_ids. simpl. by destruct (Session.excludeIds params).
Qed.

Lemma session_ok_feedback (budget : nat) (st : Server) (params : Session.t)
    (logId : string) (body : FeedbackBody.t) :
  session_ok budget st params →
  session_ok budget (send_feedback st logId body) params.
Proof.
  intros (Hne & Hnodup & Hshown & Hsub & Hcool & Hbudget & Hup & Hlog).
  repeat (split; [done|]). destruct Hlog as (l & Hl & Hid & Hdep & Hemo).
  unfold send_feedback. simpl.
  rewrite snd_patch_api_rainy_day_logs_id_feedback.
  destruct (rating_refused _); [eauto 6|].
  exists (if eq_rainyDayLogs_id logId l then set_feedback body l else l).
  split; [apply elem_of_update_where; eauto|].
  by destruct (eq_rainyDayLogs_id logId l).
Qed.

Lemma session_ok_start (st : Server) (emotion : string) (target : Z)
    (deposit : Deposit.t) (env : Round) :
  deposit ∈ deposits (fst st) → Deposit.status deposit = 0 →
  session_ok (active_count (fst st))
    (marked (fst st) (Deposit.id deposit) (round_now env),
     (snd st ++ [round_log emotion (Deposit.id deposit) env])%list)
    (Session.mk (Deposit.id deposit) emotion (Some (round_logId env)) target
                1 0 [Deposit.id deposit]).
Proof.
  intros Hin Hstatus. unfold session_ok, shown_ids. simpl.
  split; [done|]. split; [apply NoDup_singleton|]. split; [done|].
  split; [done|]. split; [|split; [|split; [lia|]]].
  - intros d' Hd' Hid%list_elem_of_singleton.
    apply elem_of_marked in Hd' as (d & _ & Hsame & Hcool & _).
    apply Hcool. congruence.
  - pose proof (proj2 (active_count_marked (fst st) (Deposit.id deposit)
                         (round_now env))) as Hlt.
    assert (∃ d, d ∈ deposits (fst st) ∧ Deposit.id d = Deposit.id deposit
                 ∧ Deposit.status d = 0) as Hex by eauto.
    specialize (Hlt Hex). lia.
  - exists (round_log emotion (Deposit.id deposit) env).
    split; [apply elem_of_app; right; by left|done].
Qed.

Lemma session_ok_next (budget : nat) (st : Server) (params : Session.t)
    (up : Z) (deposit : Deposit.t) (env : Round) :
  session_ok budget st params →
  0 ≤ up ≤ Session.sessionThumbsUp params + 1 →
  deposit ∈ deposits (fst st) → Deposit.status deposit = 0 →
  (Deposit.id deposit ∉ shown_ids params)
  ∧ session_ok budget
      (marked (fst st) (Deposit.id deposit) (round_now env),
       (snd st ++ [round_log (Session.emotion params) (Deposit.id deposit)
                             env])%list)
      (Session.mk (Deposit.id deposit) (Session.emotion params)
                  (Some (round_logId env)) (Session.sessionTarget params)
                  (Session.sessionShown params + 1) up
                  (Session.excludeIds params ++ [Session.memory params])).
Proof.
  intros (Hne & Hnodup & Hshown & Hsub & Hcool & Hbudget & Hup & Hlog)
         Hrange Hin Hstatus.
  assert (Deposit.id deposit ∉ shown_ids params) as Hnew.
  { intros Hold. specialize (Hcool deposit Hin Hold). lia. }
  split; [done|]. unfold session_ok. rewrite shown_ids_next by done. simpl.
  split; [by destruct (Session.excludeIds params)|].
  split; [apply NoDup_app; split; [done|]; split;
          [by intros x Hx ->%list_elem_of_singleton|apply NoDup_singleton]|].
  split; [rewrite length_app; simpl; lia|].
  split; [|split; [|split; [|split; [lia|]]]].
  - intros x [Hx| ->%list_elem_of_singleton]%elem_of_app;
      apply elem_of_app; left; [by apply Hsub|].
    unfold shown_ids. apply elem_of_app. right. by left.
  - intros d' Hd' Hid.
    apply elem_of_marked in Hd' as (d & Hd & Hsame & Hthirty & Hkeep).
    destruct (decide (Deposit.id d = Deposit.id deposit)) as [Heq|Hneq];
      [by apply Hthirty|].
    rewrite (Hkeep Hneq) in *. apply Hcool; [done|].
    apply elem_of_app in Hid as [Hid|Hid%list_elem_of_singleton]; done.
  - pose proof (proj2 (active_count_marked (fst st) (Deposit.id deposit)
                         (round_now env))) as Hlt.
    assert (∃ d, d ∈ deposits (fst st) ∧ Deposit.id d = Deposit.id deposit
                 ∧ Deposit.status d = 0) as Hex by eauto.
    specialize (Hlt Hex). rewrite length_app. simpl. lia.
  - exists (round_log (Session.emotion params) (Deposit.id deposit) env).
    split; [apply elem_of_app; right; by left|done].
Qed.

Lemma advanceOrExit_ok (budget : nat) (st : Server) (params : Session.t)
    (up : Z) (env : Round) :
  session_ok budget st params →
  0 ≤ up ≤ Session.sessionThumbsUp params + 1 →
  screen_ok budget (fst (advanceOrExit st params up env))
            (snd (advanceOrExit st params up env)).
Proof.
  intros Hok Hrange.
  destruct (advanceOrExit_outcome st params up env)
    as [[-> _]|[[-> _]|(d & Hin & Hstatus & _ & ->)]]; [done|done|].
  simpl. by apply session_ok_next.
Qed.

Lemma press_ok (budget : nat) (st : Server) (screen : Screen) (p : Press)
    (env : Round) :
  screen_ok budget st screen →
  screen_ok budget (fst (press st screen p env)) (snd (press st screen p env)).
Proof.
  destruct screen as [params rating|why]; [|done]. simpl. intros Hok.
  assert (∀ value,
            session_ok budget
              (if truthy (Session.logId params)
               then send_feedback st (default EmptyString (Session.logId params))
                                  (FeedbackBody.mk (Some (JNum value)) None)
               else st) params) as Hfed.
  { intros value. destruct (truthy _); [by apply session_ok_feedback|done]. }
  pose proof Hok as (_ & _ & _ & _ & _ & _ & Hup & _).
  destruct p; destruct rating as [[|q|[q|q|]]|]; simpl; try done;
    unfold handleRating, handleSubmitFeedback, handleSkipFeedback; simpl;
    try (apply advanceOrExit_ok; [first [done|apply Hfed]|lia]);
    try apply Hfed.
  destruct (negb _ || negb _); [done|].
  apply advanceOrExit_ok; [by apply session_ok_feedback|lia].
Qed.

Lemma handleFindJoy_ok (st : Server) (emotion : string) (target : Z)
    (env : Round) :
  screen_ok (active_count (fst st))
            (fst (handleFindJoy st emotion target env))
            (snd (handleFindJoy st emotion target env)).
Proof.
  unfold handleFindJoy. destruct (decide (emotion = EmptyString)); [done|].
  rewrite get_api_deposits_surface_pair.
  destruct (surface_reply_cases (fst st) None (round_random env))
    as [->|(d & -> & Hin & Hstatus & _)]; [done|].
  rewrite mark_and_log_succeeds by done. simpl. by apply session_ok_start.
Qed.

Lemma play_on_ok (budget : nat) (start : Server * Screen)
    (presses : list (Press * Round)) :
  screen_ok budget (fst start) (snd start) →
  screen_ok budget (fst (play_on start presses)) (snd (play_on start presses)).
Proof.
  unfold play_on. revert start.
  induction presses as [|[p env] presses IH]; intros [st screen] Hok; [done|].
  simpl. apply IH. by apply press_ok.
Qed.

Lemma playback_screen_has_log (st : Server) (emotion : string)
    (sessionTarget : Z) (env : Round) (presses : list (Press * Round))
    (st' : Server) (params : Session.t) (rating : option Z) :
  play st emotion sessionTarget env presses = (st', Playback params rating) →
  ∃ l, l ∈ snd st'
       ∧ Session.logId params = Some (RainyDayLog.id l)
       ∧ RainyDayLog.depositId l = Some (Session.memory params)
       ∧ RainyDayLog.emotion l = Session.emotion params.
Proof.
  intros Hplay.
  pose proof (play_on_ok (active_count (fst st))
                (handleFindJoy st emotion sessionTarget env) presses
                (handleFindJoy_ok st emotion sessionTarget env)) as Hok.
  unfold play in Hplay. rewrite Hplay in Hok. simpl in Hok.
  by destruct Hok as (_ & _ & _ & _ & _ & _ & _ & Hlog).
Qed.

(** X22.  However the user presses, a session shows no deposit twice: the
    deposits shown so far are distinct, [sessionShown] is their number,
    every one of them is in the thirty-day cooldown, and the one on screen
    has its log row, with the emotion of the session. *)
Theorem session_shows_each_deposit_once (st : Server) (emotion : string)
    (sessionTarget : Z) (env : Round) (presses : list (Press * Round))
    (st' : Server) (params : Session.t) (rating : option Z) :
  play st emotion sessionTarget env presses = (st', Playback params rating) →
  NoDup (shown_ids params)
  ∧ Session.sessionShown params = Z.of_nat (length (shown_ids params))
  ∧ (∀ d, d ∈ deposits (fst st') → Deposit.id d ∈ shown_ids params →
          Deposit.status d = 30)
  ∧ (∃ l, l ∈ snd st'
          ∧ Session.logId params = Some (RainyDayLog.id l)
          ∧ RainyDayLog.depositId l = Some (Session.memory params)
          ∧ RainyDayLog.emotion l = Session.emotion params).
Proof.
  intros Hplay.
  pose proof (play_on_ok (active_count (fst st))
                (handleFindJoy st emotion sessionTarget env) presses
                (handleFindJoy_ok st emotion sessionTarget env)) as Hok.
  unfold play in Hplay. rewrite Hplay in Hok. simpl in Hok.
  destruct Hok as (_ & Hnodup & Hshown & _ & Hcool & _ & _ & Hlog). done.
Qed.


Lemma session_shows_each_deposit_once_witness :
  ∃ st' params rating,
    play (two_active_db, []) "Sad" 2 round_example
         [(PressNotHelpful, round_example);
          (PressSkip, mkRound one_half 6000 "L2" 6001)]
    = (st', Playback params rating)
    ∧ shown_ids params = ["D2"; "D1"]
    ∧ NoDup (shown_ids params)
    ∧ Session.sessionShown params = 2.
Proof.
  eexists _, _, _. split; [vm_compute; reflexivity|].
  split; [reflexivity|].
  destruct (session_shows_each_deposit_once (two_active_db, []) "Sad" 2
              round_example
              [(PressNotHelpful, round_example);
               (PressSkip, mkRound one_half 6000 "L2" 6001)]
              _ _ _ ltac:(vm_compute; reflexivity)) as (Hnodup & Hshown & _).
  split; [exact Hnodup|exact Hshown].
Defined.


Lemma press_no_thumbs_up (st : Server) (screen : Screen) (p : Press)
    (env : Round) :
  no_thumbs_up screen → ¬ positive_press p →
  no_thumbs_up (snd (press st screen p env)).
Proof.
  destruct screen as [params rating|why]; [|done]. simpl.
  intros Hzero Hp.
  assert (∀ st1, no_thumbs_up
                   (snd (advanceOrExit st1 params
                           (Session.sessionThumbsUp params) env))) as Hadv.
  { intros st1.
    destruct (advanceOrExit_outcome st1 params
                (Session.sessionThumbsUp params) env)
      as [(_ & _ & Hup)|[[-> _]|(d & _ & _ & _ & ->)]]; [lia|done|done]. }
  destruct p; destruct rating as [[|q|[q|q|]]|]; simpl; try done;
    unfold handleRating, handleSubmitFeedback, handleSkipFeedback; simpl;
    try apply Hadv.
  - destruct Hp. by left.
  - destruct Hp. by right.
  - destruct (negb _ || negb _); [done|apply Hadv].
Qed.

Lemma play_on_completed (start : Server * Screen)
    (presses : list (Press * Round)) :
  no_thumbs_up (snd start) →
  snd (play_on start presses) = Left Completed →
  Exists (λ pe, positive_press (fst pe)) presses.
Proof.
  unfold play_on. revert start.
  induction presses as [|[p env] presses IH]; intros [st screen] Hzero Hdone.
  - simpl in *. by rewrite Hdone in Hzero.
  - assert (positive_press p ∨ ¬ positive_press p) as [Hp|Hp].
    { unfold positive_press.
      destruct p; first [left; by left|left; by right|right; by intros [|]]. }
    + apply Exists_cons. by left.
    + apply Exists_cons. right. simpl in Hdone.
      apply (IH (press st screen p env)); [|done].
      by apply press_no_thumbs_up.
Qed.

(** X24.  A session completes only on a thumbs up: when the target number
    of deposits has been shown, a loved-it or a helpful rating ends the
    session at once, and no further deposit is surfaced or cooled down;
    and a session that ended complete has had such a rating among its
    presses. *)
Theorem session_completes_on_thumbs_up (st : Server) :
  (∀ params p env,
     positive_press p →
     Session.sessionTarget params ≤ Session.sessionShown params →
     0 ≤ Session.sessionThumbsUp params →
     snd (press st (Playback params None) p env) = Left Completed
     ∧ fst (fst (press st (Playback params None) p env)) = fst st)
  ∧ (∀ emotion sessionTarget env presses,
       snd (play st emotion sessionTarget env presses) = Left Completed →
       Exists (λ pe, positive_press (fst pe)) presses).
Proof.
  split.
  - intros params p env Hp Htarget Hup.
    assert (∀ value,
              fst (if truthy (Session.logId params)
                   then send_feedback st
                          (default EmptyString (Session.logId params))
                          (FeedbackBody.mk (Some (JNum value)) None)
                   else st) = fst st) as Hdb.
    { intros value. by destruct (truthy _). }
    destruct Hp as [->| ->]; simpl; unfold handleRating; simpl;
      unfold advanceOrExit;
      rewrite !bool_decide_eq_true_2 by lia; simpl; by rewrite Hdb.
  - intros emotion sessionTarget env presses Hdone.
    apply (play_on_completed (handleFindJoy st emotion sessionTarget env));
      [|done].
    unfold handleFindJoy. destruct (decide (emotion = EmptyString)); [done|].
    rewrite get_api_deposits_surface_pair.
    destruct (surface_reply_cases (fst st) None (round_random env))
      as [->|(d & -> & Hin & _)]; [done|].
    by rewrite mark_and_log_succeeds.
Qed.

Lemma session_completes_on_thumbs_up_witness :
  snd (play (scenario_db, []) "Sad" 1 round_example
            [(PressHelpful, round_example)])
  = Left Completed
  ∧ Exists (λ pe, positive_press (fst pe)) [(PressHelpful, round_example)].
Proof.
  assert (snd (play (scenario_db, []) "Sad" 1 round_example
                    [(PressHelpful, round_example)])
          = Left Completed) as Hdone by (vm_compute; reflexivity).
  split; [exact Hdone|].
  exact (proj2 (session_completes_on_thumbs_up (scenario_db, []))
           "Sad" 1 round_example [(PressHelpful, round_example)] Hdone).
Defined.

Lemma surface_none_excluded (db : Db) (excludeParam : option string)
    (random : Random) (d : Deposit.t) :
  unit_interval random →
  fst (get_api_deposits_surface db excludeParam random) = Sent 200 None →
  d ∈ deposits db → Deposit.status d = 0 →
  Deposit.id d ∈ excludeIds_of excludeParam.
Proof.
  intros Hrandom Hnone Hin Hstatus.
  destruct (decide (Deposit.id d ∈ excludeIds_of excludeParam)) as [|Hout];
    [done|].
  assert (eligible db (excludeIds_of excludeParam) d) as Hel by done.
  apply elem_of_surface_candidates in Hel.
  unfold get_api_deposits_surface in Hnone. rewrite surface_candidates in Hnone.
  set (rows := filter _ (deposits db)) in *.
  assert (rows ≠ []) as Hne by (intros Hnil; rewrite Hnil in Hel;
                                by apply not_elem_of_nil in Hel).
  rewrite decide_False in Hnone by (by intros ?%length_zero_iff_nil).
  destruct (js_index_in_range rows random Hrandom Hne) as (d' & Hd' & _).
  simpl in Hnone. by rewrite Hd' in Hnone.
Qed.

Lemma plain_ids_marked (db : Db) (id : string) (now : Timestamp) :
  plain_ids db → plain_ids (marked db id now).
Proof.
  unfold plain_ids. rewrite !Forall_forall. intros Hdb d' Hd'.
  apply elem_of_marked in Hd' as (d & Hd & -> & _). by apply Hdb.
Qed.

Lemma active_count_zero (db : Db) :
  (∀ d, d ∈ deposits db → Deposit.status d ≠ 0) → active_count db = 0%nat.
Proof.
  intros Hnone. unfold active_count. by rewrite filter_none.
Qed.

Lemma advanceOrExit_drained (budget : nat) (st : Server) (params : Session.t)
    (up : Z) (env : Round) :
  screen_drained budget st (Playback params None) →
  unit_interval (round_random env) →
  0 ≤ up ≤ Session.sessionThumbsUp params + 1 →
  screen_drained budget (fst (advanceOrExit st params up env))
                 (snd (advanceOrExit st params up env)).
Proof.
  intros (Hplain & Hok & Hshown) Hrandom Hrange.
  destruct (advanceOrExit_outcome st params up env)
    as [[-> _]|[(-> & _ & Hnone)|(d & Hin & Hstatus & _ & ->)]]; simpl.
  - done.
  - split; [done|]. apply active_count_zero. intros d Hd Hstatus.
    destruct Hok as (Hne & _ & _ & Hsub & Hcool & _).
    assert (Forall plain_id
              (Session.excludeIds params ++ [Session.memory params])) as Hnew.
    { rewrite Forall_forall in Hshown. apply Forall_forall.
      intros x [Hx| ->%list_elem_of_singleton]%elem_of_app; apply Hshown;
        [by apply Hsub|].
      unfold shown_ids. apply elem_of_app. right. by left. }
    pose proof (surface_none_excluded _ _ _ d Hrandom Hnone Hd Hstatus) as Hex.
    rewrite excludeIds_of_join_comma in Hex by done.
    assert (Deposit.id d ∈ shown_ids params) as Hold.
    { apply elem_of_app in Hex as [Hx|Hx%list_elem_of_singleton];
        [by apply Hsub|].
      rewrite Hx. unfold shown_ids. apply elem_of_app. right. by left. }
    specialize (Hcool d Hd Hold). lia.
  - split; [by apply plain_ids_marked|].
    destruct (session_ok_next budget st params up d env Hok Hrange Hin Hstatus)
      as [_ Hok'].
    split; [done|].
    rewrite shown_ids_next by (by destruct Hok).
    apply Forall_app. split; [done|]. apply Forall_singleton.
    unfold plain_ids in Hplain. rewrite Forall_forall in Hplain.
    by apply Hplain.
Qed.

Lemma screen_drained_feedback (budget : nat) (st : Server)
    (params : Session.t) (rating : option Z) (logId : string)
    (body : FeedbackBody.t) :
  screen_drained budget st (Playback params rating) →
  screen_drained budget (send_feedback st logId body) (Playback params None).
Proof.
  intros (Hplain & Hok & Hshown). split; [done|].
  split; [by apply session_ok_feedback|done].
Qed.

Lemma press_drained (budget : nat) (st : Server) (screen : Screen) (p : Press)
    (env : Round) :
  screen_drained budget st screen →
  unit_interval (round_random env) →
  screen_drained budget (fst (press st screen p env))
                 (snd (press st screen p env)).
Proof.
  destruct screen as [params rating|why]; [|done]. intros Hok Hrandom.
  assert (∀ value,
            screen_drained budget
              (if truthy (Session.logId params)
               then send_feedback st (default EmptyString (Session.logId params))
                                  (FeedbackBody.mk (Some (JNum value)) None)
               else st) (Playback params None)) as Hfed.
  { intros value. destruct (truthy _); [by eapply screen_drained_feedback|].
    destruct Hok as (Hp & Hs & Hf). exact (conj Hp (conj Hs Hf)). }
  assert (screen_drained budget st (Playback params None)) as Hnone.
  { destruct Hok as (Hp & Hs & Hf). exact (conj Hp (conj Hs Hf)). }
  pose proof Hok as (_ & (_ & _ & _ & _ & _ & _ & Hup & _) & _).
  simpl.
  destruct p; destruct rating as [[|q|[q|q|]]|]; simpl; try done;
    unfold handleRating, handleSubmitFeedback, handleSkipFeedback; simpl;
    try (apply advanceOrExit_drained; [first [done|apply Hfed]|done|lia]).
  - destruct (Hfed (-1)) as (Hp & Hs & Hf). exact (conj Hp (conj Hs Hf)).
  - destruct (negb _ || negb _); [done|].
    apply advanceOrExit_drained; [|done|lia].
    by eapply screen_drained_feedback.
  - by destruct Hok.
  - by destruct Hok.
  - by destruct Hok.
  - by destruct Hok.
  - by destruct Hok.
  - by destruct Hok.
Qed.

Lemma handleFindJoy_drained (st : Server) (emotion : string) (target : Z)
    (env : Round) :
  plain_ids (fst st) → unit_interval (round_random env) →
  screen_drained (active_count (fst st))
                 (fst (handleFindJoy st emotion target env))
                 (snd (handleFindJoy st emotion target env)).
Proof.
  intros Hplain Hrandom. unfold handleFindJoy.
  destruct (decide (emotion = EmptyString)); [done|].
  rewrite get_api_deposits_surface_pair.
  destruct (surface_reply_cases (fst st) None (round_random env))
    as [Hnone|(d & -> & Hin & Hstatus & _)].
  - rewrite Hnone. simpl. split; [done|]. apply active_count_zero.
    intros d Hd Hstatus.
    pose proof (surface_none_excluded _ _ _ d Hrandom Hnone Hd Hstatus) as Hex.
    by apply not_elem_of_nil in Hex.
  - rewrite mark_and_log_succeeds by done. simpl.
    split; [by apply plain_ids_marked|].
    split; [by apply session_ok_start|].
    unfold shown_ids. simpl. apply Forall_singleton.
    unfold plain_ids in Hplain. rewrite Forall_forall in Hplain.
    by apply Hplain.
Qed.

(** X25.  With deposit ids that hold no comma and are not empty, and draws
    of [Math.random()] in its interval, a session stops for lack of deposits
    only when no deposit at all is left active.  A session on a reserve
    without an active deposit does not start: it writes one log row, with
    the emotion and no deposit. *)
Theorem session_stops_when_drained (st : Server) (emotion : string)
    (sessionTarget : Z) (env : Round) (presses : list (Press * Round)) :
  plain_ids (fst st) →
  unit_interval (round_random env) →
  Forall (λ pe, unit_interval (round_random (snd pe))) presses →
  let result := play st emotion sessionTarget env presses in
  (snd result = Left NoDeposits ∨ snd result = Left RanOut →
   active_count (fst (fst result)) = 0%nat)
  ∧ (emotion ≠ EmptyString → active_count (fst st) = 0%nat →
     handleFindJoy st emotion sessionTarget env
     = ((fst st,
         (snd st ++ [RainyDayLog.mk (round_logId env) emotion None None None
                                    (round_logNow env)])%list),
        Left NoDeposits)).
Proof.
  intros Hplain Hrandom Hpresses result. split.
  - assert (screen_drained (active_count (fst st)) (fst result) (snd result))
      as Hdrained.
    { subst result. unfold play, play_on.
      pose proof (handleFindJoy_drained st emotion sessionTarget env
                    Hplain Hrandom) as Hstart.
      revert Hstart. generalize (handleFindJoy st emotion sessionTarget env).
      induction Hpresses as [|[p env'] presses Hp _ IH]; intros [st1 screen];
        [done|].
      simpl. intros Hstart. apply IH. by apply press_drained. }
    intros [Hend|Hend]; rewrite Hend in Hdrained; apply Hdrained.
  - intros Hemotion Hzero. unfold handleFindJoy.
    rewrite decide_False by done. rewrite get_api_deposits_surface_pair.
    destruct (surface_reply_cases (fst st) None (round_random env))
      as [->|(d & _ & Hin & Hstatus & _)].
    + unfold post_api_rainy_day_logs. by rewrite body_log_parses.
    + unfold active_count in Hzero. apply length_zero_iff_nil in Hzero.
      exfalso. by eapply (filter_nil_not_elem_of _ _ d).
Qed.

Lemma session_stops_when_drained_witness :
  plain_ids scenario_db
  ∧ snd (play (scenario_db, []) "Sad" 3 round_example
              [(PressNotHelpful, round_example);
               (PressSkip, mkRound one_half 6000 "L2" 6001)])
    = Left RanOut
  ∧ active_count
      (fst (fst (play (scenario_db, []) "Sad" 3 round_example
                      [(PressNotHelpful, round_example);
                       (PressSkip, mkRound one_half 6000 "L2" 6001)])))
    = 0%nat.
Proof.
  assert (plain_ids scenario_db) as Hplain.
  { unfold plain_ids. rewrite scenario_deposits.
    repeat constructor; done. }
  assert (unit_interval one_half) as Hhalf
    by (unfold unit_interval; simpl; lia).
  assert (snd (play (scenario_db, []) "Sad" 3 round_example
                    [(PressNotHelpful, round_example);
                     (PressSkip, mkRound one_half 6000 "L2" 6001)])
          = Left RanOut) as Hend by (vm_compute; reflexivity).
  split; [exact Hplain|]. split; [exact Hend|].
  apply (session_stops_when_drained (scenario_db, []) "Sad" 3 round_example
           [(PressNotHelpful, round_example);
            (PressSkip, mkRound one_half 6000 "L2" 6001)]);
    [exact Hplain|exact Hhalf|by repeat constructor|by right].
Defined.

(** X26.  The rating the user presses is recorded on the log row of the
    deposit on screen: after the press that row carries the number of the
    button, 2 for loved it, 1 for helpful, -1 for not helpful, whether the
    session then goes on or ends. *)
Theorem pressed_rating_is_logged (st : Server) (emotion : string)
    (sessionTarget : Z) (env : Round) (presses : list (Press * Round))
    (st1 : Server) (params : Session.t) (p : Press) (value : Z)
    (env' : Round) :
  play st emotion sessionTarget env presses = (st1, Playback params None) →
  (p = PressLoved ∧ value = 2 ∨ p = PressHelpful ∧ value = 1
   ∨ p = PressNotHelpful ∧ value = -1) →
  truthy (Session.logId params) = true →
  ∃ l, l ∈ snd (fst (play st emotion sessionTarget env
                          (presses ++ [(p, env')])))
       ∧ Session.logId params = Some (RainyDayLog.id l)
       ∧ RainyDayLog.depositId l = Some (Session.memory params)
       ∧ RainyDayLog.emotion l = Session.emotion params
       ∧ RainyDayLog.rating l = Some value.
Proof.
  intros Hplay Hp Htruthy.
  destruct (playback_screen_has_log st emotion sessionTarget env
              presses st1 params None Hplay) as (l & Hl & Hid & Hdep & Hemo).
  unfold play, play_on in *. rewrite foldl_app, Hplay. simpl.
  assert (handleRating st1 params value env'
          = (let st2 := send_feedback st1 (RainyDayLog.id l)
                          (FeedbackBody.mk (Some (JNum value)) None) in
             if decide (0 < value)
             then advanceOrExit st2 params (Session.sessionThumbsUp params + 1)
                                env'
             else (st2, Playback params (Some value)))) as Hrate.
  { unfold handleRating. rewrite Htruthy, Hid. done. }
  assert (snd (send_feedback st1 (RainyDayLog.id l)
                 (FeedbackBody.mk (Some (JNum value)) None))
          = update_where (eq_rainyDayLogs_id (RainyDayLog.id l))
                         (set_feedback (FeedbackBody.mk (Some (JNum value)) None))
                         (snd st1)) as Hlogs.
  { unfold send_feedback. simpl.
    rewrite snd_patch_api_rainy_day_logs_id_feedback. simpl.
    by destruct Hp as [[_ ->]|[[_ ->]|[_ ->]]]. }
  set (l' := set_feedback (FeedbackBody.mk (Some (JNum value)) None) l).
  assert (l' ∈ snd (send_feedback st1 (RainyDayLog.id l)
                      (FeedbackBody.mk (Some (JNum value)) None))) as Hl'.
  { rewrite Hlogs. apply elem_of_update_where. exists l. split; [done|].
    unfold eq_rainyDayLogs_id. by rewrite bool_decide_eq_true_2. }
  assert (∀ st2 up,
            l' ∈ snd st2 →
            l' ∈ snd (fst (advanceOrExit st2 params up env'))) as Hadv.
  { intros st2 up Hin.
    destruct (advanceOrExit_outcome st2 params up env')
      as [[-> _]|[[-> _]|(d & _ & _ & _ & ->)]]; [done|done|].
    simpl. apply elem_of_app. by left. }
  exists l'.
  assert (l' ∈ snd (fst (handleRating st1 params value env'))) as Hin.
  { rewrite Hrate. simpl. destruct (decide (0 < value)); [by apply Hadv|done]. }
  split; [|done].
  by destruct Hp as [[-> ->]|[[-> ->]|[-> ->]]].
Qed.

Lemma pressed_rating_is_logged_witness :
  ∃ l, l ∈ snd (fst (play (scenario_db, []) "Sad" 3 round_example
                          ([] ++ [(PressLoved, round_example)])%list))
       ∧ RainyDayLog.emotion l = "Sad"
       ∧ RainyDayLog.rating l = Some 2.
Proof.
  assert (∃ st1 params,
            play (scenario_db, []) "Sad" 3 round_example []
            = (st1, Playback params None)
            ∧ truthy (Session.logId params) = true
            ∧ Session.emotion params = "Sad")
    as (st1 & params & Hplay & Htruthy & Hemotion)
    by (vm_compute; eauto).
  destruct (pressed_rating_is_logged (scenario_db, []) "Sad" 3 round_example
              [] st1 params PressLoved 2 round_example Hplay
              (or_introl (conj eq_refl eq_refl)) Htruthy)
    as (l & Hl & _ & _ & Hemo & Hrating).
  exists l. split; [exact Hl|]. split; [by rewrite Hemo|exact Hrating].
Defined.

(** * The local store *)

Lemma js_index_elem_of {A : Type} (rows : list A) (i : Z) (r : A) :
  js_index rows i = Some r → r ∈ rows.
Proof.
  unfold js_index. destruct (decide (0 ≤ i)); [|done].
  apply list_elem_of_lookup_2.
Qed.

Lemma filter_all {A : Type} (P : A → Prop) `{!∀ x, Decision (P x)}
    (l : list A) :
  Forall P l → filter P l = l.
Proof.
  induction 1 as [|x l Hx _ IH]; [done|].
  rewrite filter_cons, decide_True by done. by rewrite IH.
Qed.

Lemma filter_length_all {A : Type} (P : A → Prop) `{!∀ x, Decision (P x)}
    (l : list A) :
  length (filter P l) = length l → Forall P l.
Proof.
  intros Hlen. apply Forall_forall. intros x Hx.
  destruct (decide (P x)) as [|Hno]; [done|].
  pose proof (length_filter_lt P l x Hx Hno). lia.
Qed.

Lemma getEligibleMemoryForSurfacing_Some (store : Storage) (now : Z)
    (random : Random) (m : Memory.t) :
  getEligibleMemoryForSurfacing store now random = Some m →
  m ∈ getMemories store
  ∧ (due (intervalMs store) now m
     ∨ ∀ m', m' ∈ getMemories store → ¬ due (intervalMs store) now m').
Proof.
  unfold getEligibleMemoryForSurfacing.
  destruct (decide (length (getMemories store) = 0%nat)); [done|].
  destruct (decide (length (filter (due (intervalMs store) now)
                                   (getMemories store)) = 0%nat))
    as [Hnone|_]; intros Hm%js_index_elem_of.
  - split; [done|]. right. intros m' Hm' Hdue.
    apply length_zero_iff_nil in Hnone.
    by eapply (filter_nil_not_elem_of _ _ m').
  - apply list_elem_of_filter in Hm as [Hdue Hm]. split; [done|by left].
Qed.

(** X27.  The local pick of a memory to surface returns nothing only from
    an empty store.  What it returns is a stored memory that was never
    surfaced or was surfaced at least the resurface interval ago; when no
    memory is that, it falls back to any stored memory. *)
Theorem eligible_memory_falls_back (store : Storage) (now : Z)
    (random : Random) :
  unit_interval random →
  (getEligibleMemoryForSurfacing store now random = None
   ↔ getMemories store = [])
  ∧ ∀ m, getEligibleMemoryForSurfacing store now random = Some m →
         m ∈ getMemories store
         ∧ (due (intervalMs store) now m
            ∨ ∀ m', m' ∈ getMemories store
                    → ¬ due (intervalMs store) now m').
Proof.
  intros Hrandom. split; [|apply getEligibleMemoryForSurfacing_Some].
  unfold getEligibleMemoryForSurfacing. split.
  - destruct (decide (length (getMemories store) = 0%nat)) as [Hlen|Hlen];
      [by apply length_zero_iff_nil in Hlen|].
    assert (getMemories store ≠ []) as Hne
      by (by intros ?%length_zero_iff_nil).
    destruct (decide (length (filter (due (intervalMs store) now)
                                     (getMemories store)) = 0%nat))
      as [_|Hsome]; intros Hnone.
    + destruct (js_index_in_range (getMemories store) random Hrandom Hne)
        as (r & Hr & _). congruence.
    + assert (filter (due (intervalMs store) now) (getMemories store) ≠ [])
        as Hne' by (by intros ?%length_zero_iff_nil).
      destruct (js_index_in_range _ random Hrandom Hne') as (r & Hr & _).
      congruence.
  - intros ->. done.
Qed.

Lemma eligible_memory_falls_back_witness :
  getEligibleMemoryForSurfacing store_example 8000 one_half
  = Some (memory_example "m2" None None)
  ∧ memory_example "m2" None None ∈ getMemories store_example
  ∧ getMemories store_example ≠ [].
Proof.
  assert (unit_interval one_half) as Hhalf
    by (unfold unit_interval; simpl; lia).
  assert (getEligibleMemoryForSurfacing store_example 8000 one_half
          = Some (memory_example "m2" None None)) as Hpick
    by (vm_compute; reflexivity).
  destruct (eligible_memory_falls_back store_example 8000 one_half Hhalf)
    as [Hnone Hsome].
  split; [exact Hpick|]. split.
  - exact (proj1 (Hsome _ Hpick)).
  - intros Hempty. apply Hnone in Hempty. congruence.
Defined.

Lemma markMemoryAsSurfaced_settings (store : Storage) (id : string)
    (now : Z) :
  intervalMs (markMemoryAsSurfaced store id now) = intervalMs store.
Proof.
  unfold markMemoryAsSurfaced, updateMemory.
  by destruct (list_find (has_id id) (getMemories store)) as [[i m]|].
Qed.

Lemma markMemoryAsSurfaced_time (store : Storage) (id : string) (now : Z)
    (m : Memory.t) :
  NoDup (Memory.id <$> getMemories store) →
  m ∈ getMemories (markMemoryAsSurfaced store id now) →
  Memory.id m = id →
  Memory.lastSurfacedAt m = Some now.
Proof.
  intros Hnodup Hm Hid. unfold markMemoryAsSurfaced, updateMemory in Hm.
  destruct (list_find (has_id id) (getMemories store)) as [[i m0]|] eqn:Hfind.
  - change (m ∈ <[i := spread_memory m0
                        (MemoryUpdates.mk None None None None None None None
                                          (Some (Some now)) None)]>
                 (getMemories store)) in Hm.
    apply list_find_Some in Hfind as (Hi & Hid0 & _).
    apply list_elem_of_lookup in Hm as [j Hj].
    destruct (decide (i = j)) as [<-|Hij].
    + rewrite list_lookup_insert_eq in Hj by (by eapply lookup_lt_Some).
      by inversion Hj.
    + rewrite list_lookup_insert_ne in Hj by done.
      destruct Hij. eapply (NoDup_lookup _ i j id Hnodup).
      * rewrite list_lookup_fmap, Hi. simpl. by rewrite Hid0.
      * rewrite list_lookup_fmap, Hj. simpl. by rewrite Hid.
  - simpl in Hm. apply list_find_None in Hfind.
    rewrite Forall_forall in Hfind. by destruct (Hfind m Hm).
Qed.

(** X28.  With memory ids that are all different, a memory marked as
    surfaced carries the time of the mark, and for as long as the resurface
    interval has not passed the pick returns it only as the fallback: when
    no stored memory at all is due. *)
Theorem surfaced_memory_waits (store : Storage) (id : string)
    (now now' : Z) (random : Random) (m : Memory.t) :
  NoDup (Memory.id <$> getMemories store) →
  now ≤ now' < now + intervalMs store →
  let store' := markMemoryAsSurfaced store id now in
  getEligibleMemoryForSurfacing store' now' random = Some m →
  Memory.id m = id →
  Memory.lastSurfacedAt m = Some now
  ∧ ∀ m', m' ∈ getMemories store' → ¬ due (intervalMs store') now' m'.
Proof.
  intros Hnodup Hnow store' Hpick Hid.
  apply getEligibleMemoryForSurfacing_Some in Hpick as [Hm Hdue].
  pose proof (markMemoryAsSurfaced_time store id now m Hnodup Hm Hid) as Htime.
  split; [done|].
  destruct Hdue as [Hdue|Hnone]; [|done].
  unfold due in Hdue. rewrite Htime in Hdue.
  subst store'. rewrite markMemoryAsSurfaced_settings in Hdue. lia.
Qed.

Lemma surfaced_memory_waits_witness :
  Memory.lastSurfacedAt (memory_example "m1" (Some "joy") (Some 8000))
  = Some 8000
  ∧ ¬ due (intervalMs
             (markMemoryAsSurfaced
                (fst (deleteMemory store_example "m2")) "m1" 8000))
          9000 (memory_example "m3" (Some "joy") (Some 7000)).
Proof.
  assert (NoDup (Memory.id <$> getMemories
                                 (fst (deleteMemory store_example "m2"))))
    as Hnodup by (apply (bool_decide_unpack _); vm_compute; exact I).
  assert (8000 ≤ 9000
          < 8000 + intervalMs (fst (deleteMemory store_example "m2")))
    as Hnow by (vm_compute; split; [by intro|done]).
  destruct (surfaced_memory_waits
              (fst (deleteMemory store_example "m2")) "m1" 8000 9000
              (mkRandom 0 1) (memory_example "m1" (Some "joy") (Some 8000))
              Hnodup Hnow eq_refl eq_refl) as [Htime Hnone].
  split; [exact Htime|]. apply Hnone.
  vm_compute. apply list_elem_of_further, list_elem_of_here.
Defined.

Lemma getMemories_setMemories (store : Storage) (memories : list Memory.t) :
  getMemories (setMemories store memories) = memories.
Proof. reflexivity. Qed.

(** X29.  Deleting an id that no stored memory has returns [false] and
    writes nothing.  A memory saved under such an id goes to the front of
    the list, and deleting it again returns [true] and gives back the list
    there was before. *)
Theorem deleteMemory_undoes_saveMemory (store : Storage)
    (memory : NewMemory.t) (newId : string) (now : Z) :
  newId ∉ Memory.id <$> getMemories store →
  let saved := saveMemory store memory newId now in
  deleteMemory store newId = (store, false)
  ∧ Memory.id (snd saved) = newId
  ∧ getMemories (fst saved) = snd saved :: getMemories store
  ∧ snd (deleteMemory (fst saved) newId) = true
  ∧ getMemories (fst (deleteMemory (fst saved) newId)) = getMemories store.
Proof.
  intros Hfresh saved.
  assert (filter (λ m, Memory.id m ≠ newId) (getMemories store)
          = getMemories store) as Hkept.
  { apply filter_all, Forall_forall. intros m Hm Hid. apply Hfresh.
    apply list_elem_of_fmap. by exists m. }
  split.
  { unfold deleteMemory. rewrite Hkept. by rewrite decide_True. }
  split; [done|]. split; [done|].
  assert (deleteMemory (fst saved) newId
          = (setMemories (fst saved) (getMemories store), true)) as ->.
  { unfold deleteMemory. subst saved. unfold saveMemory.
    cbn [fst snd]. rewrite !getMemories_setMemories.
    rewrite filter_cons. cbn [Memory.id].
    destruct (decide (newId ≠ newId)) as [Hne|_]; [by destruct Hne|].
    rewrite Hkept. rewrite decide_False by (simpl; lia). done. }
  done.
Qed.

Lemma deleteMemory_undoes_saveMemory_witness :
  deleteMemory store_example "m4" = (store_example, false)
  ∧ getMemories
      (fst (deleteMemory
              (fst (saveMemory store_example
                      (NewMemory.mk "rain on the roof" None None None []
                                    None None)
                      "m4" 9000))
              "m4"))
    = getMemories store_example.
Proof.
  assert ("m4" ∉ Memory.id <$> getMemories store_example) as Hfresh
    by (apply (bool_decide_unpack _); vm_compute; exact I).
  destruct (deleteMemory_undoes_saveMemory store_example
              (NewMemory.mk "rain on the roof" None None None [] None None)
              "m4" 9000 Hfresh) as (Hno & _ & _ & _ & Hback).
  split; [exact Hno|exact Hback].
Defined.

(** ** Sections of the history list *)

Lemma push_group_titles (tag : string) (memory : Memory.t)
    (groups : list MemorySection) :
  fst <$> push_group tag memory groups
  = if decide (tag ∈ fst <$> groups) then fst <$> groups
    else ((fst <$> groups) ++ [tag])%list.
Proof.
  induction groups as [|[title data] rest IH]; cbn [push_group].
  - rewrite decide_False; [done|]. apply not_elem_of_nil.
  - rewrite fmap_cons. cbn [fst].
    destruct (decide (title = tag)) as [->|Hne].
    + rewrite decide_True; [done|]. apply list_elem_of_here.
    + rewrite fmap_cons, IH. cbn [fst].
      destruct (decide (tag ∈ fst <$> rest)) as [Hin|Hout].
      * rewrite decide_True; [done|]. by apply list_elem_of_further.
      * rewrite decide_False; [done|].
        intros [?|?]%elem_of_cons; [by subst|done].
Qed.

Lemma push_group_Forall (Q : MemorySection → Prop) (tag : string)
    (memory : Memory.t) (groups : list MemorySection) :
  NoDup (fst <$> groups) →
  (∀ e, e ∈ groups → fst e ≠ tag → Q e) →
  (∀ data, (tag, data) ∈ groups → Q (tag, (data ++ [memory])%list)) →
  ((tag ∉ fst <$> groups) → Q (tag, [memory])) →
  Forall Q (push_group tag memory groups).
Proof.
  induction groups as [|[title data] rest IH]; cbn [push_group];
    intros Hnodup Hother Hsame Hnew.
  - apply Forall_singleton, Hnew, not_elem_of_nil.
  - rewrite fmap_cons in Hnodup, Hnew. cbn [fst] in Hnodup, Hnew.
    apply NoDup_cons in Hnodup as [Htitle Hnodup].
    destruct (decide (title = tag)) as [->|Hne].
    + apply Forall_cons. split; [apply Hsame, list_elem_of_here|].
      apply Forall_forall. intros e He. apply Hother.
      * by apply list_elem_of_further.
      * intros Heq. apply Htitle. apply list_elem_of_fmap. by exists e.
    + apply Forall_cons. split; [by apply Hother; [apply list_elem_of_here|]|].
      apply IH; [done|..].
      * intros e He. apply Hother. by apply list_elem_of_further.
      * intros data' Hdata. apply Hsame. by apply list_elem_of_further.
      * intros Hout. apply Hnew.
        intros [?|?]%elem_of_cons; [by subst|done].
Qed.

Lemma groups_of_push (memories : list Memory.t) (m : Memory.t)
    (groups : list MemorySection) :
  groups_of memories groups →
  groups_of (memories ++ [m])%list (push_group (tag_of m) m groups).
Proof.
  intros (Hnodup & Hgroups & Hcover).
  rewrite Forall_forall in Hgroups.
  split; [|split].
  - rewrite push_group_titles.
    destruct (decide (tag_of m ∈ fst <$> groups)) as [|Hout]; [done|].
    apply NoDup_app. split; [done|]. split; [|apply NoDup_singleton].
    intros title Hin Heq%list_elem_of_singleton. by subst title.
  - apply push_group_Forall; [done|..].
    + intros e He Hne. destruct (Hgroups e He) as [Hdata Hnonempty].
      split; [|done]. rewrite filter_app, <- Hdata.
      rewrite filter_cons, decide_False by (by intros ?).
      by rewrite filter_nil, app_nil_r.
    + intros data Hdata.
      destruct (Hgroups _ Hdata) as [Heq _]. simpl in *.
      split; [|by destruct data].
      rewrite filter_app, <- Heq.
      by rewrite filter_cons, decide_True, filter_nil.
    + intros Hout. simpl. split; [|done].
      rewrite filter_app.
      rewrite filter_cons, decide_True, filter_nil by done.
      replace (filter (λ m0, tag_of m0 = tag_of m) memories)
        with (@nil Memory.t); [done|].
      symmetry. apply filter_none. intros m' Hm' Htag.
      apply Hout. rewrite <- Htag. by apply Hcover.
  - intros m' Hm'. rewrite push_group_titles.
    apply elem_of_app in Hm' as [Hm'|Hm'];
      [|apply list_elem_of_singleton in Hm'; subst m'].
    + destruct (decide (tag_of m ∈ fst <$> groups));
        [by apply Hcover|].
      apply elem_of_app. left. by apply Hcover.
    + destruct (decide (tag_of m ∈ fst <$> groups)) as [|]; [done|].
      apply elem_of_app. right. apply list_elem_of_here.
Qed.

Lemma collect_groups_spec (memories : list Memory.t) :
  Forall (λ m, tag_of m ∉ object_prototype_members) memories →
  ∃ groups, collect_groups memories = Some groups
            ∧ groups_of memories groups.
Proof.
  induction memories as [|m memories IH] using rev_ind; intros Htags.
  - exists []. split; [done|]. split; [constructor|]. split; [constructor|].
    by intros m ?%not_elem_of_nil.
  - apply Forall_app in Htags as [Htags Hm].
    rewrite Forall_singleton in Hm.
    destruct (IH Htags) as (groups & Hcollect & Hgroups).
    exists (push_group (tag_of m) m groups). split.
    + unfold collect_groups in *. rewrite foldl_app, Hcollect. simpl.
      unfold push_memory. by rewrite decide_False.
    + by apply groups_of_push.
Qed.

Lemma collect_groups_throws (memories : list Memory.t) :
  (∃ m, m ∈ memories ∧ tag_of m ∈ object_prototype_members) →
  collect_groups memories = None.
Proof.
  induction memories as [|m0 memories IH] using rev_ind;
    intros (m & Hm & Htag).
  - by apply not_elem_of_nil in Hm.
  - unfold collect_groups in *. rewrite foldl_app. simpl.
    apply elem_of_app in Hm as [Hm|Hm].
    + rewrite IH by eauto. done.
    + apply list_elem_of_singleton in Hm. subst m0.
      destruct (foldl _ (Some []) memories) as [groups|]; [|done].
      simpl. unfold push_memory. by rewrite decide_True.
Qed.

Lemma object_entries_Permutation (groups : list MemorySection) :
  object_entries groups ≡ₚ groups.
Proof.
  unfold object_entries. rewrite merge_sort_Permutation.
  apply filter_app_complement.
Qed.

Lemma insert_by_size_Permutation (e : MemorySection)
    (sorted : list MemorySection) :
  insert_by_size e sorted ≡ₚ e :: sorted.
Proof.
  induction sorted as [|e' rest IH]; simpl; [done|].
  destruct (decide (length (snd e') ≤ length (snd e))%nat); [done|].
  rewrite IH. apply Permutation_swap.
Qed.

Lemma sort_by_size_Permutation (entries : list MemorySection) :
  sort_by_size entries ≡ₚ entries.
Proof.
  induction entries as [|e entries IH]; simpl; [done|].
  unfold sort_by_size in *. simpl.
  by rewrite insert_by_size_Permutation, IH.
Qed.

Lemma insert_by_size_sorted (e : MemorySection)
    (sorted : list MemorySection) :
  StronglySorted larger_first sorted →
  StronglySorted larger_first (insert_by_size e sorted).
Proof.
  induction 1 as [|e' rest Hsorted IH Hall]; simpl.
  - apply SSorted_cons; constructor.
  - destruct (decide (length (snd e') ≤ length (snd e))%nat) as [Hle|Hgt].
    + apply SSorted_cons; [by apply SSorted_cons|].
      apply Forall_cons. split; [done|].
      eapply Forall_impl; [exact Hall|]. unfold larger_first. intros; lia.
    + apply SSorted_cons; [done|].
      rewrite insert_by_size_Permutation. apply Forall_cons.
      split; [unfold larger_first; lia|done].
Qed.

Lemma sort_by_size_sorted (entries : list MemorySection) :
  StronglySorted larger_first (sort_by_size entries).
Proof.
  induction entries as [|e entries IH]; [constructor|].
  by apply insert_by_size_sorted.
Qed.

(** X30.  When no memory is tagged with the name of a member of
    [Object.prototype], the sections of the history list grouped by tag
    split the memories: no two sections have the same title, a section
    holds exactly the memories of its tag in the order of the list and is
    never empty, every memory is in the section of its tag (Untagged for
    one without an emotion), and larger sections come first.  When a
    memory is tagged with such a name, the grouping throws. *)
Theorem groupMemoriesByTag_partitions (memories : list Memory.t) :
  ((∀ m, m ∈ memories → tag_of m ∉ object_prototype_members) →
   ∃ sections,
     groupMemoriesByTag memories = Some sections
     ∧ StronglySorted larger_first sections
     ∧ NoDup (fst <$> sections)
     ∧ (∀ title data, (title, data) ∈ sections →
          data ≠ [] ∧ data = filter (λ m, tag_of m = title) memories)
     ∧ (∀ m, m ∈ memories →
          ∃ data, (tag_of m, data) ∈ sections ∧ m ∈ data))
  ∧ ((∃ m, m ∈ memories ∧ tag_of m ∈ object_prototype_members) →
     groupMemoriesByTag memories = None).
Proof.
  split.
  - intros Htags. apply Forall_forall in Htags.
    destruct (collect_groups_spec memories Htags)
      as (groups & Hcollect & Hnodup & Hgroups & Hcover).
    exists (sort_by_size (object_entries groups)).
    assert (sort_by_size (object_entries groups) ≡ₚ groups) as Hperm
      by (by rewrite sort_by_size_Permutation, object_entries_Permutation).
    rewrite Forall_forall in Hgroups.
    assert (∀ title data,
              (title, data) ∈ sort_by_size (object_entries groups) →
              data ≠ [] ∧ data = filter (λ m, tag_of m = title) memories)
      as Hsections.
    { intros title data Hin. rewrite Hperm in Hin.
      destruct (Hgroups _ Hin) as [Hdata Hnonempty]. done. }
    split; [by unfold groupMemoriesByTag; rewrite Hcollect|].
    split; [apply sort_by_size_sorted|].
    split; [by rewrite Hperm|]. split; [done|].
    intros m Hm.
    pose proof (Hcover m Hm) as Htag. rewrite <- Hperm in Htag.
    apply list_elem_of_fmap in Htag as ([title data] & Htitle & Hin).
    simpl in Htitle. subst title. exists data. split; [done|].
    destruct (Hsections _ _ Hin) as [_ ->].
    apply list_elem_of_filter. done.
  - intros Hthrows. unfold groupMemoriesByTag.
    by rewrite collect_groups_throws.
Qed.

(** Two memories of joy around one tagged 7: the section of 7 is listed
    first by [Object.entries] and sorted behind the larger section of joy.
    A memory tagged constructor makes the grouping throw. *)
Lemma groupMemoriesByTag_partitions_witness :
  (fst <$> object_entries
             (default [] (collect_groups numbered_memories))
   = ["7"; "joy"])
  ∧ (∃ sections,
       groupMemoriesByTag numbered_memories = Some sections
       ∧ fst <$> sections = ["joy"; "7"]
       ∧ ∃ data, ("7", data) ∈ sections
                 ∧ memory_example "m2" (Some "7") None ∈ data)
  ∧ groupMemoriesByTag constructor_memories = None.
Proof.
  split; [vm_compute; reflexivity|].
  destruct (groupMemoriesByTag_partitions numbered_memories)
    as [Hgroups _].
  destruct (groupMemoriesByTag_partitions constructor_memories)
    as [_ Hthrows].
  split.
  - destruct Hgroups as (sections & Hsome & _ & _ & _ & Hcover).
    + intros m Hm. unfold numbered_memories in Hm.
      apply (bool_decide_unpack _).
      repeat (apply elem_of_cons in Hm as [->|Hm]; [vm_compute; exact I|]).
      by apply not_elem_of_nil in Hm.
    + exists sections. split; [exact Hsome|]. split.
      * assert (groupMemoriesByTag numbered_memories
                = Some [("joy", [memory_example "m1" (Some "joy") None;
                                 memory_example "m3" (Some "joy") None]);
                        ("7", [memory_example "m2" (Some "7") None])])
          as Heq by (vm_compute; reflexivity).
        rewrite Heq in Hsome. by injection Hsome as <-.
      * apply (Hcover (memory_example "m2" (Some "7") None)).
        apply list_elem_of_further, list_elem_of_here.
  - apply Hthrows. exists (memory_example "m2" (Some "constructor") None).
    split; [apply list_elem_of_further, list_elem_of_here|].
    apply (bool_decide_unpack _). vm_compute. exact I.
Defined.
